(** * proSLAM frame-to-frame tracker: a shallow embedding of
      [src/motion_estimation/base_tracker.cpp]

    The tracker is embedded as state-passing functions over an explicit
    store.  Every C++ pointer ([FramePoint*], [Landmark*], [Frame*]) is an
    [option nat]: [None] is the null pointer and [Some a] an address in the
    corresponding store.  A function returns [None] where the C++ program
    has no defined behaviour (null or dangling dereference, vector access
    out of range, conversion of a non-finite [double] to [int32_t]). *)

From Stdlib Require Import ZArith NArith QArith Qround Lia Lqa Bool.
From stdpp Require Import base option list gmap sorting.

Set Default Proof Using "Type".

(** ** Numbers *)

(** [real] is [double] in the source.  Rounding is not modelled: the
    finite values are exact rationals.  The special values of IEEE 754
    that decide control flow (NaN, the two infinities) are kept, with the
    rules that every ordered comparison with NaN is false, [0/0] is NaN
    and [x/0] is an infinity.  Signed zeros are not distinguished. *)
Module Real.

Inductive real : Type :=
| Fin (q : Q)
| PInf
| MInf
| NaN.

Definition of_Z (z : Z) : real := Fin (inject_Z z).
Definition of_N (n : N) : real := of_Z (Z.of_N n).

Definition sign (x : real) : comparison :=
  match x with
  | Fin q => (q ?= 0)%Q
  | PInf => Gt
  | MInf => Lt
  | NaN => Eq
  end.

Definition sign_mul (a b : comparison) : comparison :=
  match a, b with
  | Eq, _ | _, Eq => Eq
  | Gt, Gt | Lt, Lt => Gt
  | _, _ => Lt
  end.

(** An infinity of the given sign; [Eq] stands for the invalid
    operations ([0 * inf], [0 / 0]). *)
Definition inf_of_sign (c : comparison) : real :=
  match c with Gt => PInf | Lt => MInf | Eq => NaN end.

Definition opp (x : real) : real :=
  match x with
  | Fin q => Fin (Qred (- q))
  | PInf => MInf
  | MInf => PInf
  | NaN => NaN
  end.

Definition add (x y : real) : real :=
  match x, y with
  | NaN, _ | _, NaN => NaN
  | Fin a, Fin b => Fin (Qred (a + b))
  | PInf, MInf | MInf, PInf => NaN
  | PInf, _ | _, PInf => PInf
  | MInf, _ | _, MInf => MInf
  end.

Definition sub (x y : real) : real := add x (opp y).

Definition mul (x y : real) : real :=
  match x, y with
  | NaN, _ | _, NaN => NaN
  | Fin a, Fin b => Fin (Qred (a * b))
  | _, _ => inf_of_sign (sign_mul (sign x) (sign y))
  end.

Definition div (x y : real) : real :=
  match x, y with
  | NaN, _ | _, NaN => NaN
  | Fin a, Fin b =>
      if Qeq_bool b 0 then inf_of_sign (a ?= 0)%Q else Fin (Qred (a / b))
  | Fin _, _ => Fin 0
  | _, Fin b => if Qle_bool 0 b then x else opp x
  | _, _ => NaN
  end.

(** [x < y], [x <= y], [x == y] of C++ on doubles. *)
Definition ltb (x y : real) : bool :=
  match x, y with
  | NaN, _ | _, NaN => false
  | Fin a, Fin b => negb (Qle_bool b a)
  | MInf, MInf | PInf, _ | _, MInf => false
  | _, _ => true
  end.

Definition leb (x y : real) : bool :=
  match x, y with
  | NaN, _ | _, NaN => false
  | Fin a, Fin b => Qle_bool a b
  | MInf, _ | _, PInf => true
  | _, _ => false
  end.

Definition eqb (x y : real) : bool :=
  match x, y with
  | Fin a, Fin b => Qeq_bool a b
  | PInf, PInf | MInf, MInf => true
  | _, _ => false
  end.

(** [std::max(a, b)] is [(a < b) ? b : a]. *)
Definition std_max (a b : real) : real := if ltb a b then b else a.

(** [std::round]: to the nearest integer, halfway cases away from zero. *)
Definition round_half_away (q : Q) : Z :=
  if Qle_bool 0 q then Qfloor (q + (1 # 2)) else (- Qfloor (- q + (1 # 2)))%Z.

(** [const int32_t r = std::round(x)]: the conversion is undefined for a
    NaN, an infinity or a value outside the range of [int32_t]. *)
Definition round_int32 (x : real) : option Z :=
  match x with
  | Fin q =>
      let z := round_half_away q in
      if ((- 2 ^ 31 <=? z) && (z <? 2 ^ 31))%Z then Some z else None
  | _ => None
  end.

End Real.
Export Real(real, Fin, PInf, MInf, NaN).

(** ** Linear algebra (Eigen) *)

Record Vector3 : Type := mkVector3 { vx : real; vy : real; vz : real }.

(** A 3x3 matrix, by rows. *)
Record Matrix3 : Type := mkMatrix3 { row0 : Vector3; row1 : Vector3; row2 : Vector3 }.

(** [TransformMatrix3D] is [Eigen::Transform<real, 3, Eigen::Isometry>]:
    the linear part and the translation of a 4x4 matrix whose last row is
    [0 0 0 1]. *)
Record TransformMatrix3D : Type :=
  mkTransform { linear : Matrix3; translation : Vector3 }.

Module Eigen.

Definition zero3 : Vector3 := mkVector3 (Fin 0) (Fin 0) (Fin 0).

Definition dot (a b : Vector3) : real :=
  Real.add (Real.add (Real.mul (vx a) (vx b)) (Real.mul (vy a) (vy b)))
           (Real.mul (vz a) (vz b)).

Definition vadd (a b : Vector3) : Vector3 :=
  mkVector3 (Real.add (vx a) (vx b)) (Real.add (vy a) (vy b)) (Real.add (vz a) (vz b)).

Definition vopp (a : Vector3) : Vector3 :=
  mkVector3 (Real.opp (vx a)) (Real.opp (vy a)) (Real.opp (vz a)).

(** [v /= s] *)
Definition vdiv (a : Vector3) (s : real) : Vector3 :=
  mkVector3 (Real.div (vx a) s) (Real.div (vy a) s) (Real.div (vz a) s).

Definition mat_vec (m : Matrix3) (v : Vector3) : Vector3 :=
  mkVector3 (dot (row0 m) v) (dot (row1 m) v) (dot (row2 m) v).

Definition col0 (m : Matrix3) := mkVector3 (vx (row0 m)) (vx (row1 m)) (vx (row2 m)).
Definition col1 (m : Matrix3) := mkVector3 (vy (row0 m)) (vy (row1 m)) (vy (row2 m)).
Definition col2 (m : Matrix3) := mkVector3 (vz (row0 m)) (vz (row1 m)) (vz (row2 m)).

Definition transpose (m : Matrix3) : Matrix3 := mkMatrix3 (col0 m) (col1 m) (col2 m).

Definition row_mat (r : Vector3) (m : Matrix3) : Vector3 :=
  mkVector3 (dot r (col0 m)) (dot r (col1 m)) (dot r (col2 m)).

Definition mat_mul (a b : Matrix3) : Matrix3 :=
  mkMatrix3 (row_mat (row0 a) b) (row_mat (row1 a) b) (row_mat (row2 a) b).

Definition identity3 : Matrix3 :=
  mkMatrix3 (mkVector3 (Fin 1) (Fin 0) (Fin 0))
            (mkVector3 (Fin 0) (Fin 1) (Fin 0))
            (mkVector3 (Fin 0) (Fin 0) (Fin 1)).

(** [TransformMatrix3D::Identity()] *)
Definition Identity : TransformMatrix3D := mkTransform identity3 zero3.

(** [a * b] on transforms *)
Definition compose (a b : TransformMatrix3D) : TransformMatrix3D :=
  mkTransform (mat_mul (linear a) (linear b))
              (vadd (mat_vec (linear a) (translation b)) (translation a)).

(** [t * v]: a transform applied to a point *)
Definition apply (t : TransformMatrix3D) (v : Vector3) : Vector3 :=
  vadd (mat_vec (linear t) v) (translation t).

(** [t.inverse()] in [Isometry] mode: the transposed rotation. *)
Definition inverse (t : TransformMatrix3D) : TransformMatrix3D :=
  mkTransform (transpose (linear t))
              (vopp (mat_vec (transpose (linear t)) (translation t))).

End Eigen.

(** ** Data model *)

(** A C++ pointer into one of the stores. *)
Abbreviation Ptr := (option nat).

(** [Frame::Status] *)
Inductive Status : Type := Localizing | Tracking.

#[global] Instance Status_eq_dec : EqDecision Status.
Proof. solve_decision. Defined.

(** [cv::Mat] holding a binary descriptor *)
Abbreviation Descriptor := (list bool).

(** [std::vector::resize(n)] with value-initialised new elements *)
Definition resize {A} (n : nat) (d : A) (v : list A) : list A :=
  take n v ++ replicate (n - length v) d.

(** [v[i] = x]: undefined behaviour out of range *)
Definition vec_set {A} (i : nat) (x : A) (v : list A) : option (list A) :=
  if decide (i < length v) then Some (<[i := x]> v) else None.

Module FramePoint.

Record t : Type := mk {
  imageCoordinatesLeft : Vector3;
  descriptorLeft : Descriptor;
  robotCoordinates : Vector3;
  worldCoordinates : Vector3;
  isNear : bool;
  previous : Ptr;
  trackLength : N;
  landmark : Ptr
}.

Definition setWorldCoordinates (w : Vector3) (p : t) : t :=
  mk (imageCoordinatesLeft p) (descriptorLeft p) (robotCoordinates p) w
     (isNear p) (previous p) (trackLength p) (landmark p).

Definition setLandmark (l : Ptr) (p : t) : t :=
  mk (imageCoordinatesLeft p) (descriptorLeft p) (robotCoordinates p)
     (worldCoordinates p) (isNear p) (previous p) (trackLength p) l.

(** Modelled from the spec: [FramePoint::setPrevious] is not part of the
    sources at hand.  Linking a framepoint to its predecessor sets the
    back-link, makes the track length one more than the predecessor's and
    hands the predecessor's landmark on (the near/far counters of the
    association are incremented "if [p] carried a landmark"). *)
Definition setPrevious (previous_ : Ptr) (previous_point : t) (p : t) : t :=
  mk (imageCoordinatesLeft p) (descriptorLeft p) (robotCoordinates p)
     (worldCoordinates p) (isNear p) previous_
     (trackLength previous_point + 1) (landmark previous_point).

End FramePoint.

Module Landmark.

Record t : Type := mk {
  coordinates : Vector3;
  areCoordinatesValidated : bool;
  isNear : bool;
  isCurrentlyTracked : bool
}.

Definition setIsNear (b : bool) (l : t) : t :=
  mk (coordinates l) (areCoordinatesValidated l) b (isCurrentlyTracked l).

Definition setIsCurrentlyTracked (b : bool) (l : t) : t :=
  mk (coordinates l) (areCoordinatesValidated l) (isNear l) b.

End Landmark.

Module Frame.

Record t : Type := mk {
  points : list Ptr;
  robotToWorld : TransformMatrix3D;
  previous : Ptr;
  status : Status
}.

Definition set_points (v : list Ptr) (f : t) : t :=
  mk v (robotToWorld f) (previous f) (status f).

Definition setRobotToWorld (r : TransformMatrix3D) (f : t) : t :=
  mk (points f) r (previous f) (status f).

Definition setStatus (s : Status) (f : t) : t :=
  mk (points f) (robotToWorld f) (previous f) s.

(** [Frame::worldToRobot()] is kept by the frame as the inverse of its
    pose. *)
Definition worldToRobot (f : t) : TransformMatrix3D :=
  Eigen.inverse (robotToWorld f).

End Frame.

(** What the stereo extraction finds at one pixel: a keypoint with its
    descriptor, triangulated in the camera frame. *)
Record StereoCandidate : Type := mkCandidate {
  cand_imageCoordinatesLeft : Vector3;
  cand_descriptorLeft : Descriptor;
  cand_robotCoordinates : Vector3;
  cand_isNear : bool
}.

(** The stereo pair handed to the tracker, represented by what the
    (external) feature extraction and triangulation detect at each pixel
    (row, column). *)
Definition Image : Type := nat -> nat -> option StereoCandidate.

(** [FramePointMatrix]: the generator's image grid, [FramePoint***],
    indexed [row][col]. *)
Abbreviation FramePointMatrix := (list (list Ptr)).

(** The world map ([_context]).  [frames] and [landmarks] are the stores the
    [Frame*] and [Landmark*] pointers point into; [next_frame] and
    [next_landmark] are the addresses the next [new] returns. *)
Module WorldMap.

Record t : Type := mk {
  frames : gmap nat Frame.t;
  next_frame : nat;
  landmarks : gmap nat Landmark.t;
  next_landmark : nat;
  currentFrame : Ptr;
  currentlyTrackedLandmarks : list Ptr;
  robotToWorld : TransformMatrix3D
}.

Definition set_frames (v : gmap nat Frame.t) (s : t) : t :=
  mk v (next_frame s) (landmarks s) (next_landmark s) (currentFrame s)
     (currentlyTrackedLandmarks s) (robotToWorld s).

Definition set_next_frame (v : nat) (s : t) : t :=
  mk (frames s) v (landmarks s) (next_landmark s) (currentFrame s)
     (currentlyTrackedLandmarks s) (robotToWorld s).

Definition set_landmarks (v : gmap nat Landmark.t) (s : t) : t :=
  mk (frames s) (next_frame s) v (next_landmark s) (currentFrame s)
     (currentlyTrackedLandmarks s) (robotToWorld s).

Definition set_next_landmark (v : nat) (s : t) : t :=
  mk (frames s) (next_frame s) (landmarks s) v (currentFrame s)
     (currentlyTrackedLandmarks s) (robotToWorld s).

Definition set_currentFrame (v : Ptr) (s : t) : t :=
  mk (frames s) (next_frame s) (landmarks s) (next_landmark s) v
     (currentlyTrackedLandmarks s) (robotToWorld s).

Definition set_currentlyTrackedLandmarks (v : list Ptr) (s : t) : t :=
  mk (frames s) (next_frame s) (landmarks s) (next_landmark s)
     (currentFrame s) v (robotToWorld s).

Definition set_robotToWorld (v : TransformMatrix3D) (s : t) : t :=
  mk (frames s) (next_frame s) (landmarks s) (next_landmark s)
     (currentFrame s) (currentlyTrackedLandmarks s) v.

End WorldMap.

(** The state of the framepoint generator the tracker reads and writes. *)
Module FramePointGenerator.

Record t : Type := mk {
  framepointsInImage : FramePointMatrix;
  numberOfAvailablePoints : N
}.

Definition set_framepointsInImage (v : FramePointMatrix) (s : t) : t :=
  mk v (numberOfAvailablePoints s).

Definition set_numberOfAvailablePoints (v : N) (s : t) : t :=
  mk (framepointsInImage s) v.

End FramePointGenerator.

(** The pose optimizer: the weight set by the tracker and the solution of the
    last [converge()]. *)
Module PoseOptimizer.

Record t : Type := mk {
  weightFramepoint : real;
  robotToWorld : TransformMatrix3D;
  numberOfInliers : N;
  errors : list real;
  inliers : list bool
}.

Definition set_weightFramepoint (v : real) (s : t) : t :=
  mk v (robotToWorld s) (numberOfInliers s) (errors s) (inliers s).

End PoseOptimizer.

(** The tracker with the objects it points to.  [framepoints] is the free
    store the [FramePoint*] pointers point into and [next_framepoint] the
    address the next [new FramePoint] returns. *)
Module BaseTracker.

Record t : Type := mk {
  _status : Status;
  _status_previous : Status;
  _number_of_tracked_points : N;
  _number_of_potential_points : N;
  _number_of_lost_points : N;
  _number_of_lost_points_recovered : N;
  _number_of_tracked_landmarks_far : N;
  _number_of_tracked_landmarks_close : N;
  _total_number_of_tracked_points : N;
  _total_number_of_landmarks_close : N;
  _total_number_of_landmarks_far : N;
  _motion_previous_to_current_robot : TransformMatrix3D;
  _pixel_distance_tracking_threshold : Z;
  _lost_points : list Ptr;
  _projected_image_coordinates_left : list Vector3;
  _has_odometry : bool;
  _odometry : TransformMatrix3D;
  _previous_odometry : TransformMatrix3D;
  _intensity_image_left : Image;
  _context : WorldMap.t;
  _framepoint_generator : FramePointGenerator.t;
  _pose_optimizer : PoseOptimizer.t;
  framepoints : gmap nat FramePoint.t;
  next_framepoint : nat
}.

Definition set_status (v : Status) (s : t) : t :=
  mk v (_status_previous s) (_number_of_tracked_points s)
     (_number_of_potential_points s) (_number_of_lost_points s)
     (_number_of_lost_points_recovered s)
     (_number_of_tracked_landmarks_far s)
     (_number_of_tracked_landmarks_close s)
     (_total_number_of_tracked_points s) (_total_number_of_landmarks_close s)
     (_total_number_of_landmarks_far s) (_motion_previous_to_current_robot s)
     (_pixel_distance_tracking_threshold s) (_lost_points s)
     (_projected_image_coordinates_left s) (_has_odometry s) (_odometry s)
     (_previous_odometry s) (_intensity_image_left s) (_context s)
     (_framepoint_generator s) (_pose_optimizer s) (framepoints s)
     (next_framepoint s).

Definition set_status_previous (v : Status) (s : t) : t :=
  mk (_status s) v (_number_of_tracked_points s)
     (_number_of_potential_points s) (_number_of_lost_points s)
     (_number_of_lost_points_recovered s)
     (_number_of_tracked_landmarks_far s)
     (_number_of_tracked_landmarks_close s)
     (_total_number_of_tracked_points s) (_total_number_of_landmarks_close s)
     (_total_number_of_landmarks_far s) (_motion_previous_to_current_robot s)
     (_pixel_distance_tracking_threshold s) (_lost_points s)
     (_projected_image_coordinates_left s) (_has_odometry s) (_odometry s)
     (_previous_odometry s) (_intensity_image_left s) (_context s)
     (_framepoint_generator s) (_pose_optimizer s) (framepoints s)
     (next_framepoint s).

Definition set_number_of_tracked_points (v : N) (s : t) : t :=
  mk (_status s) (_status_previous s) v (_number_of_potential_points s)
     (_number_of_lost_points s) (_number_of_lost_points_recovered s)
     (_number_of_tracked_landmarks_far s)
     (_number_of_tracked_landmarks_close s)
     (_total_number_of_tracked_points s) (_total_number_of_landmarks_close s)
     (_total_number_of_landmarks_far s) (_motion_previous_to_current_robot s)
     (_pixel_distance_tracking_threshold s) (_lost_points s)
     (_projected_image_coordinates_left s) (_has_odometry s) (_odometry s)
     (_previous_odometry s) (_intensity_image_left s) (_context s)
     (_framepoint_generator s) (_pose_optimizer s) (framepoints s)
     (next_framepoint s).

Definition set_number_of_potential_points (v : N) (s : t) : t :=
  mk (_status s) (_status_previous s) (_number_of_tracked_points s) v
     (_number_of_lost_points s) (_number_of_lost_points_recovered s)
     (_number_of_tracked_landmarks_far s)
     (_number_of_tracked_landmarks_close s)
     (_total_number_of_tracked_points s) (_total_number_of_landmarks_close s)
     (_total_number_of_landmarks_far s) (_motion_previous_to_current_robot s)
     (_pixel_distance_tracking_threshold s) (_lost_points s)
     (_projected_image_coordinates_left s) (_has_odometry s) (_odometry s)
     (_previous_odometry s) (_intensity_image_left s) (_context s)
     (_framepoint_generator s) (_pose_optimizer s) (framepoints s)
     (next_framepoint s).

Definition set_number_of_lost_points (v : N) (s : t) : t :=
  mk (_status s) (_status_previous s) (_number_of_tracked_points s)
     (_number_of_potential_points s) v (_number_of_lost_points_recovered s)
     (_number_of_tracked_landmarks_far s)
     (_number_of_tracked_landmarks_close s)
     (_total_number_of_tracked_points s) (_total_number_of_landmarks_close s)
     (_total_number_of_landmarks_far s) (_motion_previous_to_current_robot s)
     (_pixel_distance_tracking_threshold s) (_lost_points s)
     (_projected_image_coordinates_left s) (_has_odometry s) (_odometry s)
     (_previous_odometry s) (_intensity_image_left s) (_context s)
     (_framepoint_generator s) (_pose_optimizer s) (framepoints s)
     (next_framepoint s).

Definition set_number_of_lost_points_recovered (v : N) (s : t) : t :=
  mk (_status s) (_status_previous s) (_number_of_tracked_points s)
     (_number_of_potential_points s) (_number_of_lost_points s) v
     (_number_of_tracked_landmarks_far s)
     (_number_of_tracked_landmarks_close s)
     (_total_number_of_tracked_points s) (_total_number_of_landmarks_close s)
     (_total_number_of_landmarks_far s) (_motion_previous_to_current_robot s)
     (_pixel_distance_tracking_threshold s) (_lost_points s)
     (_projected_image_coordinates_left s) (_has_odometry s) (_odometry s)
     (_previous_odometry s) (_intensity_image_left s) (_context s)
     (_framepoint_generator s) (_pose_optimizer s) (framepoints s)
     (next_framepoint s).

Definition set_number_of_tracked_landmarks_far (v : N) (s : t) : t :=
  mk (_status s) (_status_previous s) (_number_of_tracked_points s)
     (_number_of_potential_points s) (_number_of_lost_points s)
     (_number_of_lost_points_recovered s) v
     (_number_of_tracked_landmarks_close s)
     (_total_number_of_tracked_points s) (_total_number_of_landmarks_close s)
     (_total_number_of_landmarks_far s) (_motion_previous_to_current_robot s)
     (_pixel_distance_tracking_threshold s) (_lost_points s)
     (_projected_image_coordinates_left s) (_has_odometry s) (_odometry s)
     (_previous_odometry s) (_intensity_image_left s) (_context s)
     (_framepoint_generator s) (_pose_optimizer s) (framepoints s)
     (next_framepoint s).

Definition set_number_of_tracked_landmarks_close (v : N) (s : t) : t :=
  mk (_status s) (_status_previous s) (_number_of_tracked_points s)
     (_number_of_potential_points s) (_number_of_lost_points s)
     (_number_of_lost_points_recovered s)
     (_number_of_tracked_landmarks_far s) v
     (_total_number_of_tracked_points s) (_total_number_of_landmarks_close s)
     (_total_number_of_landmarks_far s) (_motion_previous_to_current_robot s)
     (_pixel_distance_tracking_threshold s) (_lost_points s)
     (_projected_image_coordinates_left s) (_has_odometry s) (_odometry s)
     (_previous_odometry s) (_intensity_image_left s) (_context s)
     (_framepoint_generator s) (_pose_optimizer s) (framepoints s)
     (next_framepoint s).

Definition set_total_number_of_tracked_points (v : N) (s : t) : t :=
  mk (_status s) (_status_previous s) (_number_of_tracked_points s)
     (_number_of_potential_points s) (_number_of_lost_points s)
     (_number_of_lost_points_recovered s)
     (_number_of_tracked_landmarks_far s)
     (_number_of_tracked_landmarks_close s) v
     (_total_number_of_landmarks_close s) (_total_number_of_landmarks_far s)
     (_motion_previous_to_current_robot s)
     (_pixel_distance_tracking_threshold s) (_lost_points s)
     (_projected_image_coordinates_left s) (_has_odometry s) (_odometry s)
     (_previous_odometry s) (_intensity_image_left s) (_context s)
     (_framepoint_generator s) (_pose_optimizer s) (framepoints s)
     (next_framepoint s).

Definition set_total_number_of_landmarks_close (v : N) (s : t) : t :=
  mk (_status s) (_status_previous s) (_number_of_tracked_points s)
     (_number_of_potential_points s) (_number_of_lost_points s)
     (_number_of_lost_points_recovered s)
     (_number_of_tracked_landmarks_far s)
     (_number_of_tracked_landmarks_close s)
     (_total_number_of_tracked_points s) v (_total_number_of_landmarks_far s)
     (_motion_previous_to_current_robot s)
     (_pixel_distance_tracking_threshold s) (_lost_points s)
     (_projected_image_coordinates_left s) (_has_odometry s) (_odometry s)
     (_previous_odometry s) (_intensity_image_left s) (_context s)
     (_framepoint_generator s) (_pose_optimizer s) (framepoints s)
     (next_framepoint s).

Definition set_total_number_of_landmarks_far (v : N) (s : t) : t :=
  mk (_status s) (_status_previous s) (_number_of_tracked_points s)
     (_number_of_potential_points s) (_number_of_lost_points s)
     (_number_of_lost_points_recovered s)
     (_number_of_tracked_landmarks_far s)
     (_number_of_tracked_landmarks_close s)
     (_total_number_of_tracked_points s) (_total_number_of_landmarks_close s)
     v (_motion_previous_to_current_robot s)
     (_pixel_distance_tracking_threshold s) (_lost_points s)
     (_projected_image_coordinates_left s) (_has_odometry s) (_odometry s)
     (_previous_odometry s) (_intensity_image_left s) (_context s)
     (_framepoint_generator s) (_pose_optimizer s) (framepoints s)
     (next_framepoint s).

Definition set_motion_previous_to_current_robot (v : TransformMatrix3D) (s : t) : t :=
  mk (_status s) (_status_previous s) (_number_of_tracked_points s)
     (_number_of_potential_points s) (_number_of_lost_points s)
     (_number_of_lost_points_recovered s)
     (_number_of_tracked_landmarks_far s)
     (_number_of_tracked_landmarks_close s)
     (_total_number_of_tracked_points s) (_total_number_of_landmarks_close s)
     (_total_number_of_landmarks_far s) v
     (_pixel_distance_tracking_threshold s) (_lost_points s)
     (_projected_image_coordinates_left s) (_has_odometry s) (_odometry s)
     (_previous_odometry s) (_intensity_image_left s) (_context s)
     (_framepoint_generator s) (_pose_optimizer s) (framepoints s)
     (next_framepoint s).

Definition set_pixel_distance_tracking_threshold (v : Z) (s : t) : t :=
  mk (_status s) (_status_previous s) (_number_of_tracked_points s)
     (_number_of_potential_points s) (_number_of_lost_points s)
     (_number_of_lost_points_recovered s)
     (_number_of_tracked_landmarks_far s)
     (_number_of_tracked_landmarks_close s)
     (_total_number_of_tracked_points s) (_total_number_of_landmarks_close s)
     (_total_number_of_landmarks_far s) (_motion_previous_to_current_robot s)
     v (_lost_points s) (_projected_image_coordinates_left s)
     (_has_odometry s) (_odometry s) (_previous_odometry s)
     (_intensity_image_left s) (_context s) (_framepoint_generator s)
     (_pose_optimizer s) (framepoints s) (next_framepoint s).

Definition set_lost_points (v : list Ptr) (s : t) : t :=
  mk (_status s) (_status_previous s) (_number_of_tracked_points s)
     (_number_of_potential_points s) (_number_of_lost_points s)
     (_number_of_lost_points_recovered s)
     (_number_of_tracked_landmarks_far s)
     (_number_of_tracked_landmarks_close s)
     (_total_number_of_tracked_points s) (_total_number_of_landmarks_close s)
     (_total_number_of_landmarks_far s) (_motion_previous_to_current_robot s)
     (_pixel_distance_tracking_threshold s) v
     (_projected_image_coordinates_left s) (_has_odometry s) (_odometry s)
     (_previous_odometry s) (_intensity_image_left s) (_context s)
     (_framepoint_generator s) (_pose_optimizer s) (framepoints s)
     (next_framepoint s).

Definition set_projected_image_coordinates_left (v : list Vector3) (s : t) : t :=
  mk (_status s) (_status_previous s) (_number_of_tracked_points s)
     (_number_of_potential_points s) (_number_of_lost_points s)
     (_number_of_lost_points_recovered s)
     (_number_of_tracked_landmarks_far s)
     (_number_of_tracked_landmarks_close s)
     (_total_number_of_tracked_points s) (_total_number_of_landmarks_close s)
     (_total_number_of_landmarks_far s) (_motion_previous_to_current_robot s)
     (_pixel_distance_tracking_threshold s) (_lost_points s) v
     (_has_odometry s) (_odometry s) (_previous_odometry s)
     (_intensity_image_left s) (_context s) (_framepoint_generator s)
     (_pose_optimizer s) (framepoints s) (next_framepoint s).

Definition set_has_odometry (v : bool) (s : t) : t :=
  mk (_status s) (_status_previous s) (_number_of_tracked_points s)
     (_number_of_potential_points s) (_number_of_lost_points s)
     (_number_of_lost_points_recovered s)
     (_number_of_tracked_landmarks_far s)
     (_number_of_tracked_landmarks_close s)
     (_total_number_of_tracked_points s) (_total_number_of_landmarks_close s)
     (_total_number_of_landmarks_far s) (_motion_previous_to_current_robot s)
     (_pixel_distance_tracking_threshold s) (_lost_points s)
     (_projected_image_coordinates_left s) v (_odometry s)
     (_previous_odometry s) (_intensity_image_left s) (_context s)
     (_framepoint_generator s) (_pose_optimizer s) (framepoints s)
     (next_framepoint s).

Definition set_odometry (v : TransformMatrix3D) (s : t) : t :=
  mk (_status s) (_status_previous s) (_number_of_tracked_points s)
     (_number_of_potential_points s) (_number_of_lost_points s)
     (_number_of_lost_points_recovered s)
     (_number_of_tracked_landmarks_far s)
     (_number_of_tracked_landmarks_close s)
     (_total_number_of_tracked_points s) (_total_number_of_landmarks_close s)
     (_total_number_of_landmarks_far s) (_motion_previous_to_current_robot s)
     (_pixel_distance_tracking_threshold s) (_lost_points s)
     (_projected_image_coordinates_left s) (_has_odometry s) v
     (_previous_odometry s) (_intensity_image_left s) (_context s)
     (_framepoint_generator s) (_pose_optimizer s) (framepoints s)
     (next_framepoint s).

Definition set_previous_odometry (v : TransformMatrix3D) (s : t) : t :=
  mk (_status s) (_status_previous s) (_number_of_tracked_points s)
     (_number_of_potential_points s) (_number_of_lost_points s)
     (_number_of_lost_points_recovered s)
     (_number_of_tracked_landmarks_far s)
     (_number_of_tracked_landmarks_close s)
     (_total_number_of_tracked_points s) (_total_number_of_landmarks_close s)
     (_total_number_of_landmarks_far s) (_motion_previous_to_current_robot s)
     (_pixel_distance_tracking_threshold s) (_lost_points s)
     (_projected_image_coordinates_left s) (_has_odometry s) (_odometry s) v
     (_intensity_image_left s) (_context s) (_framepoint_generator s)
     (_pose_optimizer s) (framepoints s) (next_framepoint s).

Definition set_intensity_image_left (v : Image) (s : t) : t :=
  mk (_status s) (_status_previous s) (_number_of_tracked_points s)
     (_number_of_potential_points s) (_number_of_lost_points s)
     (_number_of_lost_points_recovered s)
     (_number_of_tracked_landmarks_far s)
     (_number_of_tracked_landmarks_close s)
     (_total_number_of_tracked_points s) (_total_number_of_landmarks_close s)
     (_total_number_of_landmarks_far s) (_motion_previous_to_current_robot s)
     (_pixel_distance_tracking_threshold s) (_lost_points s)
     (_projected_image_coordinates_left s) (_has_odometry s) (_odometry s)
     (_previous_odometry s) v (_context s) (_framepoint_generator s)
     (_pose_optimizer s) (framepoints s) (next_framepoint s).

Definition set_context (v : WorldMap.t) (s : t) : t :=
  mk (_status s) (_status_previous s) (_number_of_tracked_points s)
     (_number_of_potential_points s) (_number_of_lost_points s)
     (_number_of_lost_points_recovered s)
     (_number_of_tracked_landmarks_far s)
     (_number_of_tracked_landmarks_close s)
     (_total_number_of_tracked_points s) (_total_number_of_landmarks_close s)
     (_total_number_of_landmarks_far s) (_motion_previous_to_current_robot s)
     (_pixel_distance_tracking_threshold s) (_lost_points s)
     (_projected_image_coordinates_left s) (_has_odometry s) (_odometry s)
     (_previous_odometry s) (_intensity_image_left s) v
     (_framepoint_generator s) (_pose_optimizer s) (framepoints s)
     (next_framepoint s).

Definition set_framepoint_generator (v : FramePointGenerator.t) (s : t) : t :=
  mk (_status s) (_status_previous s) (_number_of_tracked_points s)
     (_number_of_potential_points s) (_number_of_lost_points s)
     (_number_of_lost_points_recovered s)
     (_number_of_tracked_landmarks_far s)
     (_number_of_tracked_landmarks_close s)
     (_total_number_of_tracked_points s) (_total_number_of_landmarks_close s)
     (_total_number_of_landmarks_far s) (_motion_previous_to_current_robot s)
     (_pixel_distance_tracking_threshold s) (_lost_points s)
     (_projected_image_coordinates_left s) (_has_odometry s) (_odometry s)
     (_previous_odometry s) (_intensity_image_left s) (_context s) v
     (_pose_optimizer s) (framepoints s) (next_framepoint s).

Definition set_pose_optimizer (v : PoseOptimizer.t) (s : t) : t :=
  mk (_status s) (_status_previous s) (_number_of_tracked_points s)
     (_number_of_potential_points s) (_number_of_lost_points s)
     (_number_of_lost_points_recovered s)
     (_number_of_tracked_landmarks_far s)
     (_number_of_tracked_landmarks_close s)
     (_total_number_of_tracked_points s) (_total_number_of_landmarks_close s)
     (_total_number_of_landmarks_far s) (_motion_previous_to_current_robot s)
     (_pixel_distance_tracking_threshold s) (_lost_points s)
     (_projected_image_coordinates_left s) (_has_odometry s) (_odometry s)
     (_previous_odometry s) (_intensity_image_left s) (_context s)
     (_framepoint_generator s) v (framepoints s) (next_framepoint s).

Definition set_framepoints (v : gmap nat FramePoint.t) (s : t) : t :=
  mk (_status s) (_status_previous s) (_number_of_tracked_points s)
     (_number_of_potential_points s) (_number_of_lost_points s)
     (_number_of_lost_points_recovered s)
     (_number_of_tracked_landmarks_far s)
     (_number_of_tracked_landmarks_close s)
     (_total_number_of_tracked_points s) (_total_number_of_landmarks_close s)
     (_total_number_of_landmarks_far s) (_motion_previous_to_current_robot s)
     (_pixel_distance_tracking_threshold s) (_lost_points s)
     (_projected_image_coordinates_left s) (_has_odometry s) (_odometry s)
     (_previous_odometry s) (_intensity_image_left s) (_context s)
     (_framepoint_generator s) (_pose_optimizer s) v (next_framepoint s).

Definition set_next_framepoint (v : nat) (s : t) : t :=
  mk (_status s) (_status_previous s) (_number_of_tracked_points s)
     (_number_of_potential_points s) (_number_of_lost_points s)
     (_number_of_lost_points_recovered s)
     (_number_of_tracked_landmarks_far s)
     (_number_of_tracked_landmarks_close s)
     (_total_number_of_tracked_points s) (_total_number_of_landmarks_close s)
     (_total_number_of_landmarks_far s) (_motion_previous_to_current_robot s)
     (_pixel_distance_tracking_threshold s) (_lost_points s)
     (_projected_image_coordinates_left s) (_has_odometry s) (_odometry s)
     (_previous_odometry s) (_intensity_image_left s) (_context s)
     (_framepoint_generator s) (_pose_optimizer s) (framepoints s) v.

End BaseTracker.

(** ** Constants and collaborators outside [base_tracker.cpp]

    The values of the tracker's constants ([base_tracker.h]), the camera,
    the frame and the generator, and the collaborators whose code is
    elsewhere: the pose optimizer's [converge()], OpenCV's [cv::Rodrigues]
    and [cv::norm], Eigen's [norm()], [Landmark::update] and the stereo
    rematch of the lost-point recovery. *)
Record Environment : Type := {
  _minimum_number_of_landmarks_to_track : N;
  _pixel_distance_tracking_threshold_maximum : Z;
  _pixel_distance_tracking_threshold_minimum : Z;
  _range_point_tracking : Z;
  _maximum_flow_pixels_squared : Z;
  _camera_rows : N;
  _camera_cols : N;
  cameraMatrix : Matrix3;
  robotToCamera : TransformMatrix3D;
  numberOfRowsImage : nat;
  numberOfColsImage : nat;
  matchingDistanceTrackingThreshold : real;
  DESCRIPTOR_NORM : Descriptor -> Descriptor -> real;
  minimumTrackLengthForLandmarkCreation : N;
  (** [init(frame, pose); converge()] on the tracker's state, for the frame
      at the given address: the optimizer after convergence *)
  converge : BaseTracker.t -> nat -> PoseOptimizer.t;
  (** [WorldMap::toOrientationRodrigues(m).norm()] *)
  toOrientationRodrigues_norm : Matrix3 -> real;
  norm : Vector3 -> real;
  (** the landmark [createLandmark] builds for a framepoint *)
  new_Landmark : FramePoint.t -> Landmark.t;
  landmark_update : Landmark.t -> FramePoint.t -> Landmark.t;
  (** the stereo rematch around the reprojection of a lost point *)
  rematch : BaseTracker.t -> FramePoint.t -> option StereoCandidate
}.

(** ** Loops and stores *)

(** A [for] loop whose body may fail. *)
Fixpoint for_each {A B : Type} (body : B -> A -> option B) (l : list A) (b : B)
  : option B :=
  match l with
  | [] => Some b
  | x :: l' => b' ← body b x; for_each body l' b'
  end.

(** The cell [grid[row][col]]; reading outside the array is undefined. *)
Definition cell (grid : FramePointMatrix) (row col : Z) : option Ptr :=
  if ((0 <=? row) && (0 <=? col))%Z
  then r ← grid !! Z.to_nat row; r !! Z.to_nat col
  else None.

(** [grid[row][col] = p] *)
Definition set_cell (grid : FramePointMatrix) (row col : Z) (p : Ptr)
  : option FramePointMatrix :=
  if ((0 <=? row) && (0 <=? col))%Z
  then r ← grid !! Z.to_nat row;
       r' ← vec_set (Z.to_nat col) p r;
       vec_set (Z.to_nat row) r' grid
  else None.

Module Import Store.

Import BaseTracker.

Definition grid (s : BaseTracker.t) : FramePointMatrix :=
  FramePointGenerator.framepointsInImage (_framepoint_generator s).

Definition set_grid (g : FramePointMatrix) (s : BaseTracker.t) : BaseTracker.t :=
  set_framepoint_generator
    (FramePointGenerator.set_framepointsInImage g (_framepoint_generator s)) s.

(** [*p] for a [Frame*], a [FramePoint*] and a [Landmark*] *)
Definition frame (s : BaseTracker.t) (p : Ptr) : option Frame.t :=
  a ← p; WorldMap.frames (_context s) !! a.

Definition framepoint (s : BaseTracker.t) (p : Ptr) : option FramePoint.t :=
  a ← p; framepoints s !! a.

Definition landmark (s : BaseTracker.t) (p : Ptr) : option Landmark.t :=
  a ← p; WorldMap.landmarks (_context s) !! a.

Definition store_frame (a : nat) (f : Frame.t) (s : BaseTracker.t) : BaseTracker.t :=
  set_context (WorldMap.set_frames (<[a := f]> (WorldMap.frames (_context s)))
                                   (_context s)) s.

Definition store_framepoint (a : nat) (p : FramePoint.t) (s : BaseTracker.t)
  : BaseTracker.t :=
  set_framepoints (<[a := p]> (framepoints s)) s.

Definition store_landmark (a : nat) (l : Landmark.t) (s : BaseTracker.t)
  : BaseTracker.t :=
  set_context (WorldMap.set_landmarks
                 (<[a := l]> (WorldMap.landmarks (_context s))) (_context s)) s.

(** [frame->points() = v] for the frame at address [a] *)
Definition store_points (a : nat) (v : list Ptr) (s : BaseTracker.t)
  : option BaseTracker.t :=
  f ← WorldMap.frames (_context s) !! a;
  Some (store_frame a (Frame.set_points v f) s).

Definition context_setRobotToWorld (r : TransformMatrix3D) (s : BaseTracker.t)
  : BaseTracker.t :=
  set_context (WorldMap.set_robotToWorld r (_context s)) s.

End Store.

Import BaseTracker.

(** ** The collaborators, from their contracts *)

(** Modelled from the spec: [FramePoint]'s constructor is not part of the
    sources at hand.  A framepoint created by the generator has no
    predecessor, track length 1, no landmark, and world coordinates derived
    from the pose of its frame. *)
Definition new_FramePoint (robot_to_world : TransformMatrix3D) (c : StereoCandidate)
  : FramePoint.t :=
  FramePoint.mk (cand_imageCoordinatesLeft c) (cand_descriptorLeft c)
                (cand_robotCoordinates c)
                (Eigen.apply robot_to_world (cand_robotCoordinates c))
                (cand_isNear c) None 1%N None.

(** The free store: the framepoints and the next address. *)
Abbreviation Memory := (gmap nat FramePoint.t * nat)%type.

Definition allocate (robot_to_world : TransformMatrix3D)
    (c : option StereoCandidate) (m : Memory) : Ptr * Memory :=
  match c with
  | None => (None, m)
  | Some c => (Some m.2, (<[m.2 := new_FramePoint robot_to_world c]> m.1, S m.2))
  end.

Fixpoint populate_row (robot_to_world : TransformMatrix3D)
    (image_row : nat -> option StereoCandidate) (cols : list nat) (m : Memory)
  : list Ptr * Memory :=
  match cols with
  | [] => ([], m)
  | col :: cols' =>
      let '(p, m1) := allocate robot_to_world (image_row col) m in
      let '(ps, m2) := populate_row robot_to_world image_row cols' m1 in
      (p :: ps, m2)
  end.

Fixpoint populate (robot_to_world : TransformMatrix3D) (image : Image)
    (rows cols : list nat) (m : Memory) : FramePointMatrix * Memory :=
  match rows with
  | [] => ([], m)
  | row :: rows' =>
      let '(r, m1) := populate_row robot_to_world (image row) cols m in
      let '(rs, m2) := populate robot_to_world image rows' cols m1 in
      (r :: rs, m2)
  end.

(** The non-empty cells of the grid *)
Definition occupied (g : FramePointMatrix) : list nat :=
  omap id (concat g).

Section Tracker.

Variable env : Environment.

(** Modelled from the spec: [FramepointGenerator::compute] is not part of
    the sources at hand.  It fills the grid of [numberOfRowsImage] by
    [numberOfColsImage] cells with the stereo candidates of the frame's
    images, one new framepoint per detected candidate, and counts them. *)
Definition generator_compute (current_frame : nat) (s : BaseTracker.t)
  : option BaseTracker.t :=
  f ← WorldMap.frames (_context s) !! current_frame;
  let '(g, m) := populate (Frame.robotToWorld f) (_intensity_image_left s)
                          (seq 0 (numberOfRowsImage env))
                          (seq 0 (numberOfColsImage env))
                          (framepoints s, next_framepoint s) in
  Some (set_framepoint_generator
          (FramePointGenerator.mk g (N.of_nat (length (occupied g))))
          (set_next_framepoint m.2 (set_framepoints m.1 s))).

(** Modelled from the spec: [clearFramepointsInImage] is not part of the
    sources at hand; it "empties the grid". *)
Definition clearFramepointsInImage (s : BaseTracker.t) : BaseTracker.t :=
  set_grid (map (map (fun _ => None)) (grid s)) s.

(** Modelled from the spec: [_makeFrame] and [WorldMap::createFrame] are
    not part of the sources at hand.  The new frame has the world map's
    pose, no framepoints yet, and the frame that was current as its
    [previous]; it becomes the current frame. *)
Definition _makeFrame (s : BaseTracker.t) : nat * BaseTracker.t :=
  let c := _context s in
  let a := WorldMap.next_frame c in
  let f := Frame.mk [] (WorldMap.robotToWorld c) (WorldMap.currentFrame c)
                    Localizing in
  (a, set_context
        (WorldMap.set_currentFrame (Some a)
           (WorldMap.set_next_frame (S a)
              (WorldMap.set_frames (<[a := f]> (WorldMap.frames c)) c))) s).

(** [init(frame, robot_to_world); setWeightFramepoint(w); converge()] *)
Definition optimize (current_frame : nat) (w : real) (s : BaseTracker.t)
  : BaseTracker.t :=
  let s1 := set_pose_optimizer
              (PoseOptimizer.set_weightFramepoint w (_pose_optimizer s)) s in
  set_pose_optimizer
    (PoseOptimizer.set_weightFramepoint w (converge env s1 current_frame)) s1.

(** Modelled from the spec: [Frame::countPoints] is not part of the
    sources at hand: "the count of framepoints with
    [track_length >= min_track_length]". *)
Definition countPoints (s : BaseTracker.t) (f : Frame.t) (min_track_length : N)
  : option N :=
  for_each (fun n p =>
              fp ← framepoint s p;
              Some (if (FramePoint.trackLength fp <? min_track_length)%N
                    then n else (n + 1)%N))
           (Frame.points f) 0%N.

(** [point->setWorldCoordinates(frame_to_world * point->robotCoordinates())] *)
Definition refresh_world_coordinates (frame_to_world : TransformMatrix3D)
    (s : BaseTracker.t) (p : Ptr) : option BaseTracker.t :=
  a ← p;
  fp ← framepoints s !! a;
  Some (store_framepoint a
          (FramePoint.setWorldCoordinates
             (Eigen.apply frame_to_world (FramePoint.robotCoordinates fp)) fp) s).

(** Modelled from the spec: [Frame::updatePoints] is not part of the
    sources at hand; the framepoints' derived data (their world
    coordinates) are recomputed from the frame's pose. *)
Definition updatePoints (current_frame : nat) (s : BaseTracker.t)
  : option BaseTracker.t :=
  f ← WorldMap.frames (_context s) !! current_frame;
  for_each (refresh_world_coordinates (Frame.robotToWorld f)) (Frame.points f) s.

(** Modelled from the spec: [Frame::releasePoints] is not part of the
    sources at hand; the frame's framepoints are deleted and its vector is
    emptied. *)
Definition releasePoints (current_frame : nat) (s : BaseTracker.t)
  : option BaseTracker.t :=
  f ← WorldMap.frames (_context s) !! current_frame;
  let s1 := set_framepoints
              (foldr (fun p m => match p with Some a => delete a m | None => m end)
                     (framepoints s) (Frame.points f)) s in
  Some (store_frame current_frame (Frame.set_points [] f) s1).

(** ** [_getImageCoordinates] *)

(** The projection of a framepoint of the previous frame on the current
    image plane: lines 473-491. *)
Definition point_in_image_left (s : BaseTracker.t)
    (world_to_camera : TransformMatrix3D) (previous_frame_point : FramePoint.t)
  : option Vector3 :=
  point_in_camera ←
    match FramePoint.landmark previous_frame_point with
    | Some l =>
        lm ← WorldMap.landmarks (_context s) !! l;
        Some (if Landmark.areCoordinatesValidated lm
              then Eigen.apply world_to_camera (Landmark.coordinates lm)
              else Eigen.apply world_to_camera
                     (FramePoint.worldCoordinates previous_frame_point))
    | None =>
        Some (Eigen.apply world_to_camera
                (FramePoint.worldCoordinates previous_frame_point))
    end;
  let point_in_image_left := Eigen.mat_vec (cameraMatrix env) point_in_camera in
  Some (Eigen.vdiv point_in_image_left (vz point_in_image_left)).

(** The test of lines 494-495 *)
Definition out_of_FOV (p : Vector3) : bool :=
  Real.ltb (vx p) (Fin 0) || Real.ltb (Real.of_N (_camera_cols env)) (vx p) ||
  Real.ltb (vy p) (Fin 0) || Real.ltb (Real.of_N (_camera_rows env)) (vy p).

(** The state of the loop: the two vectors written in place and
    [number_of_visible_points]. *)
Abbreviation Visible := (list Vector3 * list Ptr * nat)%type.

Definition _getImageCoordinates_body (s : BaseTracker.t)
    (world_to_camera : TransformMatrix3D) (st : Visible) (i : nat)
  : option Visible :=
  let '(projected, points, number_of_visible_points) := st in
  p ← points !! i;
  previous_frame_point ← framepoint s p;
  q ← point_in_image_left s world_to_camera previous_frame_point;
  if out_of_FOV q then Some st
  else
    projected' ← vec_set number_of_visible_points q projected;
    points' ← vec_set number_of_visible_points p points;
    Some (projected', points', S number_of_visible_points).

Definition _getImageCoordinates (previous_frame_ current_frame_ : nat)
    (s : BaseTracker.t) : option BaseTracker.t :=
  pf ← WorldMap.frames (_context s) !! previous_frame_;
  cf ← WorldMap.frames (_context s) !! current_frame_;
  let n := length (Frame.points pf) in
  let projected := resize n Eigen.zero3 (_projected_image_coordinates_left s) in
  let world_to_camera := Eigen.compose (robotToCamera env) (Frame.worldToRobot cf) in
  '(projected', points', number_of_visible_points) ←
    for_each (_getImageCoordinates_body s world_to_camera) (seq 0 n)
             (projected, Frame.points pf, 0);
  Some (set_projected_image_coordinates_left
          (resize number_of_visible_points Eigen.zero3 projected')
          (store_frame previous_frame_
             (Frame.set_points (resize number_of_visible_points None points') pf)
             s)).

(** ** [_trackFramepoints] *)

(** [pixel_distance_best], [row_best], [col_best] *)
Record Best : Type := mkBest {
  pixel_distance_best : Z;
  row_best : Z;
  col_best : Z
}.

(** [int32_t] arithmetic: the value of an expression if it is in the range
    of [int32_t].  A signed overflow, and the conversion of a [double] that
    is out of that range, have no defined behaviour. *)
Definition int32 (z : Z) : option Z :=
  if decide (- 2 ^ 31 <= z < 2 ^ 31)%Z then Some z else None.

(** The body of the two nested search loops, lines 297-308 and 354-373.
    [evaluated row col] is the test of the second stage for a cell of the
    first stage's square; the first stage has none. *)
Definition match_cell (s : BaseTracker.t) (previous_point : FramePoint.t)
    (row_projection col_projection : Z) (evaluated : Z -> Z -> bool)
    (row : Z) (b : Best) (col : Z) : option Best :=
  p ← cell (grid s) row col;
  match p with
  | None => Some b
  | Some a =>
      if evaluated row col then Some b
      else
        row_distance ← int32 (row_projection - row);
        col_distance ← int32 (col_projection - col);
        pixel_distance ← int32 (Z.abs row_distance + Z.abs col_distance);
        candidate ← framepoints s !! a;
        let matching_distance :=
          DESCRIPTOR_NORM env (FramePoint.descriptorLeft previous_point)
                          (FramePoint.descriptorLeft candidate) in
        if (pixel_distance <? pixel_distance_best b)%Z &&
           Real.ltb matching_distance (matchingDistanceTrackingThreshold env)
        then Some (mkBest pixel_distance row col)
        else Some b
  end.

(** "locate best match": rows [row_start .. row_end - 1], and in each row
    the columns [col_start .. col_end - 1]. *)
Definition locate_best_match (s : BaseTracker.t) (previous_point : FramePoint.t)
    (row_projection col_projection : Z) (evaluated : Z -> Z -> bool)
    (row_start row_end col_start col_end : Z) (b : Best) : option Best :=
  for_each
    (fun b row =>
       for_each (match_cell s previous_point row_projection col_projection
                            evaluated row)
                (seqZ col_start (col_end - col_start)) b)
    (seqZ row_start (row_end - row_start)) b.

(** The squared flow of lines 316 and 381, in [int32_t] *)
Definition flow_squared (row_previous col_previous : Z) (b : Best) : option Z :=
  row_flow ← int32 (row_best b - row_previous);
  col_flow ← int32 (col_best b - col_previous);
  row_flow_squared ← int32 (row_flow * row_flow);
  col_flow_squared ← int32 (col_flow * col_flow);
  int32 (row_flow_squared + col_flow_squared).

(** "if we found a match" and "check if track is consistent", lines
    313-316 and 378-381; the flow is computed only for a match. *)
Definition found_consistent_match (threshold row_previous col_previous : Z)
    (b : Best) : option bool :=
  if (pixel_distance_best b <? threshold)%Z
  then
    flow ← flow_squared row_previous col_previous b;
    Some (flow <? _maximum_flow_pixels_squared env)%Z
  else Some false.

(** The borders of a search square of the given range around the
    projection *)
Definition row_start (row_projection range : Z) : Z :=
  Z.max (row_projection - range) 0.
Definition row_end (row_projection range : Z) : Z :=
  Z.min (row_projection + range) (Z.of_nat (numberOfRowsImage env)).
Definition col_start (col_projection range : Z) : Z :=
  Z.max (col_projection - range) 0.
Definition col_end (col_projection range : Z) : Z :=
  Z.min (col_projection + range) (Z.of_nat (numberOfColsImage env)).

(** [projection - range] and [projection + range], lines 288-291 and
    346-349, are [int32_t] expressions. *)
Definition borders (row_projection col_projection range : Z) : option unit :=
  _ ← int32 (row_projection - range);
  _ ← int32 (row_projection + range);
  _ ← int32 (col_projection - range);
  _ ← int32 (col_projection + range);
  Some tt.

(** The condition of lines 357-360, negated: the cell lies in the square
    of the first stage. *)
Definition evaluated_in_stage_1 (row_projection col_projection : Z)
    (row col : Z) : bool :=
  negb ((row <? row_start row_projection (_range_point_tracking env)) ||
        (row >=? row_end row_projection (_range_point_tracking env)) ||
        (col <? col_start col_projection (_range_point_tracking env)) ||
        (col >=? col_end col_projection (_range_point_tracking env)))%Z.

(** The outcome of the search for one point of the previous frame: the
    stage that commits and the cell it commits. *)
Inductive Association : Type :=
| Stage1 (b : Best)
| Stage2 (b : Best)
| NoMatch.

Definition stage_1 (s : BaseTracker.t) (previous_point : FramePoint.t)
    (row_projection col_projection : Z) : option Best :=
  let range := _range_point_tracking env in
  _ ← borders row_projection col_projection range;
  locate_best_match s previous_point row_projection col_projection
    (fun _ _ => false)
    (row_start row_projection range) (row_end row_projection range)
    (col_start col_projection range) (col_end col_projection range)
    (mkBest (_pixel_distance_tracking_threshold s) (-1) (-1)).

(** The second stage starts from the first stage's [row_best] and
    [col_best] with [pixel_distance_best] reset, line 343. *)
Definition stage_2 (s : BaseTracker.t) (previous_point : FramePoint.t)
    (row_projection col_projection : Z) (b1 : Best) : option Best :=
  let range := _pixel_distance_tracking_threshold s in
  _ ← borders row_projection col_projection range;
  locate_best_match s previous_point row_projection col_projection
    (evaluated_in_stage_1 row_projection col_projection)
    (row_start row_projection range) (row_end row_projection range)
    (col_start col_projection range) (col_end col_projection range)
    (mkBest (_pixel_distance_tracking_threshold s) (row_best b1) (col_best b1)).

Definition associate (s : BaseTracker.t) (previous_point : FramePoint.t)
    (projection_left : Vector3) : option Association :=
  row_projection ← Real.round_int32 (vy projection_left);
  col_projection ← Real.round_int32 (vx projection_left);
  row_previous ←
    Real.round_int32 (vy (FramePoint.imageCoordinatesLeft previous_point));
  col_previous ←
    Real.round_int32 (vx (FramePoint.imageCoordinatesLeft previous_point));
  let threshold := _pixel_distance_tracking_threshold s in
  b1 ← stage_1 s previous_point row_projection col_projection;
  match_1 ← found_consistent_match threshold row_previous col_previous b1;
  if match_1 : bool
  then Some (Stage1 b1)
  else
    b2 ← stage_2 s previous_point row_projection col_projection b1;
    match_2 ← found_consistent_match threshold row_previous col_previous b2;
    Some (if match_2 : bool then Stage2 b2 else NoMatch).

(** Lines 318-338 and 383-403: the framepoint of the best cell is linked
    to the previous point, put in the current frame's vector and taken
    from the grid. *)
Definition commit (current_frame_ : nat) (pp : Ptr) (previous_point : FramePoint.t)
    (b : Best) (s : BaseTracker.t) : option BaseTracker.t :=
  p ← cell (grid s) (row_best b) (col_best b);
  a ← p;
  fp ← framepoints s !! a;
  let current_point := FramePoint.setPrevious pp previous_point fp in
  let s := store_framepoint a current_point s in
  cf ← WorldMap.frames (_context s) !! current_frame_;
  points ← vec_set (N.to_nat (_number_of_tracked_points s)) (Some a)
                   (Frame.points cf);
  let s := store_frame current_frame_ (Frame.set_points points cf) s in
  let s :=
    match FramePoint.landmark current_point with
    | Some _ =>
        if FramePoint.isNear current_point
        then set_number_of_tracked_landmarks_close
               (_number_of_tracked_landmarks_close s + 1)%N s
        else set_number_of_tracked_landmarks_far
               (_number_of_tracked_landmarks_far s + 1)%N s
    | None => s
    end in
  let s := set_number_of_tracked_points (_number_of_tracked_points s + 1)%N s in
  g ← set_cell (grid s) (row_best b) (col_best b) None;
  Some (set_grid g s).

(** Lines 407-411 *)
Definition no_match_found (pp : Ptr) (previous_point : FramePoint.t)
    (s : BaseTracker.t) : option BaseTracker.t :=
  match FramePoint.landmark previous_point with
  | Some _ =>
      lost ← vec_set (N.to_nat (_number_of_lost_points s)) pp (_lost_points s);
      Some (set_number_of_lost_points (_number_of_lost_points s + 1)%N
              (set_lost_points lost s))
  | None => Some s
  end.

(** The body of the loop over the points of the previous frame *)
Definition _trackFramepoints_body (previous_frame_ current_frame_ : nat)
    (s : BaseTracker.t) (index_point_previous : nat) : option BaseTracker.t :=
  pf ← WorldMap.frames (_context s) !! previous_frame_;
  pp ← Frame.points pf !! index_point_previous;
  previous_point ← framepoint s pp;
  projection_left ← _projected_image_coordinates_left s !! index_point_previous;
  r ← associate s previous_point projection_left;
  match r with
  | Stage1 b | Stage2 b => commit current_frame_ pp previous_point b s
  | NoMatch => no_match_found pp previous_point s
  end.

Definition _trackFramepoints (previous_frame_ current_frame_ : nat)
    (s : BaseTracker.t) : option BaseTracker.t :=
  cf ← WorldMap.frames (_context s) !! current_frame_;
  let s := store_frame current_frame_
             (Frame.set_points
                (resize (N.to_nat (_number_of_potential_points s)) None
                        (Frame.points cf)) cf) s in
  let s := set_number_of_tracked_points 0 s in
  let s := set_number_of_tracked_landmarks_close 0 s in
  let s := set_number_of_tracked_landmarks_far 0 s in
  let s := set_number_of_lost_points 0 s in
  s ← _getImageCoordinates previous_frame_ current_frame_ s;
  pf ← WorldMap.frames (_context s) !! previous_frame_;
  let s := set_lost_points
             (resize (length (Frame.points pf)) None (_lost_points s)) s in
  let s := set_pixel_distance_tracking_threshold
             (if decide (_status_previous s = Localizing)
              then _pixel_distance_tracking_threshold_maximum env
              else _pixel_distance_tracking_threshold_minimum env) s in
  s ← for_each (_trackFramepoints_body previous_frame_ current_frame_)
               (seq 0 (length (Frame.points pf))) s;
  cf ← WorldMap.frames (_context s) !! current_frame_;
  let s := store_frame current_frame_
             (Frame.set_points
                (resize (N.to_nat (_number_of_tracked_points s)) None
                        (Frame.points cf)) cf) s in
  let s := set_lost_points
             (resize (N.to_nat (_number_of_lost_points s)) None (_lost_points s))
             s in
  let s := set_total_number_of_landmarks_close
             (_total_number_of_landmarks_close s
              + _number_of_tracked_landmarks_close s)%N s in
  Some (set_total_number_of_landmarks_far
          (_total_number_of_landmarks_far s
           + _number_of_tracked_landmarks_far s)%N s).

(** ** [_pruneFramepoints] *)

(** The state of the loop: the frame's vector, written in place, and
    [_number_of_tracked_points]. *)
Definition _pruneFramepoints_body (s : BaseTracker.t)
    (st : list Ptr * nat) (index_point : nat) : option (list Ptr * nat) :=
  let '(points, number_of_tracked_points) := st in
  p ← points !! index_point;
  fp ← framepoint s p;
  match FramePoint.landmark fp with
  | None =>
      points' ← vec_set number_of_tracked_points p points;
      Some (points', S number_of_tracked_points)
  | Some _ =>
      e ← PoseOptimizer.errors (_pose_optimizer s) !! index_point;
      keep ← (if Real.eqb e (Fin (-1)) then Some true
              else PoseOptimizer.inliers (_pose_optimizer s) !! index_point);
      if keep : bool then
        points' ← vec_set number_of_tracked_points p points;
        Some (points', S number_of_tracked_points)
      else Some st
  end.

Definition _pruneFramepoints (frame_ : nat) (s : BaseTracker.t)
  : option BaseTracker.t :=
  f ← WorldMap.frames (_context s) !! frame_;
  '(points, number_of_tracked_points) ←
    for_each (_pruneFramepoints_body s) (seq 0 (length (Frame.points f)))
             (Frame.points f, 0);
  Some (set_number_of_tracked_points (N.of_nat number_of_tracked_points)
          (store_frame frame_
             (Frame.set_points (resize number_of_tracked_points None points) f)
             s)).

(** ** [_updateLandmarks] *)

(** Modelled from the spec: [WorldMap::createLandmark] is not part of the
    sources at hand; a landmark is created "through the world map", which
    owns it. *)
Definition createLandmark (point : FramePoint.t) (s : BaseTracker.t)
  : nat * BaseTracker.t :=
  let c := _context s in
  let a := WorldMap.next_landmark c in
  (a, set_context
        (WorldMap.set_next_landmark (S a)
           (WorldMap.set_landmarks
              (<[a := new_Landmark env point]> (WorldMap.landmarks c)) c)) s).

Definition _updateLandmarks_body (frame_to_world : TransformMatrix3D)
    (s : BaseTracker.t) (p : Ptr) : option BaseTracker.t :=
  a ← p;
  point ← framepoints s !! a;
  let point :=
    FramePoint.setWorldCoordinates
      (Eigen.apply frame_to_world (FramePoint.robotCoordinates point)) point in
  let s := store_framepoint a point s in
  if (FramePoint.trackLength point <? minimumTrackLengthForLandmarkCreation env)%N
  then Some s
  else
    let '(l, point, s) :=
      match FramePoint.landmark point with
      | Some l => (l, point, s)
      | None =>
          let '(l, s) := createLandmark point s in
          let point := FramePoint.setLandmark (Some l) point in
          (l, point, store_framepoint a point s)
      end in
    lm ← WorldMap.landmarks (_context s) !! l;
    let lm := Landmark.setIsNear (FramePoint.isNear point) lm in
    let lm := landmark_update env lm point in
    let lm := Landmark.setIsCurrentlyTracked true lm in
    let s := store_landmark l lm s in
    Some (set_context
            (WorldMap.set_currentlyTrackedLandmarks
               (WorldMap.currentlyTrackedLandmarks (_context s) ++ [Some l])
               (_context s)) s).

Definition _updateLandmarks (frame_ : nat) (s : BaseTracker.t)
  : option BaseTracker.t :=
  f ← WorldMap.frames (_context s) !! frame_;
  for_each (_updateLandmarks_body (Frame.robotToWorld f)) (Frame.points f) s.

(** ** [_addNewFramepoints] *)

(** The body of the inner loop, lines 438-449, on the tracker and
    [index_point_new] *)
Definition _addNewFramepoints_body (frame_ : nat)
    (frame_to_world : TransformMatrix3D) (row : nat)
    (st : BaseTracker.t * nat) (col : nat) : option (BaseTracker.t * nat) :=
  let '(s, index_point_new) := st in
  p ← cell (grid s) (Z.of_nat row) (Z.of_nat col);
  match p with
  | None => Some st
  | Some a =>
      f ← WorldMap.frames (_context s) !! frame_;
      points ← vec_set index_point_new (Some a) (Frame.points f);
      let s := store_frame frame_ (Frame.set_points points f) s in
      s ← refresh_world_coordinates frame_to_world s (Some a);
      g ← set_cell (grid s) (Z.of_nat row) (Z.of_nat col) None;
      Some (set_grid g s, S index_point_new)
  end.

Definition _addNewFramepoints (frame_ : nat) (s : BaseTracker.t)
  : option BaseTracker.t :=
  f ← WorldMap.frames (_context s) !! frame_;
  let s := store_frame frame_
             (Frame.set_points
                (resize (N.to_nat (_number_of_potential_points s
                                   + _number_of_lost_points_recovered s))
                        None (Frame.points f)) f) s in
  let frame_to_world := Frame.robotToWorld f in
  '(s, index_point_new) ←
    for_each
      (fun st row =>
         for_each (_addNewFramepoints_body frame_ frame_to_world row)
                  (seq 0 (numberOfColsImage env)) st)
      (seq 0 (numberOfRowsImage env))
      (s, N.to_nat (_number_of_tracked_points s));
  f ← WorldMap.frames (_context s) !! frame_;
  Some (store_frame frame_
          (Frame.set_points (resize index_point_new None (Frame.points f)) f) s).

(** ** [_recoverPoints] *)

Definition _recoverPoints_body (current_frame_ : nat)
    (st : BaseTracker.t * nat) (pp : Ptr) : option (BaseTracker.t * nat) :=
  let '(s, index_lost_point_recovered) := st in
  point_previous ← framepoint s pp;
  match rematch env s point_previous with
  | None => Some st
  | Some c =>
      f ← WorldMap.frames (_context s) !! current_frame_;
      let a := next_framepoint s in
      let current_point :=
        FramePoint.setPrevious pp point_previous
          (new_FramePoint (Frame.robotToWorld f) c) in
      let s := set_next_framepoint (S a) (store_framepoint a current_point s) in
      points ← vec_set index_lost_point_recovered (Some a) (Frame.points f);
      Some (store_frame current_frame_ (Frame.set_points points f) s,
            S index_lost_point_recovered)
  end.

(** Modelled from the spec: [_recoverPoints] is declared by the tracker
    and implemented elsewhere.  Every lost point (a point of the previous
    frame with a landmark that found no match) for which the stereo rematch
    around its reprojection succeeds gives a new framepoint of the current
    frame, linked to the lost point and so keeping its landmark; the
    recovered points are counted and count as tracked. *)
Definition _recoverPoints (current_frame_ : nat) (s : BaseTracker.t)
  : option BaseTracker.t :=
  f ← WorldMap.frames (_context s) !! current_frame_;
  let tracked := N.to_nat (_number_of_tracked_points s) in
  let s := store_frame current_frame_
             (Frame.set_points
                (resize (tracked + N.to_nat (_number_of_lost_points s)) None
                        (Frame.points f)) f) s in
  '(s, index_lost_point_recovered) ←
    for_each (_recoverPoints_body current_frame_) (_lost_points s) (s, tracked);
  f ← WorldMap.frames (_context s) !! current_frame_;
  let s := set_number_of_lost_points_recovered
             (N.of_nat (index_lost_point_recovered - tracked)) s in
  let s := set_number_of_tracked_points (N.of_nat index_lost_point_recovered) s in
  Some (store_frame current_frame_
          (Frame.set_points
             (resize index_lost_point_recovered None (Frame.points f)) f) s).

(** ** [compute] *)

(** Lines 51-54 *)
Definition reset_currently_tracked (s : BaseTracker.t) : option BaseTracker.t :=
  s ← for_each
        (fun s p =>
           a ← p;
           lm ← WorldMap.landmarks (_context s) !! a;
           Some (store_landmark a (Landmark.setIsCurrentlyTracked false lm) s))
        (WorldMap.currentlyTrackedLandmarks (_context s)) s;
  Some (set_context (WorldMap.set_currentlyTrackedLandmarks [] (_context s)) s).

(** Lines 57-64 *)
Definition odometry_prior (s : BaseTracker.t) : BaseTracker.t :=
  if _has_odometry s then
    let s := match WorldMap.currentFrame (_context s) with
             | None => set_previous_odometry (_odometry s) s
             | Some _ => s
             end in
    let odom_delta :=
      Eigen.compose (Eigen.inverse (_previous_odometry s)) (_odometry s) in
    let s := set_motion_previous_to_current_robot odom_delta s in
    set_previous_odometry (_odometry s) s
  else s.

(** Lines 67-69 *)
Definition motion_model (s : BaseTracker.t) : BaseTracker.t :=
  match WorldMap.currentFrame (_context s) with
  | Some _ =>
      context_setRobotToWorld
        (Eigen.compose (WorldMap.robotToWorld (_context s))
                       (_motion_previous_to_current_robot s)) s
  | None => s
  end.

(** The literals [0.001] and [0.01] of lines 111 and 187 are [double]s: the
    comparisons are exact, and the thresholds are the values of the
    [double]s nearest to one thousandth and to one hundredth (both a little
    above). *)
Definition threshold_angular : Q :=
  1152921504606847 # 1152921504606846976.

Definition threshold_translational : Q :=
  5764607523034235 # 576460752303423488.

(** [delta_angular > 0.001 || delta_translational > 0.01], lines 111 and
    187 *)
Definition significant (delta_angular delta_translational : real) : bool :=
  Real.ltb (Fin threshold_angular) delta_angular ||
  Real.ltb (Fin threshold_translational) delta_translational.

Definition delta_angular (s : BaseTracker.t) : real :=
  toOrientationRodrigues_norm env (linear (_motion_previous_to_current_robot s)).

Definition delta_translational (s : BaseTracker.t) : real :=
  norm env (translation (_motion_previous_to_current_robot s)).

(** [frame->setRobotToWorld(r)] for the frame at address [a] *)
Definition frame_setRobotToWorld (a : nat) (r : TransformMatrix3D)
    (s : BaseTracker.t) : option BaseTracker.t :=
  f ← WorldMap.frames (_context s) !! a;
  Some (store_frame a (Frame.setRobotToWorld r f) s).

Definition frame_setStatus (a : nat) (st : Status) (s : BaseTracker.t)
  : option BaseTracker.t :=
  f ← WorldMap.frames (_context s) !! a;
  Some (store_frame a (Frame.setStatus st f) s).

(** Lines 111-122 and 187-196: the optimizer's pose is taken if the motion
    is significant, else the previous frame's pose is kept. *)
Definition accept_or_keep (current_frame : nat) (previous_frame : Frame.t)
    (s : BaseTracker.t) : option BaseTracker.t :=
  if significant (delta_angular s) (delta_translational s)
  then frame_setRobotToWorld current_frame
         (PoseOptimizer.robotToWorld (_pose_optimizer s)) s
  else
    s ← frame_setRobotToWorld current_frame (Frame.robotToWorld previous_frame) s;
    Some (set_motion_previous_to_current_robot Eigen.Identity s).

(** [_motion_previous_to_current_robot =
     current_frame->previous()->worldToRobot() * _pose_optimizer->robotToWorld()] *)
Definition resulting_motion (previous_frame : Frame.t) (s : BaseTracker.t)
  : BaseTracker.t :=
  set_motion_previous_to_current_robot
    (Eigen.compose (Frame.worldToRobot previous_frame)
                   (PoseOptimizer.robotToWorld (_pose_optimizer s))) s.

(** [context->setRobotToWorld(current_frame->robotToWorld())] *)
Definition update_context_position (current_frame : nat) (s : BaseTracker.t)
  : option BaseTracker.t :=
  f ← WorldMap.frames (_context s) !! current_frame;
  Some (context_setRobotToWorld (Frame.robotToWorld f) s).

(** Lines 93-127 *)
Definition localizing_pose (current_frame : nat) (s : BaseTracker.t)
  : option BaseTracker.t :=
  cf ← WorldMap.frames (_context s) !! current_frame;
  match Frame.previous cf with
  | Some pa =>
      let s := optimize current_frame (Fin 1) s in
      if (2 * _minimum_number_of_landmarks_to_track env
          <? PoseOptimizer.numberOfInliers (_pose_optimizer s))%N
      then
        pf ← WorldMap.frames (_context s) !! pa;
        let s := resulting_motion pf s in
        s ← accept_or_keep current_frame pf s;
        update_context_position current_frame s
      else Some s
  | None => Some s
  end.

(** [case Frame::Localizing], lines 89-143 *)
Definition compute_Localizing (current_frame : nat) (s : BaseTracker.t)
  : option BaseTracker.t :=
  s ← localizing_pose current_frame s;
  cf ← WorldMap.frames (_context s) !! current_frame;
  number_of_good_points ←
    countPoints s cf (minimumTrackLengthForLandmarkCreation env);
  if (_minimum_number_of_landmarks_to_track env <? number_of_good_points)%N
  then
    s ← _updateLandmarks current_frame s;
    Some (set_status Tracking (set_status_previous (_status s) s))
  else updatePoints current_frame s.

(** Line 149 *)
Definition weight_framepoint (s : BaseTracker.t) : real :=
  Real.sub (Fin 1)
    (Real.div (Real.of_N (_number_of_tracked_landmarks_far s
                          + 7 * _number_of_tracked_landmarks_close s))
              (Real.of_N (_number_of_tracked_points s))).

(** Lines 170-183 *)
Definition lost_track (current_frame : nat) (previous_frame : Frame.t)
    (s : BaseTracker.t) : option BaseTracker.t :=
  let s := set_status_previous Localizing s in
  let s := set_status Localizing s in
  s ← frame_setStatus current_frame (_status s) s;
  s ← releasePoints current_frame s;
  let s := clearFramepointsInImage s in
  let s := set_context
             (WorldMap.set_currentlyTrackedLandmarks [] (_context s)) s in
  s ← frame_setRobotToWorld current_frame (Frame.robotToWorld previous_frame) s;
  let s := set_motion_previous_to_current_robot Eigen.Identity s in
  update_context_position current_frame s.

(** Lines 186-217 *)
Definition keep_track (current_frame : nat) (previous_frame : Frame.t)
    (s : BaseTracker.t) : option BaseTracker.t :=
  s ← accept_or_keep current_frame previous_frame s;
  s ← _pruneFramepoints current_frame s;
  s ← _recoverPoints current_frame s;
  s ← update_context_position current_frame s;
  s ← _updateLandmarks current_frame s;
  Some (set_status Tracking (set_status_previous (_status s) s)).

(** Lines 227-235 *)
Definition add_new_framepoints (current_frame : nat) (s : BaseTracker.t)
  : option BaseTracker.t :=
  s ← _addNewFramepoints current_frame s;
  s ← frame_setStatus current_frame (_status s) s;
  Some (set_total_number_of_tracked_points
          (_total_number_of_tracked_points s + _number_of_tracked_points s)%N s).

(** [case Frame::Tracking], lines 146-219, with what follows the [switch]
    when the track is kept *)
Definition compute_Tracking (current_frame : nat) (s : BaseTracker.t)
  : option BaseTracker.t :=
  let weight_framepoint := weight_framepoint s in
  let s := optimize current_frame
             (Real.std_max weight_framepoint (Fin (1 # 10))) s in
  cf ← WorldMap.frames (_context s) !! current_frame;
  pf ← frame s (Frame.previous cf);
  let s := resulting_motion pf s in
  if (PoseOptimizer.numberOfInliers (_pose_optimizer s)
      <? _minimum_number_of_landmarks_to_track env)%N
  then lost_track current_frame pf s
  else
    s ← keep_track current_frame pf s;
    add_new_framepoints current_frame s.

(** Lines 47-83: up to the [switch] *)
Definition compute_prior (s : BaseTracker.t) : option (nat * BaseTracker.t) :=
  let s := set_number_of_tracked_points 0 s in
  let s := set_number_of_lost_points 0 s in
  let s := set_number_of_lost_points_recovered 0 s in
  s ← reset_currently_tracked s;
  let s := odometry_prior s in
  let s := motion_model s in
  let '(current_frame, s) := _makeFrame s in
  s ← generator_compute current_frame s;
  let s := set_number_of_potential_points
             (FramePointGenerator.numberOfAvailablePoints
                (_framepoint_generator s)) s in
  cf ← WorldMap.frames (_context s) !! current_frame;
  s ← match Frame.previous cf with
      | Some pa => _trackFramepoints pa current_frame s
      | None => Some s
      end;
  Some (current_frame, s).

Definition compute (s : BaseTracker.t) : option BaseTracker.t :=
  '(current_frame, s) ← compute_prior s;
  match _status s with
  | Localizing =>
      s ← compute_Localizing current_frame s;
      add_new_framepoints current_frame s
  | Tracking => compute_Tracking current_frame s
  end.

End Tracker.

(** ** The specification's notions *)

(** The elements [x] of a vector, in order, whose index [i] and value
    satisfy [keep i x]; [i] is the index of the head of [l]. *)
Fixpoint select {A : Type} (keep : nat -> A -> bool) (i : nat) (l : list A)
  : list A :=
  match l with
  | [] => []
  | x :: l' =>
      if keep i x then x :: select keep (S i) l' else select keep (S i) l'
  end.

(** The retention rule of the pruning in the words of the specification: a
    framepoint is retained iff it has no landmark, or its optimizer error
    is the sentinel [-1], or its inlier flag is true. *)
Definition retained (s : BaseTracker.t) (index : nat) (p : Ptr) : bool :=
  match framepoint s p with
  | Some fp =>
      bool_decide (FramePoint.landmark fp = None)
      || from_option (fun e => Real.eqb e (Fin (-1))) false
           (PoseOptimizer.errors (_pose_optimizer s) !! index)
      || default false (PoseOptimizer.inliers (_pose_optimizer s) !! index)
  | None => false
  end.

(** The cost of a cell: its Manhattan pixel distance to the projection. *)
Definition pixel_distance (row_projection col_projection row col : Z) : Z :=
  (Z.abs (row_projection - row) + Z.abs (col_projection - col))%Z.

(** The cells of a search square in the order the two nested loops visit
    them: row by row, and in each row by increasing column. *)
Definition scan_order (row_start row_end col_start col_end : Z) : list (Z * Z) :=
  row ← seqZ row_start (row_end - row_start);
  col ← seqZ col_start (col_end - col_start);
  [(row, col)].

(** The candidate criterion: the cell is occupied and the descriptor of its
    framepoint is closer to the previous point's than the generator's
    matching threshold. *)
Definition candidate (env : Environment) (s : BaseTracker.t)
    (previous_point : FramePoint.t) (row col : Z) : Prop :=
  exists a fp,
    cell (grid s) row col = Some (Some a) /\
    framepoints s !! a = Some fp /\
    Real.ltb (DESCRIPTOR_NORM env (FramePoint.descriptorLeft previous_point)
                              (FramePoint.descriptorLeft fp))
             (matchingDistanceTrackingThreshold env) = true.

(** [b] is the outcome of a search over the cells [order], skipping the
    cells with [skip], that started from [b0]: either no admissible
    candidate costs less than [b0] and [b] is [b0], or [b] is the first cell
    in [order] among the admissible candidates of least cost, and costs
    less than [b0]. *)
Definition first_of_least_cost (env : Environment) (s : BaseTracker.t)
    (previous_point : FramePoint.t) (row_projection col_projection : Z)
    (skip : Z -> Z -> bool) (order : list (Z * Z)) (b0 b : Best) : Prop :=
  let admissible row col :=
    skip row col = false /\ candidate env s previous_point row col in
  let cost := pixel_distance row_projection col_projection in
  (b = b0 /\
   forall row col, (row, col) ∈ order -> admissible row col ->
                   (pixel_distance_best b0 <= cost row col)%Z)
  \/
  (exists before after,
     order = before ++ (row_best b, col_best b) :: after /\
     admissible (row_best b) (col_best b) /\
     pixel_distance_best b = cost (row_best b) (col_best b) /\
     (pixel_distance_best b < pixel_distance_best b0)%Z /\
     (forall row col, (row, col) ∈ before -> admissible row col ->
                      (pixel_distance_best b < cost row col)%Z) /\
     (forall row col, (row, col) ∈ after -> admissible row col ->
                      (pixel_distance_best b <= cost row col)%Z)).

(** The predicted image coordinates of a framepoint of the previous frame
    in the words of the specification: [world_to_camera] applied to the
    landmark's coordinates if the framepoint has a landmark with validated
    coordinates and to the framepoint's own world coordinates otherwise,
    then the camera matrix, then the division by [z]. *)
Definition predicted_image_coordinates (env : Environment) (s : BaseTracker.t)
    (world_to_camera : TransformMatrix3D) (p : FramePoint.t) : Vector3 :=
  let source :=
    match landmark s (FramePoint.landmark p) with
    | Some lm =>
        if Landmark.areCoordinatesValidated lm then Landmark.coordinates lm
        else FramePoint.worldCoordinates p
    | None => FramePoint.worldCoordinates p
    end in
  let q := Eigen.mat_vec (cameraMatrix env)
                         (Eigen.apply world_to_camera source) in
  Eigen.vdiv q (vz q).

(** The prediction for the framepoint a pointer points to *)
Definition prediction (env : Environment) (s : BaseTracker.t)
    (world_to_camera : TransformMatrix3D) (p : Ptr) : Vector3 :=
  from_option (predicted_image_coordinates env s world_to_camera) Eigen.zero3
              (framepoint s p).

(** The prediction is not outside the image bounds. *)
Definition projectable (env : Environment) (s : BaseTracker.t)
    (world_to_camera : TransformMatrix3D) (p : Ptr) : bool :=
  negb (out_of_FOV env (prediction env s world_to_camera p)).

(** The framepoint exists, and so does its landmark if it has one. *)
Definition valid_framepoint (s : BaseTracker.t) (p : Ptr) : Prop :=
  exists fp, framepoint s p = Some fp /\
             (FramePoint.landmark fp = None \/
              is_Some (landmark s (FramePoint.landmark fp))).

(** The poses and the back-links of the frames of the world map, and the
    shape of the grid: the length of each of its rows. *)
Definition poses (s : BaseTracker.t) : gmap nat TransformMatrix3D :=
  Frame.robotToWorld <$> WorldMap.frames (_context s).

Definition links (s : BaseTracker.t) : gmap nat (option nat) :=
  Frame.previous <$> WorldMap.frames (_context s).

Definition shape (s : BaseTracker.t) : list nat := length <$> grid s.

(** What the bookkeeping of a frame (pruning, recovery, landmark update,
    new framepoints) leaves alone: the status, the optimizer with its
    solution, the shape of the grid, the frames' poses and links, the motion
    and which frame is the current one. *)
Definition fixed (s : BaseTracker.t) :=
  (_status s, _status_previous s, _pose_optimizer s, shape s, poses s, links s,
   _motion_previous_to_current_robot s, WorldMap.currentFrame (_context s)).

(** "When all tracked landmarks are classified far the weight passed is
    clamped to 0.1": on an entry to the Tracking branch on which some
    tracked point has a far landmark and none a near one, the optimizer is
    given the weight 0.1. *)
Definition weight_is_clamped_when_all_tracked_landmarks_are_far
    (env : Environment) : Prop :=
  forall s current_frame s1 s',
    compute_prior env s = Some (current_frame, s1) ->
    _status s1 = Tracking ->
    (0 < _number_of_tracked_landmarks_far s1)%N ->
    _number_of_tracked_landmarks_close s1 = 0%N ->
    compute env s = Some s' ->
    PoseOptimizer.weightFramepoint (_pose_optimizer s') = Fin (1 # 10).

(** The ratio [(n_far + 7 n_close) / n_tracked] of the framepoint weight,
    as a rational *)
Definition landmark_ratio (s : BaseTracker.t) : Q :=
  (inject_Z (Z.of_N (_number_of_tracked_landmarks_far s
                     + 7 * _number_of_tracked_landmarks_close s))
   / inject_Z (Z.of_N (_number_of_tracked_points s)))%Q.

(** "The tracker transitions from Localizing to Tracking exactly when,
    after a successful optimization [...]": a transition happens only if the
    pose computation was acceptable, with more than
    [2 * _minimum_number_of_landmarks_to_track] inliers (line 103). *)
Definition localizing_to_tracking_only_after_acceptable_pose
    (env : Environment) : Prop :=
  forall s s',
    _status s = Localizing ->
    compute env s = Some s' ->
    _status s' = Tracking ->
    (2 * _minimum_number_of_landmarks_to_track env
     < PoseOptimizer.numberOfInliers (_pose_optimizer s'))%N.

(** Every cell of a grid is empty. *)
Definition empty_grid (g : FramePointMatrix) : Prop :=
  Forall (Forall (fun p => p = None)) g.

(** The cell at ([row], [col]) taken from the grid, if there is one *)
Definition take_cell (g : FramePointMatrix) (row col : nat) : FramePointMatrix :=
  match g !! row with
  | Some r => <[row := <[col := None]> r]> g
  | None => g
  end.


(** "The regional search runs only if the first stage found no match": if
    the second stage commits a cell, the first stage's best distance is not
    below the threshold. *)
Definition stage_2_only_without_stage_1_match (env : Environment) : Prop :=
  forall s previous_point projection_left row_projection col_projection b1 b2,
    Real.round_int32 (vy projection_left) = Some row_projection ->
    Real.round_int32 (vx projection_left) = Some col_projection ->
    stage_1 env s previous_point row_projection col_projection = Some b1 ->
    associate env s previous_point projection_left = Some (Stage2 b2) ->
    ~ (pixel_distance_best b1 < _pixel_distance_tracking_threshold s)%Z.



(** A fresh tracker: the state after the constructor and [setup()], with an
    empty world map, no image yet, the status [Localizing] (the initial
    state of the specification) and the identity as motion. *)
Definition fresh_tracker : BaseTracker.t :=
  BaseTracker.mk Localizing Localizing 0 0 0 0 0 0 0 0 0 Eigen.Identity 0 [] []
    false Eigen.Identity Eigen.Identity (fun _ _ => None)
    (WorldMap.mk ∅ 0 ∅ 0 None [] Eigen.Identity)
    (FramePointGenerator.mk [] 0)
    (PoseOptimizer.mk (Fin 0) Eigen.Identity 0 [] []) ∅ 0.

(** ** Tracks

    The track-length invariant of a framepoint in the store of [s]: its
    track length is one more than its predecessor's, or 1 if it has no
    predecessor. *)
Definition track_length_invariant (s : BaseTracker.t) (p : FramePoint.t) : Prop :=
  match FramePoint.previous p with
  | Some q =>
      exists previous_point,
        framepoints s !! q = Some previous_point /\
        FramePoint.trackLength p = (FramePoint.trackLength previous_point + 1)%N
  | None => FramePoint.trackLength p = 1%N
  end.

(** The vector of framepoints of the frame at address [a] *)
Definition points_of (s : BaseTracker.t) (a : nat) : list Ptr :=
  default [] (Frame.points <$> WorldMap.frames (_context s) !! a).

(** The world map has a current frame, and every framepoint of it exists
    and satisfies the track-length invariant. *)
Definition track_lengths_hold (s : BaseTracker.t) : Prop :=
  exists current_frame,
    WorldMap.currentFrame (_context s) = Some current_frame /\
    is_Some (WorldMap.frames (_context s) !! current_frame) /\
    forall a, Some a ∈ points_of s current_frame ->
      exists p, framepoints s !! a = Some p /\ track_length_invariant s p.

(** What the allocators guarantee between two calls of [compute]: the
    addresses in use are below the next address to be given out, for the
    framepoints in the store, for those the buffer of lost points and the
    current frame hold, and for the current frame itself. *)
Definition allocated (s : BaseTracker.t) : Prop :=
  (forall a, is_Some (framepoints s !! a) -> a < next_framepoint s) /\
  (forall a, Some a ∈ _lost_points s -> a < next_framepoint s) /\
  forall current_frame,
    WorldMap.currentFrame (_context s) = Some current_frame ->
    current_frame < WorldMap.next_frame (_context s) /\
    forall a, Some a ∈ points_of s current_frame -> a < next_framepoint s.

(** A framepoint created since [compute] was entered, when the next address
    was [n0] and the store [h0]: its predecessor, if it has one, was created
    before, and its track length is one more than the predecessor's. *)
Definition chained (n0 : nat) (h0 : gmap nat FramePoint.t) (p : FramePoint.t)
  : Prop :=
  match FramePoint.previous p with
  | Some q =>
      q < n0 /\
      exists previous_point,
        h0 !! q = Some previous_point /\
        FramePoint.trackLength p = (FramePoint.trackLength previous_point + 1)%N
  | None => FramePoint.trackLength p = 1%N
  end.

(** The store and its next address during [compute]: the framepoints
    created before the call are as they were, those created since are
    chained, and every address in use is below the next one. *)
Definition grown (n0 : nat) (h0 : gmap nat FramePoint.t) (m : Memory) : Prop :=
  n0 <= m.2 /\
  (forall q, q < n0 -> m.1 !! q = h0 !! q) /\
  (forall a p, n0 <= a -> m.1 !! a = Some p -> chained n0 h0 p) /\
  (forall a, is_Some (m.1 !! a) -> a < m.2).

(** The state during [compute] once the new frame is made: the grid and
    the current frame hold framepoints created since [compute] was entered
    only, and the buffer of lost points framepoints created before. *)
Definition tracks (n0 : nat) (h0 : gmap nat FramePoint.t) (current_frame : nat)
    (s : BaseTracker.t) : Prop :=
  grown n0 h0 (framepoints s, next_framepoint s) /\
  (forall a, Some a ∈ concat (grid s) -> n0 <= a < next_framepoint s) /\
  (forall a, Some a ∈ points_of s current_frame ->
             n0 <= a < next_framepoint s /\ is_Some (framepoints s !! a)) /\
  (forall q, Some q ∈ _lost_points s -> q < n0) /\
  WorldMap.currentFrame (_context s) = Some current_frame /\
  current_frame < WorldMap.next_frame (_context s) /\
  is_Some (WorldMap.frames (_context s) !! current_frame).

(** What [tracks] is about: the store, the grid, the current frame's
    vector, the buffer of lost points and the frame addresses. *)
Definition held (current_frame : nat) (s : BaseTracker.t) :=
  (framepoints s, next_framepoint s, grid s, points_of s current_frame,
   _lost_points s, WorldMap.currentFrame (_context s),
   WorldMap.next_frame (_context s),
   bool_decide (is_Some (WorldMap.frames (_context s) !! current_frame))).

(** The framepoints of the previous frame were created before [compute]
    was entered. *)
Definition predecessors (n0 : nat) (previous_frame : nat) (s : BaseTracker.t)
  : Prop :=
  forall q, Some q ∈ points_of s previous_frame -> q < n0.

(** ** A small concrete tracker

    An 8x8 image, a pinhole camera with the identity as camera matrix
    mounted at the robot's origin, two-bit descriptors compared by their
    Hamming distance.  The examples below run the functions above on it. *)
Module Example.

Definition hamming (a b : Descriptor) : real :=
  Real.of_N (N.of_nat (length (filter (fun p => p.1 ≠ p.2) (zip a b)))).

Definition abs (x : real) : real :=
  if Real.ltb x (Fin 0) then Real.opp x else x.

(** The 1-norm stands for Eigen's [norm()]. *)
Definition norm1 (v : Vector3) : real :=
  Real.add (Real.add (abs (vx v)) (abs (vy v))) (abs (vz v)).

(** An optimizer that returns the initial guess of the pose, reports [inl]
    inliers and judges every framepoint of the frame an inlier with error
    0. *)
Definition solver (inl : N) (s : BaseTracker.t) (current_frame : nat)
  : PoseOptimizer.t :=
  match WorldMap.frames (_context s) !! current_frame with
  | Some f =>
      PoseOptimizer.mk (Fin 0) (Frame.robotToWorld f) inl
        (replicate (length (Frame.points f)) (Fin 0))
        (replicate (length (Frame.points f)) true)
  | None => PoseOptimizer.mk (Fin 0) Eigen.Identity 0 [] []
  end.

Definition env (minimum_number_of_landmarks_to_track : N)
    (solve : BaseTracker.t -> nat -> PoseOptimizer.t) : Environment := {|
  _minimum_number_of_landmarks_to_track := minimum_number_of_landmarks_to_track;
  _pixel_distance_tracking_threshold_maximum := 3;
  _pixel_distance_tracking_threshold_minimum := 2;
  _range_point_tracking := 1;
  _maximum_flow_pixels_squared := 10;
  _camera_rows := 8;
  _camera_cols := 8;
  cameraMatrix := Eigen.identity3;
  robotToCamera := Eigen.Identity;
  numberOfRowsImage := 8;
  numberOfColsImage := 8;
  matchingDistanceTrackingThreshold := Fin 1;
  DESCRIPTOR_NORM := hamming;
  minimumTrackLengthForLandmarkCreation := 2;
  converge := solve;
  toOrientationRodrigues_norm := fun _ => Fin 0;
  norm := norm1;
  new_Landmark := fun p =>
    Landmark.mk (FramePoint.worldCoordinates p) false (FramePoint.isNear p) false;
  landmark_update := fun l p =>
    Landmark.mk (FramePoint.worldCoordinates p) true (Landmark.isNear l)
                (Landmark.isCurrentlyTracked l);
  rematch := fun _ _ => None
|}.

(** A candidate at pixel ([row], [col]), at depth 1 in front of the
    camera: it projects on its own pixel. *)
Definition candidate (row col : Z) (d : Descriptor) (near : bool)
  : StereoCandidate :=
  mkCandidate (mkVector3 (Real.of_Z col) (Real.of_Z row) (Fin 1)) d
              (mkVector3 (Real.of_Z col) (Real.of_Z row) (Fin 1)) near.

(** A fresh tracker with its first image *)
Definition fresh (image : Image) : BaseTracker.t :=
  set_intensity_image_left image fresh_tracker.

(** The tracker after it was given the images, one [compute] each *)
Definition run (e : Environment) (images : list Image) (s : BaseTracker.t)
  : option BaseTracker.t :=
  foldl (fun o image => s ← o; compute e (set_intensity_image_left image s))
        (Some s) images.

(** Three features with distinct descriptors *)
Definition three_features : Image := fun row col =>
  match row, col with
  | 2, 2 => Some (candidate 2 2 [true; false] true)
  | 5, 4 => Some (candidate 5 4 [false; true] false)
  | 6, 6 => Some (candidate 6 6 [true; true] false)
  | _, _ => None
  end.

Definition blank : Image := fun _ _ => None.

(** At least one landmark must be tracked; the optimizer reports [inl]
    inliers. *)
Definition e1 (inl : N) : Environment := env 1 (solver inl).

(** After two frames the tracker is tracking: frame 1 holds the
    framepoints 3, 4, 5, with the landmarks 0, 1, 2. *)
Definition tracking : BaseTracker.t :=
  default fresh_tracker
          (run (e1 5) [three_features; three_features] fresh_tracker).

Definition frame_1 : Frame.t :=
  Frame.mk [Some 3; Some 4; Some 5] Eigen.Identity (Some 0) Tracking.

(** The optimizer skipped framepoint 3, judged framepoint 4 an outlier
    and framepoint 5 an inlier. *)
Definition judged : BaseTracker.t :=
  set_pose_optimizer
    (PoseOptimizer.mk (Fin 1) Eigen.Identity 2
                      [Fin (-1); Fin 5; Fin (1 # 2)] [false; false; true])
    tracking.

(** Two candidates with the same descriptor, at (1, 1) and at (3, 3) *)
Definition two_candidates : Image := fun row col =>
  match row, col with
  | 1, 1 => Some (candidate 1 1 [true; false] true)
  | 3, 3 => Some (candidate 3 3 [true; false] true)
  | _, _ => None
  end.

(** The tracker in the loop of [_trackFramepoints]: the grid holds the two
    candidates and the threshold is the maximum, 3. *)
Definition searching : BaseTracker.t :=
  let '(a, s) := _makeFrame (fresh two_candidates) in
  set_pixel_distance_tracking_threshold 3
    (default s (generator_compute (e1 5) a s)).

(** A point of the previous frame seen at row 4, column 3, with the
    candidates' descriptor, and its projection at row 2, column 2. *)
Definition moved_point : FramePoint.t :=
  FramePoint.mk (mkVector3 (Fin 3) (Fin 4) (Fin 1)) [true; false]
                (mkVector3 (Fin 3) (Fin 4) (Fin 1))
                (mkVector3 (Fin 3) (Fin 4) (Fin 1)) true None 1 None.

Definition predicted : Vector3 := mkVector3 (Fin 2) (Fin 2) (Fin 1).

(** No minimum of tracked landmarks *)
Definition e0 : Environment := env 0 (solver 5).

(** One far feature, then a second far feature next to it *)
Definition one_far : Image := fun row col =>
  match row, col with
  | 2, 2 => Some (candidate 2 2 [true; false] false)
  | _, _ => None
  end.

Definition two_far : Image := fun row col =>
  match row, col with
  | 2, 2 => Some (candidate 2 2 [true; false] false)
  | 5, 4 => Some (candidate 5 4 [false; true] false)
  | _, _ => None
  end.

(** The tracker before the fourth frame: it is tracking the first feature,
    which has a far landmark, and has seen the second feature once. *)
Definition before_fourth_frame : BaseTracker.t :=
  set_intensity_image_left two_far
    (default fresh_tracker (run e0 [one_far; one_far; two_far] fresh_tracker)).

(** The tracker is tracking and is given a blank image. *)
Definition before_blank_frame : BaseTracker.t :=
  set_intensity_image_left blank tracking.

(** The tracker after its first frame, given the same image again *)
Definition before_second_frame : BaseTracker.t :=
  default fresh_tracker (run (e1 0) [three_features] fresh_tracker).

(** The new frame and the tracker at the [switch] of [compute] *)
Definition at_switch (e : Environment) (s : BaseTracker.t) : nat * BaseTracker.t :=
  default (0, s) (compute_prior e s).

(** The tracker after [compute] *)
Definition after (e : Environment) (s : BaseTracker.t) : BaseTracker.t :=
  default s (compute e s).

End Example.

(** ** A tracker with an odometry *)
Module Drift.

(** An optimizer that returns the identity as pose, whatever the initial
    guess, reports [inl] inliers and judges every framepoint of the frame an
    inlier with error 0. *)
Definition solver (inl : N) (s : BaseTracker.t) (current_frame : nat)
  : PoseOptimizer.t :=
  match WorldMap.frames (_context s) !! current_frame with
  | Some f =>
      PoseOptimizer.mk (Fin 0) Eigen.Identity inl
        (replicate (length (Frame.points f)) (Fin 0))
        (replicate (length (Frame.points f)) true)
  | None => PoseOptimizer.mk (Fin 0) Eigen.Identity 0 [] []
  end.

(** At least one landmark must be tracked; the optimizer reports [inl]
    inliers. *)
Definition e (inl : N) : Environment := Example.env 1 (solver inl).

(** One unit along x *)
Definition step : TransformMatrix3D :=
  mkTransform Eigen.identity3 (mkVector3 (Fin 1) (Fin 0) (Fin 0)).

(** The tracker after its first frame, given the same image again, with an
    odometry that has moved by [step] since the first frame. *)
Definition with_odometry : BaseTracker.t :=
  set_has_odometry true
    (set_odometry step
       (set_previous_odometry Eigen.Identity Example.before_second_frame)).

End Drift.

(** "In both the Localizing and Tracking branches [...] a delta exactly at
    the thresholds, or below, is rejected, in which case the current frame
    keeps the previous frame's pose and the motion delta is reset to the
    identity": on every frame that has a previous frame, whatever the
    optimizer's inlier count, if the motion the optimizer's pose gives is
    not significant, the frame has the previous frame's pose and the motion
    is the identity when [compute] returns. *)
Definition insignificant_motion_keeps_the_previous_pose (env : Environment)
  : Prop :=
  forall s s' current_frame s1 f1 pa pf,
    compute env s = Some s' ->
    compute_prior env s = Some (current_frame, s1) ->
    WorldMap.frames (_context s1) !! current_frame = Some f1 ->
    Frame.previous f1 = Some pa ->
    WorldMap.frames (_context s1) !! pa = Some pf ->
    let weight :=
      match _status s1 with
      | Localizing => Fin 1
      | Tracking => Real.std_max (weight_framepoint s1) (Fin (1 # 10))
      end in
    let so := optimize env current_frame weight s1 in
    let sm := resulting_motion pf so in
    significant (delta_angular env sm) (delta_translational env sm) = false ->
    exists f',
      WorldMap.frames (_context s') !! current_frame = Some f' /\
      Frame.robotToWorld f' = Frame.robotToWorld pf /\
      _motion_previous_to_current_robot s' = Eigen.Identity.

(** ** What the counters of [_trackFramepoints] count *)

(** The framepoint a pointer points to carries a landmark and is classified
    near ([near = true]) or far ([near = false]). *)
Definition carries_landmark (near : bool) (s : BaseTracker.t) (p : Ptr) : bool :=
  match framepoint s p with
  | Some fp =>
      bool_decide (is_Some (FramePoint.landmark fp))
      && Bool.eqb (FramePoint.isNear fp) near
  | None => false
  end.

(** The number of pointers of a vector that pass [test] *)
Definition count (test : Ptr -> bool) (l : list Ptr) : N :=
  N.of_nat (length (filter (fun p => test p = true) l)).

(** The framepoint a pointer points to is linked to a framepoint of the
    vector [previous]. *)
Definition tracked_from (previous : list Ptr) (s : BaseTracker.t) (p : Ptr)
  : Prop :=
  exists fp q,
    framepoint s p = Some fp /\ FramePoint.previous fp = Some q /\
    Some q ∈ previous.

(** * Properties *)

(** ** Vectors and loops *)
Lemma vec_set_Some {A} (i : nat) (x : A) (v v' : list A) :
  vec_set i x v = Some v' <-> i < length v /\ v' = <[i := x]> v.
Proof.
  unfold vec_set. case_decide; split; intros; simplify_eq; intuition (try lia; congruence).
Qed.

Lemma resize_le {A} (n : nat) (d : A) (v : list A) :
  n <= length v -> resize n d v = take n v.
Proof.
  intros H. unfold resize. replace (n - length v) with 0 by lia.
  simpl. apply app_nil_r.
Qed.

Lemma take_S_insert {A} (v : list A) (k : nat) (p : A) :
  k < length v -> take (S k) (<[k := p]> v) = take k v ++ [p].
Proof.
  intros H. rewrite (take_S_r _ _ p).
  - by rewrite take_insert_ge by lia.
  - by apply list_lookup_insert_eq.
Qed.

Lemma select_elem_of {A} (keep : nat -> A -> bool) (l : list A) (i0 : nat) (x : A) :
  x ∈ select keep i0 l <-> exists i, l !! i = Some x /\ keep (i0 + i) x = true.
Proof.
  revert i0. induction l as [|y l IH]; intros i0; simpl.
  - split; [by intros ?%elem_of_nil | by intros (i & ? & _)].
  - destruct (keep i0 y) eqn:Hk.
    + rewrite elem_of_cons, IH. split.
      * intros [-> | (i & Hi & Hx)].
        -- exists 0. by rewrite Nat.add_0_r.
        -- exists (S i). by rewrite Nat.add_succ_r.
      * intros ([|i] & Hi & Hx); simplify_eq/=; [by left|].
        right. exists i. by rewrite Nat.add_succ_r in Hx.
    + rewrite IH. split.
      * intros (i & Hi & Hx). exists (S i). by rewrite Nat.add_succ_r.
      * intros ([|i] & Hi & Hx); simplify_eq/=.
        -- rewrite Nat.add_0_r in Hx. congruence.
        -- exists i. by rewrite Nat.add_succ_r in Hx.
Qed.

Lemma for_each_cons {A B} (body : B -> A -> option B) x l b :
  for_each body (x :: l) b = body b x ≫= for_each body l.
Proof. done. Qed.

Lemma for_each_app {A B} (body : B -> A -> option B) l1 l2 b :
  for_each body (l1 ++ l2) b = for_each body l1 b ≫= for_each body l2.
Proof.
  revert b. induction l1 as [|x l1 IH]; intros b; [done|].
  simpl. destruct (body b x); simpl; [apply IH|done].
Qed.

(** ** Pruning *)

Section Prune.

Lemma _pruneFramepoints_body_Some s v k i v' k' :
  k <= i ->
  _pruneFramepoints_body s (v, k) i = Some (v', k') ->
  exists p, v !! i = Some p /\
    (if retained s i p then v' = <[k := p]> v /\ k' = S k else v' = v /\ k' = k).
Proof.
  intros Hk H. unfold _pruneFramepoints_body in H.
  destruct (v !! i) as [p|] eqn:Hp; simplify_eq/=.
  exists p. split; [done|].
  assert (k < length v) by (apply lookup_lt_Some in Hp; lia).
  unfold retained.
  destruct (framepoint s p) as [fp|]; simplify_eq/=.
  destruct (FramePoint.landmark fp) as [l|] eqn:Hl; simplify_eq/=.
  - destruct (PoseOptimizer.errors (_pose_optimizer s) !! i) as [e|]; simplify_eq/=.
    destruct (Real.eqb e (Fin (-1))); simplify_eq/=.
    + apply bind_Some in H as (v1 & [_ ->]%vec_set_Some & ?). by simplify_eq.
    + destruct (PoseOptimizer.inliers (_pose_optimizer s) !! i) as [[]|]; simplify_eq/=; [|done].
      apply bind_Some in H as (v1 & [_ ->]%vec_set_Some & ?). by simplify_eq.
  - apply bind_Some in H as (v1 & [_ ->]%vec_set_Some & ?). by simplify_eq.
Qed.

Lemma _pruneFramepoints_loop s m : forall i0 v k v' k',
  k <= i0 -> i0 + m = length v ->
  for_each (_pruneFramepoints_body s) (seq i0 m) (v, k) = Some (v', k') ->
  length v' = length v /\ k' <= i0 + m /\
  take k' v' = take k v ++ select (retained s) i0 (drop i0 v).
Proof.
  induction m as [|m IH]; intros i0 v k v' k' Hk Hlen H; simpl in H.
  - simplify_eq. rewrite drop_ge by lia. simpl. rewrite app_nil_r. split_and!; [done|lia|done].
  - apply bind_Some in H as ([v1 k1] & Hb & H).
    apply _pruneFramepoints_body_Some in Hb as (p & Hp & Hb); [|done].
    assert (k < length v) by (apply lookup_lt_Some in Hp; lia).
    rewrite (drop_S _ _ _ Hp). simpl.
    destruct (retained s i0 p); destruct Hb as [-> ->].
    + apply IH in H as (Hl & Hk' & Ht); [|lia|rewrite length_insert; lia].
      rewrite length_insert in Hl. split_and!; [done|lia|].
      rewrite Ht, take_S_insert, drop_insert_lt by lia. by rewrite <- app_assoc.
    + apply IH in H as (Hl & Hk' & Ht); [|lia|lia].
      split_and!; [done|lia|done].
Qed.

Lemma _pruneFramepoints_body_total s v k i p :
  k <= i -> v !! i = Some p -> is_Some (framepoint s p) ->
  i < length (PoseOptimizer.errors (_pose_optimizer s)) ->
  i < length (PoseOptimizer.inliers (_pose_optimizer s)) ->
  is_Some (_pruneFramepoints_body s (v, k) i).
Proof.
  intros Hk Hp [fp Hfp] [e He]%lookup_lt_is_Some_2 [b Hb]%lookup_lt_is_Some_2.
  assert (k < length v) by (apply lookup_lt_Some in Hp; lia).
  assert (forall x, vec_set k x v = Some (<[k := x]> v)) as Hset
    by (intros x; apply vec_set_Some; done).
  unfold _pruneFramepoints_body. rewrite Hp. simpl. rewrite Hfp. simpl.
  destruct (FramePoint.landmark fp); simpl.
  - rewrite He. simpl. destruct (Real.eqb e (Fin (-1))); simpl.
    + rewrite Hset. by eexists.
    + rewrite Hb. simpl. destruct b; [rewrite Hset|]; by eexists.
  - rewrite Hset. by eexists.
Qed.

Lemma _pruneFramepoints_loop_total s m : forall i0 v k,
  k <= i0 -> i0 + m = length v ->
  Forall (fun p => is_Some (framepoint s p)) (drop i0 v) ->
  length v <= length (PoseOptimizer.errors (_pose_optimizer s)) ->
  length v <= length (PoseOptimizer.inliers (_pose_optimizer s)) ->
  is_Some (for_each (_pruneFramepoints_body s) (seq i0 m) (v, k)).
Proof.
  induction m as [|m IH]; intros i0 v k Hk Hlen Hv He Hi; [by eexists|].
  cbn [seq]. rewrite for_each_cons.
  destruct (lookup_lt_is_Some_2 v i0) as [p Hp]; [lia|].
  rewrite (drop_S _ _ _ Hp) in Hv. apply Forall_cons in Hv as [Hfp Hv].
  destruct (_pruneFramepoints_body_total s v k i0 p) as [[v1 k1] Hb]; [done..|lia|lia|].
  rewrite Hb. simpl.
  apply _pruneFramepoints_body_Some in Hb as (p' & Hp' & Hb); [|done].
  assert (k < length v) by (apply lookup_lt_Some in Hp; lia).
  assert (p' = p) as -> by congruence.
  destruct (retained s i0 p); destruct Hb as [-> ->].
  - apply IH; rewrite ?length_insert, ?drop_insert_lt; (done || lia).
  - apply IH; (done || lia).
Qed.

Lemma _pruneFramepoints_Some a s s' :
  _pruneFramepoints a s = Some s' ->
  exists f, WorldMap.frames (_context s) !! a = Some f /\
    s' = set_number_of_tracked_points
           (N.of_nat (length (select (retained s) 0 (Frame.points f))))
           (store_frame a
              (Frame.set_points (select (retained s) 0 (Frame.points f)) f) s).
Proof.
  unfold _pruneFramepoints. intros H.
  apply bind_Some in H as (f & Hf & H). exists f. split; [done|].
  apply bind_Some in H as ([v k] & Hl & H). simplify_eq/=.
  apply _pruneFramepoints_loop in Hl as (Hlen & Hk & Ht); [|lia|done].
  rewrite take_0, drop_0 in Ht. simpl in Ht. rewrite resize_le by lia.
  assert (k = length (select (retained s) 0 (Frame.points f))) as Hk'
    by (rewrite <- Ht, length_take_le; lia).
  by rewrite Ht, Hk' at 1.
Qed.

End Prune.


(** C4.  After the pose optimization of the Tracking branch,
    [_pruneFramepoints] keeps a framepoint of the frame iff it has no
    landmark, or its optimizer error is the sentinel [-1], or its inlier flag
    is true.  The survivors are, in their original order, the whole of the
    frame's vector afterwards, whose length is the new number of tracked
    points; a framepoint with a landmark, a judged error and a false inlier
    flag is not among them.  The pruning is defined whenever the frame's
    pointers are valid and the optimizer judged every framepoint. *)
Theorem pruneFramepoints_keeps_the_retained (frame_ : nat) (s : BaseTracker.t)
    (f : Frame.t) :
  WorldMap.frames (_context s) !! frame_ = Some f ->
  Forall (fun p => is_Some (framepoint s p)) (Frame.points f) ->
  length (Frame.points f) <= length (PoseOptimizer.errors (_pose_optimizer s)) ->
  length (Frame.points f) <= length (PoseOptimizer.inliers (_pose_optimizer s)) ->
  exists s' f',
    _pruneFramepoints frame_ s = Some s' /\
    WorldMap.frames (_context s') !! frame_ = Some f' /\
    Frame.points f' = select (retained s) 0 (Frame.points f) /\
    _number_of_tracked_points s' = N.of_nat (length (Frame.points f')) /\
    (forall p, p ∈ Frame.points f' <->
               exists i, Frame.points f !! i = Some p /\ retained s i p = true) /\
    (NoDup (Frame.points f) ->
     forall i p fp e,
       Frame.points f !! i = Some p ->
       framepoint s p = Some fp ->
       is_Some (FramePoint.landmark fp) ->
       PoseOptimizer.errors (_pose_optimizer s) !! i = Some e ->
       Real.eqb e (Fin (-1)) = false ->
       PoseOptimizer.inliers (_pose_optimizer s) !! i = Some false ->
       p ∉ Frame.points f').
Proof.
  intros Hf Hvalid He Hi.
  destruct (_pruneFramepoints_loop_total s (length (Frame.points f)) 0
              (Frame.points f) 0) as [[v k] Hloop]; [done..|].
  assert (is_Some (_pruneFramepoints frame_ s)) as [s' Hs'].
  { unfold _pruneFramepoints. rewrite Hf. simpl. rewrite Hloop. by eexists. }
  destruct (_pruneFramepoints_Some _ _ _ Hs') as (f0 & Hf0 & ->).
  assert (f0 = f) as -> by congruence.
  eexists _, _. split; [done|]. split; [apply lookup_insert_eq|].
  split; [done|]. split; [done|]. split.
  - intros p. apply (select_elem_of (retained s) (Frame.points f) 0).
  - intros Hnd i p fp e Hp Hfp [l Hl] Hei Hneq Hin.
    intros (j & Hj & Hr)%(select_elem_of (retained s) (Frame.points f) 0).
    assert (j = i) as -> by (eapply NoDup_lookup; eauto).
    simpl in Hr. unfold retained in Hr. rewrite Hfp, Hei, Hin, Hl in Hr.
    simpl in Hr. by rewrite Hneq in Hr.
Qed.

Lemma pruneFramepoints_keeps_the_retained_witness :
  exists s' f',
    _pruneFramepoints 1 Example.judged = Some s' /\
    WorldMap.frames (_context s') !! 1 = Some f' /\
    Frame.points f' = [Some 3; Some 5] /\
    _number_of_tracked_points s' = 2%N.
Proof.
  destruct (pruneFramepoints_keeps_the_retained 1 Example.judged Example.frame_1)
    as (s' & f' & H1 & H2 & H3 & H4 & _).
  - vm_compute. reflexivity.
  - repeat constructor; vm_compute; eexists; reflexivity.
  - vm_compute. lia.
  - vm_compute. lia.
  - exists s', f'. split; [exact H1|]. split; [exact H2|].
    split; [rewrite H3; vm_compute; reflexivity|].
    rewrite H4, H3. vm_compute. reflexivity.
Defined.

(** ** The search of the association *)

Lemma for_each_nested {A B C : Type} (body : A -> C -> B -> option C)
    (inner : list B) (l : list A) (c : C) :
  for_each (fun c x => for_each (body x) inner c) l c =
  for_each (fun c '(x, y) => body x c y) (x ← l; y ← inner; [(x, y)]) c.
Proof.
  revert c. induction l as [|x l IH]; intros c; [done|].
  cbn [mbind list_bind]. rewrite for_each_cons, for_each_app.
  assert (forall c, for_each (body x) inner c =
                    for_each (fun c '(x, y) => body x c y)
                             (y ← inner; [(x, y)]) c) as ->.
  { clear. induction inner as [|y inner IH]; intros c; [done|].
    cbn [mbind list_bind]. simpl. destruct (body x c y); simpl; [apply IH|done]. }
  destruct (for_each _ (y ← inner; [(x, y)]) c); simpl; [apply IH|done].
Qed.

Lemma int32_Some (z z' : Z) :
  int32 z = Some z' <-> z' = z /\ (- 2 ^ 31 <= z < 2 ^ 31)%Z.
Proof.
  unfold int32. case_decide; split.
  - by intros [= <-].
  - by intros [-> _].
  - done.
  - by intros [_ ?].
Qed.

Section Search.

Variable env : Environment.
Variable s : BaseTracker.t.
Variable previous_point : FramePoint.t.
Variables row_projection col_projection : Z.
Variable skip : Z -> Z -> bool.

Let step (b : Best) (rc : Z * Z) : option Best :=
  let '(row, col) := rc in
  match_cell env s previous_point row_projection col_projection skip row b col.

(** One cell either improves on the best so far, being an admissible
    candidate of smaller cost, or leaves it. *)
Lemma match_cell_Some row col b b' :
  match_cell env s previous_point row_projection col_projection skip row b col
  = Some b' ->
  (b' = mkBest (pixel_distance row_projection col_projection row col) row col /\
   skip row col = false /\ candidate env s previous_point row col /\
   (pixel_distance row_projection col_projection row col
    < pixel_distance_best b)%Z)
  \/
  (b' = b /\
   (skip row col = false -> candidate env s previous_point row col ->
    (pixel_distance_best b
     <= pixel_distance row_projection col_projection row col)%Z)).
Proof.
  unfold match_cell, candidate, pixel_distance. intros H.
  apply bind_Some in H as (p & Hp & H).
  destruct p as [a|]; simplify_eq/=.
  - destruct (skip row col) eqn:Hskip; simplify_eq/=.
    { right. split; [done|]. by intros. }
    apply bind_Some in H as (dr & [-> _]%int32_Some & H).
    apply bind_Some in H as (dc & [-> _]%int32_Some & H).
    apply bind_Some in H as (pd & [-> _]%int32_Some & H).
    apply bind_Some in H as (fp & Hfp & H).
    destruct (_ <? _)%Z eqn:Hlt; simpl in H.
    + destruct (Real.ltb _ _) eqn:Hd; simplify_eq/=.
      * left. split_and!; [done|done| |lia]. by exists a, fp.
      * right. split; [done|]. intros _ (a' & fp' & ? & ? & ?). simplify_eq. congruence.
    + simplify_eq. right. split; [done|]. intros. lia.
  - right. split; [done|]. intros _ (a' & fp' & ? & _). congruence.
Qed.

Lemma search_first_of_least_cost (order : list (Z * Z)) : forall b0 b,
  for_each step order b0 = Some b ->
  first_of_least_cost env s previous_point row_projection col_projection skip
                      order b0 b.
Proof.
  induction order as [|[row col] order IH]; intros b0 b H.
  - simplify_eq/=. left. split; [done|]. by intros ? ? ?%elem_of_nil.
  - rewrite for_each_cons in H. apply bind_Some in H as (b1 & H1 & H).
    apply IH in H. simpl in H1.
    apply match_cell_Some in H1 as [(-> & Hs & Hc & Hlt) | (-> & Hge)].
    + destruct H as [[-> Hall] | (before & after & -> & Hadm & Hpd & Hlt' & Hb & Ha)].
      * right. exists [], order. simpl in *. split_and!; try done.
        by intros ? ? ?%elem_of_nil.
      * right. exists ((row, col) :: before), after. simpl in *.
        split_and!; try done; try apply Hadm; try lia.
        intros r c [?|?]%elem_of_cons Hrc; simplify_eq; [lia|by apply Hb].
    + destruct H as [[-> Hall] | (before & after & -> & Hadm & Hpd & Hlt' & Hb & Ha)].
      * left. split; [done|].
        intros r c [?|?]%elem_of_cons [Hs Hc]; simplify_eq; [by apply Hge|by apply Hall].
      * right. exists ((row, col) :: before), after.
        split_and!; try done; try apply Hadm.
        intros r c [?|?]%elem_of_cons [Hs Hc]; simplify_eq; [|by apply Hb].
        specialize (Hge Hs Hc). lia.
Qed.

Lemma locate_best_match_scan row_start row_end col_start col_end b0 :
  locate_best_match env s previous_point row_projection col_projection skip
                    row_start row_end col_start col_end b0
  = for_each step (scan_order row_start row_end col_start col_end) b0.
Proof.
  unfold locate_best_match, scan_order.
  by rewrite (for_each_nested
                (fun row b col =>
                   match_cell env s previous_point row_projection col_projection
                              skip row b col)).
Qed.

Lemma locate_best_match_first_of_least_cost row_start row_end col_start col_end
    b0 b :
  locate_best_match env s previous_point row_projection col_projection skip
                    row_start row_end col_start col_end b0 = Some b ->
  first_of_least_cost env s previous_point row_projection col_projection skip
    (scan_order row_start row_end col_start col_end) b0 b.
Proof.
  rewrite locate_best_match_scan. apply search_first_of_least_cost.
Qed.

End Search.

(** *** The scan order *)



Lemma elem_of_scan_order row_start row_end col_start col_end row col :
  (row, col) ∈ scan_order row_start row_end col_start col_end <->
  (row_start <= row < row_end /\ col_start <= col < col_end)%Z.
Proof.
  unfold scan_order. rewrite list_elem_of_bind. split.
  - intros (r & (c & Hrc & Hc%elem_of_seqZ)%list_elem_of_bind & Hr%elem_of_seqZ).
    apply list_elem_of_singleton in Hrc. simplify_eq. lia.
  - intros [Hr Hc]. exists row. split; [|apply elem_of_seqZ; lia].
    apply list_elem_of_bind. exists col. split; [|apply elem_of_seqZ; lia].
    by apply list_elem_of_singleton.
Qed.






(** *** The winner of a search is unique *)


(** *** The two stages *)

Lemma evaluated_in_stage_1_square env row_projection col_projection row col :
  evaluated_in_stage_1 env row_projection col_projection row col = true <->
  (row, col) ∈ scan_order
    (row_start row_projection (_range_point_tracking env))
    (row_end env row_projection (_range_point_tracking env))
    (col_start col_projection (_range_point_tracking env))
    (col_end env col_projection (_range_point_tracking env)).
Proof.
  rewrite elem_of_scan_order. unfold evaluated_in_stage_1.
  rewrite negb_true_iff, !orb_false_iff, !Z.ltb_ge, !Z.geb_leb, !Z.leb_gt. lia.
Qed.

Lemma flow_squared_Some row_previous col_previous b flow :
  flow_squared row_previous col_previous b = Some flow ->
  flow = ((row_best b - row_previous) * (row_best b - row_previous)
          + (col_best b - col_previous) * (col_best b - col_previous))%Z /\
  (flow < 2 ^ 31)%Z.
Proof.
  unfold flow_squared. intros H.
  apply bind_Some in H as (dr & [-> _]%int32_Some & H).
  apply bind_Some in H as (dc & [-> _]%int32_Some & H).
  apply bind_Some in H as (rr & [-> _]%int32_Some & H).
  apply bind_Some in H as (cc & [-> _]%int32_Some & H).
  apply int32_Some in H as [-> ?]. split; [done|lia].
Qed.

(** Where the test of lines 313-316 has a value, it is the test on the
    integers. *)
Lemma found_consistent_match_Some env threshold row_previous col_previous b m :
  found_consistent_match env threshold row_previous col_previous b = Some m ->
  let flow :=
    ((row_best b - row_previous) * (row_best b - row_previous)
     + (col_best b - col_previous) * (col_best b - col_previous))%Z in
  (m = true
   <-> (pixel_distance_best b < threshold /\
        flow < _maximum_flow_pixels_squared env)%Z) /\
  (pixel_distance_best b < threshold -> flow < 2 ^ 31)%Z.
Proof.
  intros H flow. unfold found_consistent_match in H.
  destruct (_ <? _)%Z eqn:Hd.
  - apply bind_Some in H as (f & [Hf Hr]%flow_squared_Some & H).
    injection H as <-. apply Z.ltb_lt in Hd. rewrite Z.ltb_lt.
    subst f. fold flow in Hr |- *. split; [tauto|]. intros _. apply Hr.
  - injection H as <-. apply Z.ltb_ge in Hd. split; [|lia].
    split; [done|lia].
Qed.

Lemma stage_1_first_of_least_cost env s previous_point row_projection
    col_projection b :
  stage_1 env s previous_point row_projection col_projection = Some b ->
  first_of_least_cost env s previous_point row_projection col_projection
    (fun _ _ => false)
    (scan_order (row_start row_projection (_range_point_tracking env))
                (row_end env row_projection (_range_point_tracking env))
                (col_start col_projection (_range_point_tracking env))
                (col_end env col_projection (_range_point_tracking env)))
    (mkBest (_pixel_distance_tracking_threshold s) (-1) (-1)) b.
Proof.
  unfold stage_1. intros H. apply bind_Some in H as (? & _ & H).
  by apply locate_best_match_first_of_least_cost.
Qed.

Lemma stage_2_first_of_least_cost env s previous_point row_projection
    col_projection b1 b :
  stage_2 env s previous_point row_projection col_projection b1 = Some b ->
  first_of_least_cost env s previous_point row_projection col_projection
    (evaluated_in_stage_1 env row_projection col_projection)
    (scan_order (row_start row_projection (_pixel_distance_tracking_threshold s))
                (row_end env row_projection (_pixel_distance_tracking_threshold s))
                (col_start col_projection (_pixel_distance_tracking_threshold s))
                (col_end env col_projection (_pixel_distance_tracking_threshold s)))
    (mkBest (_pixel_distance_tracking_threshold s) (row_best b1) (col_best b1)) b.
Proof.
  unfold stage_2. intros H. apply bind_Some in H as (? & _ & H).
  by apply locate_best_match_first_of_least_cost.
Qed.

(** C3 (as amended).  For every point of the previous frame the regional
    search of the second stage runs iff the first stage commits nothing:
    it found no candidate below the threshold, or its best candidate failed
    the flow gate.  When it runs it searches the square of radius
    [threshold] around the projection, clipped to the image, skips exactly
    the cells of the first stage's square, and selects by the criterion and
    cost of the first stage: the first cell in scan order among the
    admissible candidates of least Manhattan distance below the threshold. *)
Theorem stage_2_runs_iff_stage_1_commits_nothing env s previous_point
    projection_left r :
  associate env s previous_point projection_left = Some r ->
  exists row_projection col_projection row_previous col_previous b1 match_1,
    Real.round_int32 (vy projection_left) = Some row_projection /\
    Real.round_int32 (vx projection_left) = Some col_projection /\
    Real.round_int32 (vy (FramePoint.imageCoordinatesLeft previous_point))
      = Some row_previous /\
    Real.round_int32 (vx (FramePoint.imageCoordinatesLeft previous_point))
      = Some col_previous /\
    let threshold := _pixel_distance_tracking_threshold s in
    let range := _range_point_tracking env in
    let square :=
      scan_order (row_start row_projection range)
                 (row_end env row_projection range)
                 (col_start col_projection range)
                 (col_end env col_projection range) in
    let region :=
      scan_order (row_start row_projection threshold)
                 (row_end env row_projection threshold)
                 (col_start col_projection threshold)
                 (col_end env col_projection threshold) in
    let skip := evaluated_in_stage_1 env row_projection col_projection in
    stage_1 env s previous_point row_projection col_projection = Some b1 /\
    first_of_least_cost env s previous_point row_projection col_projection
      (fun _ _ => false) square (mkBest threshold (-1) (-1)) b1 /\
    (forall row col,
       (row, col) ∈ region <->
       (row_projection - threshold <= row < row_projection + threshold /\
        0 <= row < Z.of_nat (numberOfRowsImage env) /\
        col_projection - threshold <= col < col_projection + threshold /\
        0 <= col < Z.of_nat (numberOfColsImage env))%Z) /\
    (forall row col, skip row col = true <-> (row, col) ∈ square) /\
    found_consistent_match env threshold row_previous col_previous b1
    = Some match_1 /\
    (forall b m,
       found_consistent_match env threshold row_previous col_previous b = Some m ->
       let flow :=
         ((row_best b - row_previous) * (row_best b - row_previous)
          + (col_best b - col_previous) * (col_best b - col_previous))%Z in
       (m = true
        <-> (pixel_distance_best b < threshold /\
             flow < _maximum_flow_pixels_squared env)%Z) /\
       (pixel_distance_best b < threshold -> flow < 2 ^ 31)%Z) /\
    if match_1
    then r = Stage1 b1
    else
      exists b2 match_2,
        stage_2 env s previous_point row_projection col_projection b1 = Some b2 /\
        first_of_least_cost env s previous_point row_projection col_projection
          skip region (mkBest threshold (row_best b1) (col_best b1)) b2 /\
        found_consistent_match env threshold row_previous col_previous b2
        = Some match_2 /\
        r = if match_2 then Stage2 b2 else NoMatch.
Proof.
  unfold associate. intros H.
  apply bind_Some in H as (rp & Hrp & H). apply bind_Some in H as (cp & Hcp & H).
  apply bind_Some in H as (rv & Hrv & H). apply bind_Some in H as (cv & Hcv & H).
  apply bind_Some in H as (b1 & Hb1 & H). apply bind_Some in H as (m1 & Hm1 & H).
  exists rp, cp, rv, cv, b1, m1. split_and!; try done.
  - by apply stage_1_first_of_least_cost.
  - intros row col. rewrite elem_of_scan_order.
    unfold row_start, row_end, col_start, col_end. lia.
  - apply evaluated_in_stage_1_square.
  - intros b m. apply found_consistent_match_Some.
  - destruct m1; [by simplify_eq|].
    apply bind_Some in H as (b2 & Hb2 & H). apply bind_Some in H as (m2 & Hm2 & H).
    exists b2, m2. split_and!; [done| |done|by simplify_eq].
    by apply stage_2_first_of_least_cost.
Qed.

Lemma stage_2_runs_iff_stage_1_commits_nothing_witness :
  exists b1,
    stage_1 (Example.e1 5) Example.searching Example.moved_point 2 2 = Some b1 /\
    found_consistent_match (Example.e1 5) 3 4 3 b1 = Some false /\
    associate (Example.e1 5) Example.searching Example.moved_point
              Example.predicted = Some (Stage2 (mkBest 2 3 3)).
Proof.
  destruct (stage_2_runs_iff_stage_1_commits_nothing (Example.e1 5)
              Example.searching Example.moved_point Example.predicted
              (Stage2 (mkBest 2 3 3)))
    as (rp & cp & rv & cv & b1 & m1 & Hrp & Hcp & Hrv & Hcv & Hb1 & _);
    [vm_compute; reflexivity|].
  vm_compute in Hrp, Hcp, Hrv, Hcv. simplify_eq.
  exists b1. split; [exact Hb1|].
  vm_compute in Hb1. simplify_eq. split; vm_compute; reflexivity.
Defined.

(** C3, as stated, fails: the first stage finds the candidate at (1, 1)
    below the threshold, the flow gate rejects it, and the second stage runs
    and commits the candidate at (3, 3). *)
Lemma stage_2_runs_after_a_rejected_stage_1_match :
  ~ stage_2_only_without_stage_1_match (Example.e1 5).
Proof.
  intros H.
  apply (H Example.searching Example.moved_point Example.predicted 2%Z 2%Z
           (mkBest 2 1 1) (mkBest 2 3 3)); vm_compute; reflexivity.
Qed.



(** ** The projection of the previous frame's points *)

Section Projection.

Variable env : Environment.
Variable s : BaseTracker.t.
Variable world_to_camera : TransformMatrix3D.

Lemma point_in_image_left_Some fp q :
  point_in_image_left env s world_to_camera fp = Some q ->
  q = predicted_image_coordinates env s world_to_camera fp.
Proof.
  unfold point_in_image_left, predicted_image_coordinates, landmark.
  intros H. apply bind_Some in H as (c & Hc & H). simplify_eq/=.
  destruct (FramePoint.landmark fp) as [l|]; simpl in *; [|by simplify_eq].
  apply bind_Some in Hc as (lm & -> & Hc). simplify_eq/=.
  by destruct (Landmark.areCoordinatesValidated lm).
Qed.

Lemma point_in_image_left_total p :
  valid_framepoint s p ->
  exists fp, framepoint s p = Some fp /\
             point_in_image_left env s world_to_camera fp
             = Some (prediction env s world_to_camera p).
Proof.
  intros (fp & Hfp & Hl). exists fp. split; [done|].
  unfold prediction. rewrite Hfp. simpl.
  unfold point_in_image_left, predicted_image_coordinates, landmark in *.
  destruct Hl as [-> | [lm Hlm]]; [done|].
  destruct (FramePoint.landmark fp) as [l|]; simpl in *; [|done].
  rewrite Hlm. simpl. by destruct (Landmark.areCoordinatesValidated lm).
Qed.

Lemma _getImageCoordinates_body_Some projected v k i projected' v' k' :
  k <= i -> length projected = length v ->
  _getImageCoordinates_body env s world_to_camera (projected, v, k) i
  = Some (projected', v', k') ->
  exists p, v !! i = Some p /\
    if projectable env s world_to_camera p
    then projected' = <[k := prediction env s world_to_camera p]> projected /\
         v' = <[k := p]> v /\ k' = S k
    else projected' = projected /\ v' = v /\ k' = k.
Proof.
  intros Hk Hlen H. unfold _getImageCoordinates_body in H.
  apply bind_Some in H as (p & Hp & H). exists p. split; [done|].
  apply bind_Some in H as (fp & Hfp & H).
  apply bind_Some in H as (q & Hq & H).
  apply point_in_image_left_Some in Hq.
  unfold projectable, prediction. rewrite Hfp. simpl. rewrite <- Hq.
  destruct (out_of_FOV env q); simpl; [by simplify_eq|].
  apply bind_Some in H as (pr & [_ ->]%vec_set_Some & H).
  apply bind_Some in H as (v1 & [_ ->]%vec_set_Some & H).
  by simplify_eq.
Qed.

Lemma _getImageCoordinates_loop m : forall i0 projected v k projected' v' k',
  k <= i0 -> i0 + m = length v -> length projected = length v ->
  for_each (_getImageCoordinates_body env s world_to_camera) (seq i0 m)
           (projected, v, k) = Some (projected', v', k') ->
  length v' = length v /\ length projected' = length v /\ k' <= i0 + m /\
  take k' v'
  = take k v
    ++ filter (fun p => projectable env s world_to_camera p = true) (drop i0 v) /\
  take k' projected'
  = take k projected
    ++ (prediction env s world_to_camera
          <$> filter (fun p => projectable env s world_to_camera p = true)
                     (drop i0 v)).
Proof.
  induction m as [|m IH]; intros i0 pr v k pr' v' k' Hk Hlen Hpr H.
  - simplify_eq/=. rewrite drop_ge by lia. simpl. rewrite !app_nil_r.
    split_and!; (done || lia).
  - cbn [seq] in H. rewrite for_each_cons in H.
    apply bind_Some in H as ([[pr1 v1] k1] & Hb & H).
    apply _getImageCoordinates_body_Some in Hb as (p & Hp & Hb); [|done..].
    assert (k < length v) by (apply lookup_lt_Some in Hp; lia).
    rewrite (drop_S _ _ _ Hp), filter_cons.
    destruct (projectable env s world_to_camera p) eqn:Hproj.
    + destruct Hb as (-> & -> & ->).
      apply IH in H as (Hl & Hl' & Hk' & Ht & Ht');
        [|lia|rewrite length_insert; lia|by rewrite !length_insert].
      rewrite length_insert in Hl, Hl'. split_and!; [done|done|lia| |].
      * rewrite Ht, take_S_insert, drop_insert_lt by lia.
        rewrite decide_True by done. by rewrite <- app_assoc.
      * rewrite Ht', take_S_insert, drop_insert_lt by lia.
        rewrite decide_True by done. by rewrite fmap_cons, <- app_assoc.
    + destruct Hb as (-> & -> & ->).
      apply IH in H as (Hl & Hl' & Hk' & Ht & Ht'); [|lia|lia|done].
      rewrite decide_False by done. split_and!; (done || lia).
Qed.

Lemma _getImageCoordinates_loop_total m : forall i0 projected v k,
  k <= i0 -> i0 + m = length v -> length projected = length v ->
  Forall (valid_framepoint s) (drop i0 v) ->
  is_Some (for_each (_getImageCoordinates_body env s world_to_camera) (seq i0 m)
                    (projected, v, k)).
Proof.
  induction m as [|m IH]; intros i0 pr v k Hk Hlen Hpr Hv; [by eexists|].
  cbn [seq]. rewrite for_each_cons.
  destruct (lookup_lt_is_Some_2 v i0) as [p Hp]; [lia|].
  rewrite (drop_S _ _ _ Hp) in Hv. apply Forall_cons in Hv as [Hfp Hv].
  assert (is_Some (_getImageCoordinates_body env s world_to_camera (pr, v, k) i0))
    as [[[pr1 v1] k1] Hb].
  { destruct (point_in_image_left_total _ Hfp) as (fp & Hfp' & Hq).
    unfold _getImageCoordinates_body. rewrite Hp. simpl. rewrite Hfp'. simpl.
    rewrite Hq. simpl. destruct (out_of_FOV env _); [by eexists|].
    unfold vec_set. rewrite !decide_True by lia. by eexists. }
  rewrite Hb. simpl.
  apply _getImageCoordinates_body_Some in Hb as (p' & Hp' & Hb); [|done..].
  assert (p' = p) as -> by congruence.
  destruct (projectable env s world_to_camera p); destruct Hb as (-> & -> & ->).
  - apply IH; rewrite ?length_insert, ?drop_insert_lt; (done || lia).
  - apply IH; (done || lia).
Qed.

End Projection.

Lemma _getImageCoordinates_Some env previous_frame_ current_frame_ s s' :
  _getImageCoordinates env previous_frame_ current_frame_ s = Some s' ->
  exists pf cf,
    WorldMap.frames (_context s) !! previous_frame_ = Some pf /\
    WorldMap.frames (_context s) !! current_frame_ = Some cf /\
    let world_to_camera :=
      Eigen.compose (robotToCamera env) (Frame.worldToRobot cf) in
    let visible :=
      filter (fun p => projectable env s world_to_camera p = true)
             (Frame.points pf) in
    s' = set_projected_image_coordinates_left
           (prediction env s world_to_camera <$> visible)
           (store_frame previous_frame_ (Frame.set_points visible pf) s).
Proof.
  unfold _getImageCoordinates. intros H.
  apply bind_Some in H as (pf & Hpf & H). apply bind_Some in H as (cf & Hcf & H).
  exists pf, cf. split_and!; [done..|].
  apply bind_Some in H as ([[pr v] k] & Hl & H). simplify_eq/=.
  apply _getImageCoordinates_loop in Hl as (Hlv & Hlp & Hk & Ht & Ht');
    [|lia|done|].
  2:{ unfold resize. rewrite length_app, length_take, length_replicate. lia. }
  rewrite take_0, drop_0 in Ht. rewrite take_0, drop_0 in Ht'.
  simpl in Ht, Ht'.
  rewrite !resize_le by lia. by rewrite Ht, Ht'.
Qed.

(** C8.  [_getImageCoordinates] predicts the image coordinates of every
    framepoint of the previous frame: [world_to_camera] applied to the
    coordinates of its landmark if it has one with validated coordinates
    and to its own world coordinates otherwise, then the left camera
    matrix, then the division by [z].  The points whose prediction is
    outside the image bounds are dropped without a trace; the previous
    frame's vector becomes, in order, exactly the points whose prediction is
    inside, and the vector of predictions is aligned with it index by
    index. *)
Theorem getImageCoordinates_keeps_the_projectable env previous_frame_
    current_frame_ s pf cf :
  WorldMap.frames (_context s) !! previous_frame_ = Some pf ->
  WorldMap.frames (_context s) !! current_frame_ = Some cf ->
  Forall (valid_framepoint s) (Frame.points pf) ->
  let world_to_camera :=
    Eigen.compose (robotToCamera env) (Frame.worldToRobot cf) in
  exists s' pf',
    _getImageCoordinates env previous_frame_ current_frame_ s = Some s' /\
    WorldMap.frames (_context s') !! previous_frame_ = Some pf' /\
    Frame.points pf'
    = filter (fun p => projectable env s world_to_camera p = true)
             (Frame.points pf) /\
    _projected_image_coordinates_left s'
    = (prediction env s world_to_camera <$> Frame.points pf') /\
    (forall i p,
       Frame.points pf' !! i = Some p ->
       exists fp,
         framepoint s p = Some fp /\
         _projected_image_coordinates_left s' !! i
         = Some (predicted_image_coordinates env s world_to_camera fp)) /\
    (forall p,
       p ∈ Frame.points pf' <->
       p ∈ Frame.points pf /\
       out_of_FOV env (prediction env s world_to_camera p) = false) /\
    (forall q,
       out_of_FOV env q = true <->
       Real.ltb (vx q) (Fin 0) = true \/
       Real.ltb (Real.of_N (_camera_cols env)) (vx q) = true \/
       Real.ltb (vy q) (Fin 0) = true \/
       Real.ltb (Real.of_N (_camera_rows env)) (vy q) = true).
Proof.
  intros Hpf Hcf Hvalid wtc.
  destruct (_getImageCoordinates_loop_total env s wtc (length (Frame.points pf)) 0
              (resize (length (Frame.points pf)) Eigen.zero3
                      (_projected_image_coordinates_left s))
              (Frame.points pf) 0) as [[[pr v] k] Hloop]; [done..| |done|].
  { unfold resize. rewrite length_app, length_take, length_replicate. lia. }
  assert (is_Some (_getImageCoordinates env previous_frame_ current_frame_ s))
    as [s' Hs'].
  { unfold _getImageCoordinates. rewrite Hpf, Hcf. simpl.
    fold wtc. rewrite Hloop. by eexists. }
  destruct (_getImageCoordinates_Some _ _ _ _ _ Hs') as (pf0 & cf0 & ? & ? & ->).
  assert (pf0 = pf) as -> by congruence. assert (cf0 = cf) as -> by congruence.
  fold wtc. eexists _, _. split; [done|]. split; [apply lookup_insert_eq|].
  split; [done|]. split; [done|]. split_and!.
  - intros i p Hp. simpl in *.
    assert (p ∈ Frame.points pf) as Hin.
    { apply list_elem_of_lookup_2 in Hp. by apply list_elem_of_filter in Hp as [_ ?]. }
    rewrite Forall_forall in Hvalid. destruct (Hvalid _ Hin) as (fp & Hfp & _).
    exists fp. split; [done|].
    rewrite list_lookup_fmap, Hp. simpl. unfold prediction. by rewrite Hfp.
  - intros p. simpl. rewrite list_elem_of_filter. unfold projectable.
    rewrite negb_true_iff. tauto.
  - intros q. unfold out_of_FOV. rewrite !orb_true_iff. tauto.
Qed.

Lemma getImageCoordinates_keeps_the_projectable_witness :
  exists s' pf',
    _getImageCoordinates (Example.e1 5) 0 1 Example.tracking = Some s' /\
    WorldMap.frames (_context s') !! 0 = Some pf' /\
    Frame.points pf' = [Some 0; Some 1; Some 2] /\
    _projected_image_coordinates_left s'
    = [mkVector3 (Fin 2) (Fin 2) (Fin 1); mkVector3 (Fin 4) (Fin 5) (Fin 1);
       mkVector3 (Fin 6) (Fin 6) (Fin 1)].
Proof.
  destruct (getImageCoordinates_keeps_the_projectable (Example.e1 5) 0 1
              Example.tracking
              (Frame.mk [Some 0; Some 1; Some 2] Eigen.Identity None Localizing)
              Example.frame_1)
    as (s' & pf' & H1 & H2 & H3 & H4 & _).
  - vm_compute. reflexivity.
  - vm_compute. reflexivity.
  - repeat first [apply Forall_nil_2 | apply Forall_cons_2];
      unfold valid_framepoint; vm_compute; eexists;
      (split; [reflexivity | left; reflexivity]).
  - exists s', pf'. split; [exact H1|]. split; [exact H2|].
    split; [rewrite H3; vm_compute; reflexivity|].
    rewrite H4, H3. vm_compute. reflexivity.
Defined.

(** ** What the steps of [compute] leave alone *)

Lemma for_each_preserves {A B X : Type} (obs : B -> X) (body : B -> A -> option B)
    (l : list A) (b b' : B) :
  (forall b x b', x ∈ l -> body b x = Some b' -> obs b' = obs b) ->
  for_each body l b = Some b' -> obs b' = obs b.
Proof.
  revert b. induction l as [|x l IH]; intros b Hbody H; [by simplify_eq/=|].
  rewrite for_each_cons in H. apply bind_Some in H as (b1 & H1 & H).
  rewrite (IH b1); [by eapply Hbody; [left|]| |done].
  intros ? ? ? ?. apply Hbody. by right.
Qed.

(** A property that every iteration maintains holds after the loop. *)
Lemma for_each_invariant {A B : Type} (P : B -> Prop) (body : B -> A -> option B)
    (l : list A) (b b' : B) :
  (forall b x b', x ∈ l -> P b -> body b x = Some b' -> P b') ->
  P b -> for_each body l b = Some b' -> P b'.
Proof.
  revert b. induction l as [|x l IH]; intros b Hbody Hb H; [by simplify_eq/=|].
  rewrite for_each_cons in H. apply bind_Some in H as (b1 & H1 & H).
  apply (IH b1); [|by eapply Hbody; [left|..]|done].
  intros ? ? ? ?. apply Hbody. by right.
Qed.

Lemma fmap_insert_same {A B} (f : A -> B) (m : gmap nat A) (a : nat) (x y : A) :
  m !! a = Some y -> f x = f y -> f <$> <[a := x]> m = f <$> m.
Proof.
  intros Hy Hf. rewrite fmap_insert. apply insert_id.
  by rewrite lookup_fmap, Hy, Hf.
Qed.

Lemma length_set_cell g row col p g' :
  set_cell g row col p = Some g' -> length <$> g' = length <$> g.
Proof.
  unfold set_cell. destruct (_ && _); [|done]. intros H.
  apply bind_Some in H as (r & Hr & H). apply bind_Some in H as (r' & Hr' & H).
  apply vec_set_Some in Hr' as [_ ->]. apply vec_set_Some in H as [_ ->].
  rewrite list_fmap_insert, length_insert. apply list_insert_id.
  by rewrite list_lookup_fmap, Hr.
Qed.

(** Taking a hypothesis [f s = Some s'] apart along the binds, the branches
    and the pairs of [f]. *)
Ltac unpack :=
  repeat match goal with
    | H : (_ ≫= _) = Some _ |- _ =>
        let x := fresh "x" in
        let Hx := fresh "Hx" in
        apply bind_Some in H as (x & Hx & H)
    | H : Some _ = Some _ |- _ => injection H as H; try subst
    | H : None = Some _ |- _ => discriminate H
    | H : (if ?c then _ else _) = Some _ |- _ => destruct c eqn:?
    | H : (match ?x with _ => _ end) = Some _ |- _ => destruct x eqn:?
    | H : (match ?x with _ => _ end) = (_, _) |- _ => destruct x eqn:?
    | H : (_, _) = (_, _) |- _ => injection H as H; try subst
    | x : (_ * _)%type |- _ => destruct x
    end.

(** The observations of [fixed] on a state built by the setters. *)
Ltac fixed_by_computation :=
  unfold fixed, shape, poses, links, store_frame, store_framepoint,
    store_landmark, set_grid, grid, context_setRobotToWorld in *;
  cbn in *;
  repeat match goal with
    | H : set_cell _ _ _ _ = Some _ |- _ => apply length_set_cell in H
    | H : ?m !! ?a = Some _ |- context [_ <$> <[?a := _]> ?m] =>
        rewrite !(fmap_insert_same _ m a _ _ H) by done
    | H : ?m !! ?a = Some _, H' : context [_ <$> <[?a := _]> ?m] |- _ =>
        rewrite !(fmap_insert_same _ m a _ _ H) in H' by done
    end;
  try congruence.

Section Fixed.

Variable env : Environment.

Lemma refresh_world_coordinates_fixed frame_to_world s p s' :
  refresh_world_coordinates frame_to_world s p = Some s' -> fixed s' = fixed s.
Proof. unfold refresh_world_coordinates. intros H. unpack. fixed_by_computation. Qed.

Lemma updatePoints_fixed current_frame s s' :
  updatePoints current_frame s = Some s' -> fixed s' = fixed s.
Proof.
  unfold updatePoints. intros H. unpack.
  eapply for_each_preserves; [|done].
  intros ? ? ? _. apply refresh_world_coordinates_fixed.
Qed.

Lemma _updateLandmarks_body_fixed frame_to_world s p s' :
  _updateLandmarks_body env frame_to_world s p = Some s' -> fixed s' = fixed s.
Proof.
  unfold _updateLandmarks_body, createLandmark. intros H. unpack;
    fixed_by_computation.
Qed.

Lemma _updateLandmarks_fixed frame_ s s' :
  _updateLandmarks env frame_ s = Some s' -> fixed s' = fixed s.
Proof.
  unfold _updateLandmarks. intros H. unpack.
  eapply for_each_preserves; [|done].
  intros ? ? ? _. apply _updateLandmarks_body_fixed.
Qed.

Lemma _pruneFramepoints_fixed frame_ s s' :
  _pruneFramepoints frame_ s = Some s' -> fixed s' = fixed s.
Proof.
  intros H. apply _pruneFramepoints_Some in H as (f & Hf & ->).
  fixed_by_computation.
Qed.

Lemma _recoverPoints_body_fixed current_frame_ s i pp s' i' :
  _recoverPoints_body env current_frame_ (s, i) pp = Some (s', i') ->
  fixed s' = fixed s.
Proof.
  unfold _recoverPoints_body. intros H. unpack; fixed_by_computation.
Qed.

Lemma _recoverPoints_fixed current_frame_ s s' :
  _recoverPoints env current_frame_ s = Some s' -> fixed s' = fixed s.
Proof.
  unfold _recoverPoints. intros H. unpack.
  match goal with H : for_each _ _ _ = Some _ |- _ =>
    apply (for_each_preserves (fun st => fixed st.1)) in H end.
  - simpl in *. fixed_by_computation.
  - intros [] ? [] _. apply _recoverPoints_body_fixed.
Qed.

Lemma _addNewFramepoints_body_fixed frame_ frame_to_world row s i col s' i' :
  _addNewFramepoints_body frame_ frame_to_world row (s, i) col = Some (s', i') ->
  fixed s' = fixed s.
Proof.
  unfold _addNewFramepoints_body, refresh_world_coordinates. intros H.
  unpack; fixed_by_computation.
Qed.

Lemma _addNewFramepoints_fixed frame_ s s' :
  _addNewFramepoints env frame_ s = Some s' -> fixed s' = fixed s.
Proof.
  unfold _addNewFramepoints. intros H. unpack.
  match goal with H : for_each _ _ _ = Some _ |- _ =>
    apply (for_each_preserves (fun st => fixed st.1)) in H end.
  - simpl in *. fixed_by_computation.
  - intros [] ? [] _ H'.
    apply (for_each_preserves (fun st => fixed st.1)) in H'; [done|].
    intros [] ? [] _. apply _addNewFramepoints_body_fixed.
Qed.

End Fixed.

Lemma fixed_eq s' s :
  fixed s' = fixed s ->
  _status s' = _status s /\ _status_previous s' = _status_previous s /\
  _pose_optimizer s' = _pose_optimizer s /\ shape s' = shape s /\
  poses s' = poses s /\ links s' = links s /\
  _motion_previous_to_current_robot s' = _motion_previous_to_current_robot s /\
  WorldMap.currentFrame (_context s') = WorldMap.currentFrame (_context s).
Proof. unfold fixed. intros [= -> -> -> -> -> -> -> ->]. done. Qed.

Section Prior.

Variable env : Environment.

Lemma reset_currently_tracked_fixed s s' :
  reset_currently_tracked s = Some s' -> fixed s' = fixed s.
Proof.
  unfold reset_currently_tracked. intros H. unpack.
  match goal with H : for_each _ _ _ = Some _ |- _ =>
    apply (for_each_preserves fixed) in H end.
  - fixed_by_computation.
  - intros ? ? ? _ H'. unpack. fixed_by_computation.
Qed.

Lemma commit_fixed current_frame_ pp previous_point b s s' :
  commit current_frame_ pp previous_point b s = Some s' -> fixed s' = fixed s.
Proof.
  unfold commit. intros H. unpack; repeat case_match; fixed_by_computation.
Qed.

Lemma no_match_found_fixed pp previous_point s s' :
  no_match_found pp previous_point s = Some s' -> fixed s' = fixed s.
Proof. unfold no_match_found. intros H. unpack; fixed_by_computation. Qed.

Lemma _trackFramepoints_body_fixed previous_frame_ current_frame_ s i s' :
  _trackFramepoints_body env previous_frame_ current_frame_ s i = Some s' ->
  fixed s' = fixed s.
Proof.
  unfold _trackFramepoints_body. intros H. unpack;
    eauto using commit_fixed, no_match_found_fixed.
Qed.

Lemma _getImageCoordinates_fixed previous_frame_ current_frame_ s s' :
  _getImageCoordinates env previous_frame_ current_frame_ s = Some s' ->
  fixed s' = fixed s.
Proof.
  intros H. apply _getImageCoordinates_Some in H as (pf & cf & Hpf & Hcf & ->).
  fixed_by_computation.
Qed.

Lemma _trackFramepoints_fixed previous_frame_ current_frame_ s s' :
  _trackFramepoints env previous_frame_ current_frame_ s = Some s' ->
  fixed s' = fixed s.
Proof.
  unfold _trackFramepoints. intros H. unpack.
  match goal with H : _getImageCoordinates _ _ _ _ = Some _ |- _ =>
    apply _getImageCoordinates_fixed in H end.
  match goal with H : for_each _ _ _ = Some _ |- _ =>
    apply (for_each_preserves fixed) in H;
    [|intros ? ? ? _; apply _trackFramepoints_body_fixed] end.
  fixed_by_computation.
Qed.

(** The generator leaves a grid of [numberOfRowsImage] rows of
    [numberOfColsImage] cells. *)
Lemma populate_row_length robot_to_world image_row cols m :
  length (populate_row robot_to_world image_row cols m).1 = length cols.
Proof.
  revert m. induction cols as [|c cols IH]; intros m; [done|].
  cbn [populate_row]. destruct (allocate _ _ _) as [p m1]. specialize (IH m1).
  destruct (populate_row _ _ _ m1). cbn [fst length] in *. by rewrite IH.
Qed.

Lemma populate_shape robot_to_world image rows cols m :
  length <$> (populate robot_to_world image rows cols m).1
  = replicate (length rows) (length cols).
Proof.
  revert m. induction rows as [|r rows IH]; intros m; [done|].
  cbn [populate].
  pose proof (populate_row_length robot_to_world (image r) cols m) as Hr.
  destruct (populate_row _ _ _ m) as [row m1]. specialize (IH m1).
  destruct (populate _ _ _ _ m1). cbn [fst length replicate] in *.
  by rewrite fmap_cons, IH, Hr.
Qed.

Lemma generator_compute_Some current_frame s s' :
  generator_compute env current_frame s = Some s' ->
  _status s' = _status s /\ _status_previous s' = _status_previous s /\
  _context s' = _context s /\ _pose_optimizer s' = _pose_optimizer s /\
  _motion_previous_to_current_robot s' = _motion_previous_to_current_robot s /\
  shape s' = replicate (numberOfRowsImage env) (numberOfColsImage env).
Proof.
  unfold generator_compute. intros H. unpack. split_and!; try done.
  unfold shape, grid. cbn.
  match goal with H : populate ?a ?b ?c ?d ?e = _ |- _ =>
    pose proof (populate_shape a b c d e) as Hs; rewrite H in Hs end.
  by rewrite !length_seq in Hs.
Qed.

Lemma priors_fixed s :
  let s' := motion_model (odometry_prior s) in
  _status s' = _status s /\ _status_previous s' = _status_previous s /\
  WorldMap.currentFrame (_context s') = WorldMap.currentFrame (_context s) /\
  WorldMap.frames (_context s') = WorldMap.frames (_context s) /\
  WorldMap.next_frame (_context s') = WorldMap.next_frame (_context s).
Proof.
  unfold motion_model, odometry_prior. repeat case_match; cbn in *; done.
Qed.

(** Up to the [switch]: the status is the one [compute] was entered with,
    the new frame is the current frame of the world map, and the grid has the
    generator's shape. *)
Lemma compute_prior_Some s current_frame s1 :
  compute_prior env s = Some (current_frame, s1) ->
  _status s1 = _status s /\ _status_previous s1 = _status_previous s /\
  shape s1 = replicate (numberOfRowsImage env) (numberOfColsImage env) /\
  WorldMap.currentFrame (_context s1) = Some current_frame /\
  exists f, WorldMap.frames (_context s1) !! current_frame = Some f /\
            Frame.previous f = WorldMap.currentFrame (_context s) /\
            (Frame.previous f = None -> Frame.points f = []).
Proof.
  unfold compute_prior. intros H.
  apply bind_Some in H as (s0 & H0 & H).
  apply reset_currently_tracked_fixed in H0.
  destruct (priors_fixed s0) as (Hp1 & Hp2 & Hp3 & Hp4 & Hp5).
  destruct (_makeFrame _) as [a sa] eqn:Hmk.
  apply bind_Some in H as (sg & Hg & H).
  apply bind_Some in H as (cf & Hcf & H).
  apply bind_Some in H as (st & Ht & H).
  assert (a = current_frame) as -> by congruence.
  assert (st = s1) as -> by congruence. clear H.
  apply generator_compute_Some in Hg as (Hg1 & Hg2 & Hg3 & Hg4 & Hg5 & Hg6).
  unfold _makeFrame in Hmk. injection Hmk as Ha Hsa.
  set (sp := set_number_of_potential_points _ sg) in *.
  assert (fixed s1 = fixed sp /\ (Frame.previous cf = None -> s1 = sp))
    as [Hfix Hnone].
  { destruct (Frame.previous cf) as [pa|]; [|by simplify_eq].
    split; [|done]. by eapply _trackFramepoints_fixed. }
  clear Ht.
  assert (WorldMap.frames (_context sp) !! current_frame = Some cf) as Hcf'
    by done.
  assert (Frame.previous cf = WorldMap.currentFrame (_context s) /\
          Frame.points cf = []) as [Hprev Hpts].
  { subst sp. cbn in Hcf. rewrite Hg3, <- Hsa in Hcf. cbn in Hcf.
    rewrite Ha, lookup_insert_eq in Hcf. injection Hcf as <-. cbn.
    split; [|done]. rewrite Hp3.
    by apply fixed_eq in H0 as (_ & _ & _ & _ & _ & _ & _ & ?). }
  clear Hcf.
  assert (_context sp = _context sa /\ _status sp = _status sa /\
          _status_previous sp = _status_previous sa /\ shape sp = shape sg)
    as (Hc & Hs1 & Hs2 & Hs3) by (subst sp; cbn; done).
  subst sa.
  apply fixed_eq in Hfix as (Hf1 & Hf2 & Hf3 & Hf4 & Hf5 & Hf6 & Hf7 & Hf8).
  apply fixed_eq in H0 as (H01 & H02 & H03 & H04 & H05 & H06 & H07 & H08).
  cbn in *.
  split_and!.
  - congruence.
  - congruence.
  - congruence.
  - rewrite Hf8, Hc. cbn. by rewrite Ha.
  - assert (links s1 !! current_frame = Some (Frame.previous cf)) as Hl.
    { replace (links s1) with (links sp) by congruence.
      unfold links, sp. cbn. by rewrite lookup_fmap, Hcf'. }
    unfold links in Hl. rewrite lookup_fmap in Hl.
    destruct (WorldMap.frames (_context s1) !! current_frame) as [f|] eqn:Hf;
      [|done].
    exists f. simpl in Hl. injection Hl as Hl. split; [done|].
    split; [congruence|].
    intros Hn. rewrite Hl in Hn. rewrite (Hnone Hn) in Hf.
    unfold sp in Hf. cbn in Hf. congruence.
Qed.

End Prior.

(** ** The weight of the framepoints *)

Section Weight.

Local Open Scope Q_scope.

Lemma weight_framepoint_finite s :
  (0 < _number_of_tracked_points s)%N ->
  exists q, weight_framepoint s = Fin (Qred q) /\ q == 1 - landmark_ratio s.
Proof.
  intros Ht. unfold weight_framepoint, landmark_ratio, Real.sub, Real.div,
    Real.of_N, Real.of_Z.
  destruct (Qeq_bool _ 0) eqn:Hz.
  { apply Qeq_bool_iff in Hz. unfold Qeq in Hz. simpl in Hz. lia. }
  simpl. eexists. split; [done|]. by rewrite !Qred_correct.
Qed.

Lemma landmark_ratio_nonneg s :
  (0 < _number_of_tracked_points s)%N -> 0 <= landmark_ratio s.
Proof.
  intros Ht. unfold landmark_ratio. apply Qle_shift_div_l.
  - unfold Qlt. simpl. lia.
  - unfold Qle. simpl. lia.
Qed.

Lemma landmark_ratio_ge s (a b : Z) :
  (0 < _number_of_tracked_points s)%N -> (0 < b)%Z ->
  (a # Z.to_pos b) <= landmark_ratio s <->
  (a * Z.of_N (_number_of_tracked_points s)
   <= b * Z.of_N (_number_of_tracked_landmarks_far s
                  + 7 * _number_of_tracked_landmarks_close s))%Z.
Proof.
  intros Ht Hb. unfold landmark_ratio.
  set (n := Z.of_N (_ + _)). set (t := Z.of_N _).
  assert (0 < t)%Z by lia.
  assert (0 < inject_Z t) by (unfold Qlt; simpl; lia).
  split.
  - intros H'. apply (Qmult_le_compat_r _ _ (inject_Z t)) in H'; [|by apply Qlt_le_weak].
    unfold Qdiv in H'. rewrite <- Qmult_assoc, (Qmult_comm (/ _)), Qmult_inv_r, Qmult_1_r in H'
      by (intros E; rewrite E in *; by apply (Qlt_irrefl 0)).
    unfold Qle in H'. simpl in H'. rewrite Pos.mul_1_r, Z2Pos.id in H' by done.
    lia.
  - intros H'. apply Qle_shift_div_l; [done|].
    unfold Qle. simpl. rewrite ?Pos.mul_1_r, Z2Pos.id by done. lia.
Qed.

End Weight.

(** ** The branches of [compute] *)

Section Branches.

Variable env : Environment.

Lemma accept_or_keep_Some current_frame previous_frame s s' :
  accept_or_keep env current_frame previous_frame s = Some s' ->
  exists f,
    WorldMap.frames (_context s) !! current_frame = Some f /\
    s' = if significant (delta_angular env s) (delta_translational env s)
         then store_frame current_frame
                (Frame.setRobotToWorld
                   (PoseOptimizer.robotToWorld (_pose_optimizer s)) f) s
         else set_motion_previous_to_current_robot Eigen.Identity
                (store_frame current_frame
                   (Frame.setRobotToWorld (Frame.robotToWorld previous_frame) f)
                   s).
Proof.
  unfold accept_or_keep, frame_setRobotToWorld. intros H.
  destruct (significant _ _); unpack; eexists; done.
Qed.

Lemma frame_setStatus_fixed a st s s' :
  frame_setStatus a st s = Some s' -> fixed s' = fixed s.
Proof. unfold frame_setStatus. intros H. unpack. fixed_by_computation. Qed.

Lemma update_context_position_fixed current_frame s s' :
  update_context_position current_frame s = Some s' -> fixed s' = fixed s.
Proof. unfold update_context_position. intros H. unpack. fixed_by_computation. Qed.

Lemma add_new_framepoints_fixed current_frame s s' :
  add_new_framepoints env current_frame s = Some s' -> fixed s' = fixed s.
Proof.
  unfold add_new_framepoints. intros H. unpack.
  match goal with H : _addNewFramepoints _ _ _ = Some _ |- _ =>
    apply _addNewFramepoints_fixed in H end.
  match goal with H : frame_setStatus _ _ _ = Some _ |- _ =>
    apply frame_setStatus_fixed in H end.
  fixed_by_computation.
Qed.

(** When the track is kept, everything after the acceptance test leaves the
    optimizer, the poses and the motion as the test left them. *)
Lemma keep_track_Some current_frame previous_frame s s' :
  keep_track env current_frame previous_frame s = Some s' ->
  exists sa,
    accept_or_keep env current_frame previous_frame s = Some sa /\
    _status s' = Tracking /\ _status_previous s' = _status s /\
    _pose_optimizer s' = _pose_optimizer s /\ shape s' = shape s /\
    poses s' = poses sa /\ links s' = links s /\
    _motion_previous_to_current_robot s' = _motion_previous_to_current_robot sa.
Proof.
  unfold keep_track. intros H.
  apply bind_Some in H as (sa & Ha & H). exists sa. split; [done|].
  apply bind_Some in H as (s2 & E2 & H). apply _pruneFramepoints_fixed in E2.
  apply bind_Some in H as (s3 & E3 & H). apply (_recoverPoints_fixed env) in E3.
  apply bind_Some in H as (s4 & E4 & H). apply update_context_position_fixed in E4.
  apply bind_Some in H as (s5 & E5 & H). apply (_updateLandmarks_fixed env) in E5.
  injection H as <-.
  apply fixed_eq in E2 as (A1&A2&A3&A4&A5&A6&A7&A8).
  apply fixed_eq in E3 as (B1&B2&B3&B4&B5&B6&B7&B8).
  apply fixed_eq in E4 as (C1&C2&C3&C4&C5&C6&C7&C8).
  apply fixed_eq in E5 as (D1&D2&D3&D4&D5&D6&D7&D8).
  apply accept_or_keep_Some in Ha as (f & Hf & ->).
  destruct (significant _ _); cbn; split_and!; try congruence;
    fixed_by_computation.
Qed.

(** Lines 170-183, field by field *)
Lemma lost_track_Some current_frame previous_frame s s' :
  lost_track current_frame previous_frame s = Some s' ->
  _status s' = Localizing /\ _status_previous s' = Localizing /\
  _pose_optimizer s' = _pose_optimizer s /\
  grid s' = map (map (fun _ => None)) (grid s) /\
  WorldMap.currentlyTrackedLandmarks (_context s') = [] /\
  WorldMap.robotToWorld (_context s') = Frame.robotToWorld previous_frame /\
  _motion_previous_to_current_robot s' = Eigen.Identity /\
  WorldMap.landmarks (_context s') = WorldMap.landmarks (_context s) /\
  WorldMap.next_landmark (_context s') = WorldMap.next_landmark (_context s) /\
  links s' = links s /\
  WorldMap.currentFrame (_context s') = WorldMap.currentFrame (_context s) /\
  exists f,
    WorldMap.frames (_context s) !! current_frame = Some f /\
    WorldMap.frames (_context s')
    = <[current_frame :=
          Frame.mk [] (Frame.robotToWorld previous_frame) (Frame.previous f)
                   Localizing]> (WorldMap.frames (_context s)) /\
    framepoints s'
    = foldr (fun p m => match p with Some a => delete a m | None => m end)
            (framepoints s) (Frame.points f).
Proof.
  unfold lost_track, frame_setStatus, releasePoints, frame_setRobotToWorld,
    update_context_position, clearFramepointsInImage. intros H. unpack.
  cbn in *. rewrite ?lookup_insert_eq in *. simplify_eq. cbn.
  split_and!; try done.
  - unfold links. cbn. rewrite !insert_insert_eq.
    by erewrite fmap_insert_same.
  - eexists. split; [done|]. by rewrite !insert_insert_eq.
Qed.

(** The Tracking branch, with what follows the [switch]: the optimizer is
    given the clamped weight; with too few inliers the track is lost,
    otherwise it is kept and the new framepoints are added. *)
Lemma compute_Tracking_Some current_frame s s' :
  compute_Tracking env current_frame s = Some s' ->
  let so := optimize env current_frame
              (Real.std_max (weight_framepoint s) (Fin (1 # 10))) s in
  exists cf pa pf,
    WorldMap.frames (_context so) !! current_frame = Some cf /\
    Frame.previous cf = Some pa /\
    WorldMap.frames (_context so) !! pa = Some pf /\
    let sm := resulting_motion pf so in
    _pose_optimizer s' = _pose_optimizer so /\
    if (PoseOptimizer.numberOfInliers (_pose_optimizer so)
        <? _minimum_number_of_landmarks_to_track env)%N
    then lost_track current_frame pf sm = Some s'
    else exists sk,
           keep_track env current_frame pf sm = Some sk /\
           add_new_framepoints env current_frame sk = Some s'.
Proof.
  intros H so. unfold compute_Tracking in H. fold so in H.
  apply bind_Some in H as (cf & Hcf & H). apply bind_Some in H as (pf & Hpf & H).
  unfold frame in Hpf. destruct (Frame.previous cf) as [pa|] eqn:Hpa; [|done].
  simpl in Hpf. exists cf, pa, pf. split_and!; try done.
  cbn [resulting_motion _pose_optimizer set_motion_previous_to_current_robot] in *.
  destruct (_ <? _)%N.
  - split; [|done]. by apply lost_track_Some in H as (_ & _ & -> & _).
  - apply bind_Some in H as (sk & Hk & H). split; [|by exists sk].
    apply add_new_framepoints_fixed, fixed_eq in H as (_ & _ & -> & _).
    by apply keep_track_Some in Hk as (? & _ & _ & _ & -> & _).
Qed.

End Branches.

Lemma lookup_released (points : list (option nat)) (m : gmap nat FramePoint.t) a :
  Some a ∈ points ->
  foldr (fun p m => match p with Some a => delete a m | None => m end) m points
  !! a = None.
Proof.
  induction points as [|p points IH]; intros Hin; [by apply elem_of_nil in Hin|].
  apply elem_of_cons in Hin as [<- | Hin]; simpl.
  - apply lookup_delete_eq.
  - destruct p as [b|]; [|by apply IH].
    destruct (decide (b = a)) as [->|]; [apply lookup_delete_eq|].
    rewrite lookup_delete_ne by done. by apply IH.
Qed.

(** C1.  When [compute] runs in the Tracking state and the pose optimizer
    returns fewer inliers than [_minimum_number_of_landmarks_to_track], the
    status becomes Localizing, the framepoints of the current frame are
    released and its vector is empty, every cell of the generator's grid is
    empty, the set of currently tracked landmarks is empty, the current
    frame has the pose of the previous frame and so has the world map, the
    motion is the identity, and [compute] returns with the landmarks as they
    were at the [switch] and without new framepoints in the frame. *)
Theorem compute_loses_track env s s' :
  _status s = Tracking ->
  compute env s = Some s' ->
  (PoseOptimizer.numberOfInliers (_pose_optimizer s')
   < _minimum_number_of_landmarks_to_track env)%N ->
  exists current_frame s1 f1 f' pf,
    compute_prior env s = Some (current_frame, s1) /\
    WorldMap.frames (_context s1) !! current_frame = Some f1 /\
    WorldMap.currentFrame (_context s') = Some current_frame /\
    WorldMap.frames (_context s') !! current_frame = Some f' /\
    _status s' = Localizing /\ _status_previous s' = Localizing /\
    Frame.status f' = Localizing /\
    Frame.points f' = [] /\
    (forall a, Some a ∈ Frame.points f1 -> framepoints s' !! a = None) /\
    Forall (Forall (fun p => p = None)) (grid s') /\
    WorldMap.currentlyTrackedLandmarks (_context s') = [] /\
    Frame.previous f' = WorldMap.currentFrame (_context s) /\
    frame s' (Frame.previous f') = Some pf /\
    Frame.robotToWorld f' = Frame.robotToWorld pf /\
    WorldMap.robotToWorld (_context s') = Frame.robotToWorld pf /\
    _motion_previous_to_current_robot s' = Eigen.Identity /\
    WorldMap.landmarks (_context s') = WorldMap.landmarks (_context s1) /\
    WorldMap.next_landmark (_context s') = WorldMap.next_landmark (_context s1).
Proof.
  intros Hstatus Hc Hinl. unfold compute in Hc.
  apply bind_Some in Hc as ([cf s1] & Hprior & Hc). simpl in Hc.
  destruct (compute_prior_Some env _ _ _ Hprior)
    as (Hs1 & _ & Hshape & Hcur & f1 & Hf1 & Hprev1 & _).
  rewrite Hs1, Hstatus in Hc.
  apply compute_Tracking_Some in Hc
    as (f & pa & pf & Hf & Hpa & Hpf & Hopt & Hc).
  cbn in Hf, Hpf.
  assert (f = f1) as -> by congruence.
  rewrite Hopt in Hinl. apply N.ltb_lt in Hinl. rewrite Hinl in Hc.
  apply lost_track_Some in Hc
    as (E1 & E2 & E3 & E4 & E5 & E6 & E7 & E8 & E9 & E10 & E13 & f0 & Hf0 & E11
        & E12).
  cbn in Hf0, E8, E9, E11, E12, E13. assert (f0 = f1) as -> by congruence.
  exists cf, s1, f1, (Frame.mk [] (Frame.robotToWorld pf) (Frame.previous f1) Localizing).
  assert (exists pf', frame s' (Some pa) = Some pf' /\
                      Frame.robotToWorld pf' = Frame.robotToWorld pf)
    as (pf' & Hpf' & Hpose).
  { unfold frame. simpl. rewrite E11.
    destruct (decide (cf = pa)) as [->|Hne].
    - rewrite lookup_insert_eq. by eexists.
    - rewrite lookup_insert_ne by done. by eexists. }
  exists pf'. split_and!; try done.
  - by rewrite E13.
  - rewrite E11. apply lookup_insert_eq.
  - intros a Ha. rewrite E12. by apply lookup_released.
  - rewrite E4. apply Forall_forall. intros r (r0 & -> & _)%list_elem_of_fmap.
    apply Forall_forall. by intros p (? & -> & _)%list_elem_of_fmap.
  - simpl. by rewrite Hpa.
  - by rewrite E6, Hpose.
Qed.

Lemma compute_loses_track_witness :
  let s' := Example.after (Example.e1 0) Example.tracking in
  _status s' = Localizing /\
  (Frame.points <$> frame s' (WorldMap.currentFrame (_context s'))) = Some [] /\
  occupied (grid s') = [] /\
  _motion_previous_to_current_robot s' = Eigen.Identity.
Proof.
  destruct (compute_loses_track (Example.e1 0) Example.tracking
              (Example.after (Example.e1 0) Example.tracking))
    as (cf & s1 & f1 & f' & pf & _ & _ & Hcur & Hf' & Hst & _ & _ & Hpts & _ & Hg
        & _ & _ & _ & _ & _ & Hm & _).
  - vm_compute. reflexivity.
  - vm_compute. reflexivity.
  - vm_compute. reflexivity.
  - split_and!; [exact Hst| | |exact Hm].
    + rewrite Hcur. simpl. rewrite Hf'. simpl. by rewrite Hpts.
    + vm_compute. reflexivity.
Defined.

Section Localizing.

Variable env : Environment.

Lemma localizing_pose_Some current_frame s sp :
  localizing_pose env current_frame s = Some sp ->
  exists f,
    WorldMap.frames (_context s) !! current_frame = Some f /\
    match Frame.previous f with
    | None => sp = s
    | Some pa =>
        let so := optimize env current_frame (Fin 1) s in
        if (2 * _minimum_number_of_landmarks_to_track env
            <? PoseOptimizer.numberOfInliers (_pose_optimizer so))%N
        then exists pf sa,
               WorldMap.frames (_context so) !! pa = Some pf /\
               accept_or_keep env current_frame pf (resulting_motion pf so)
               = Some sa /\
               update_context_position current_frame sa = Some sp
        else sp = so
    end.
Proof.
  unfold localizing_pose. intros H.
  apply bind_Some in H as (f & Hf & H). exists f. split; [done|].
  destruct (Frame.previous f) as [pa|]; [|by simplify_eq]. simpl.
  destruct (_ <? _)%N; [|by simplify_eq].
  apply bind_Some in H as (pf & Hpf & H). apply bind_Some in H as (sa & Ha & H).
  by exists pf, sa.
Qed.

Lemma compute_Localizing_Some current_frame s s2 :
  compute_Localizing env current_frame s = Some s2 ->
  exists sp f n,
    localizing_pose env current_frame s = Some sp /\
    WorldMap.frames (_context sp) !! current_frame = Some f /\
    countPoints sp f (minimumTrackLengthForLandmarkCreation env) = Some n /\
    if (_minimum_number_of_landmarks_to_track env <? n)%N
    then exists su,
           _updateLandmarks env current_frame sp = Some su /\
           s2 = set_status Tracking (set_status_previous (_status su) su)
    else updatePoints current_frame sp = Some s2.
Proof.
  unfold compute_Localizing. intros H.
  apply bind_Some in H as (sp & Hsp & H). apply bind_Some in H as (f & Hf & H).
  apply bind_Some in H as (n & Hn & H). exists sp, f, n. split_and!; try done.
  destruct (_ <? _)%N; [|done].
  apply bind_Some in H as (su & Hsu & H). exists su. by simplify_eq.
Qed.

(** The pose test leaves the status, the links and the framepoint vectors of
    the frames alone. *)
Lemma localizing_pose_keeps current_frame s sp :
  localizing_pose env current_frame s = Some sp ->
  _status sp = _status s /\ _status_previous sp = _status_previous s /\
  shape sp = shape s /\ links sp = links s /\
  (Frame.points <$> WorldMap.frames (_context sp))
  = (Frame.points <$> WorldMap.frames (_context s)) /\
  framepoints sp = framepoints s /\
  WorldMap.landmarks (_context sp) = WorldMap.landmarks (_context s).
Proof.
  intros H. apply localizing_pose_Some in H as (f & Hf & H).
  destruct (Frame.previous f) as [pa|]; [|by subst]. simpl in H.
  destruct (_ <? _)%N; [|by subst].
  destruct H as (pf & sa & Hpf & Ha & Hu).
  apply accept_or_keep_Some in Ha as (f0 & Hf0 & ->).
  unfold update_context_position in Hu. unpack.
  destruct (significant _ _); cbn in *; split_and!; try done;
    unfold links; cbn; by erewrite fmap_insert_same.
Qed.

Lemma countPoints_nil s f min_track_length :
  Frame.points f = [] -> countPoints s f min_track_length = Some 0%N.
Proof. unfold countPoints. by intros ->. Qed.

Lemma refresh_world_coordinates_context frame_to_world s p s' :
  refresh_world_coordinates frame_to_world s p = Some s' ->
  _context s' = _context s.
Proof. unfold refresh_world_coordinates. intros H. by unpack. Qed.

Lemma updatePoints_context current_frame s s' :
  updatePoints current_frame s = Some s' -> _context s' = _context s.
Proof.
  unfold updatePoints. intros H. unpack.
  eapply (for_each_preserves _context); [|done].
  intros ? ? ? _. apply refresh_world_coordinates_context.
Qed.

End Localizing.

(** C2 (as amended).  The tracker goes from Localizing to Tracking exactly
    when the number of framepoints of the current frame whose track length
    is at least the minimum for landmark creation exceeds
    [_minimum_number_of_landmarks_to_track], counted after the pose update
    of the Localizing branch, whether or not the optimizer's solution was
    acceptable; this happens only on a frame that has a previous frame.  The
    transition goes with the landmark promotion; otherwise the framepoints'
    data are recomputed, the world map is left alone and the status stays
    Localizing. *)
Theorem localizing_to_tracking_iff_enough_good_points env s s' :
  _status s = Localizing ->
  compute env s = Some s' ->
  exists current_frame s1 sp f number_of_good_points,
    compute_prior env s = Some (current_frame, s1) /\
    localizing_pose env current_frame s1 = Some sp /\
    WorldMap.frames (_context sp) !! current_frame = Some f /\
    countPoints sp f (minimumTrackLengthForLandmarkCreation env)
    = Some number_of_good_points /\
    (_status s' = Tracking <->
     (_minimum_number_of_landmarks_to_track env < number_of_good_points)%N) /\
    ((_minimum_number_of_landmarks_to_track env < number_of_good_points)%N ->
     is_Some (Frame.previous f) /\
     exists su,
       _updateLandmarks env current_frame sp = Some su /\
       add_new_framepoints env current_frame
         (set_status Tracking (set_status_previous Localizing su)) = Some s') /\
    (~ (_minimum_number_of_landmarks_to_track env < number_of_good_points)%N ->
     _status s' = Localizing /\
     exists su,
       updatePoints current_frame sp = Some su /\
       _context su = _context sp /\
       add_new_framepoints env current_frame su = Some s').
Proof.
  intros Hstatus Hc. unfold compute in Hc.
  apply bind_Some in Hc as ([cf s1] & Hprior & Hc). simpl in Hc.
  destruct (compute_prior_Some env _ _ _ Hprior)
    as (Hs1 & _ & _ & _ & f1 & Hf1 & _ & Hnil).
  rewrite Hs1, Hstatus in Hc.
  apply bind_Some in Hc as (s2 & Hl & Hadd).
  apply compute_Localizing_Some in Hl as (sp & f & n & Hsp & Hf & Hn & Hl).
  exists cf, s1, sp, f, n. split_and!; try done.
  - pose proof (localizing_pose_keeps env _ _ _ Hsp) as (Hk & _).
    pose proof (add_new_framepoints_fixed env _ _ _ Hadd) as Hfix.
    apply fixed_eq in Hfix as (-> & _).
    destruct (_ <? _)%N eqn:Hlt.
    + destruct Hl as (su & _ & ->). apply N.ltb_lt in Hlt. done.
    + apply updatePoints_fixed, fixed_eq in Hl as (-> & _).
      apply N.ltb_ge in Hlt. rewrite Hk, Hs1, Hstatus. split; [done|lia].
  - intros Hlt. split.
    + destruct (Frame.previous f) as [pa|] eqn:Hp; [done|].
      pose proof (localizing_pose_keeps env _ _ _ Hsp) as (_ & _ & _ & Hlinks & _).
      apply localizing_pose_Some in Hsp as (f1' & Hf1' & Hsp).
      assert (f1' = f1) as -> by congruence.
      destruct (Frame.previous f1) as [pa|] eqn:Hp1.
      * exfalso.
        apply (f_equal (fun l => l !! cf)) in Hlinks. unfold links in Hlinks.
        rewrite !lookup_fmap, Hf, Hf1 in Hlinks. simpl in Hlinks. congruence.
      * subst sp. assert (f = f1) as -> by congruence.
        rewrite countPoints_nil in Hn by auto. simplify_eq. lia.
    + apply N.ltb_lt in Hlt. rewrite Hlt in Hl. destruct Hl as (su & Hsu & ->).
      exists su. split; [done|].
      assert (_status su = Localizing) as Hsu'.
      { apply _updateLandmarks_fixed, fixed_eq in Hsu as (-> & _).
        pose proof (localizing_pose_keeps env _ _ _ Hsp) as (-> & _).
        by rewrite Hs1. }
      by rewrite Hsu' in Hadd.
  - intros Hge. apply N.ltb_nlt in Hge. rewrite Hge in Hl. split.
    + apply add_new_framepoints_fixed, fixed_eq in Hadd as (-> & _).
      pose proof (updatePoints_fixed _ _ _ Hl) as Hfix.
      apply fixed_eq in Hfix as (-> & _).
      pose proof (localizing_pose_keeps env _ _ _ Hsp) as (-> & _).
      by rewrite Hs1.
    + exists s2. split_and!; [done| |done]. by eapply updatePoints_context.
Qed.

Lemma localizing_to_tracking_iff_enough_good_points_witness :
  _status (Example.after (Example.e1 0) Example.before_second_frame) = Tracking.
Proof.
  destruct (localizing_to_tracking_iff_enough_good_points (Example.e1 0)
              Example.before_second_frame
              (Example.after (Example.e1 0) Example.before_second_frame))
    as (cf & s1 & sp & f & n & _ & _ & _ & _ & _ & _ & _).
  - vm_compute. reflexivity.
  - vm_compute. reflexivity.
  - vm_compute. reflexivity.
Defined.

(** C2, as stated, fails: on the second frame the optimizer reports no
    inlier, so that its solution is not acceptable, and the three
    framepoints tracked from the first frame, of track length 2, still take
    the tracker to Tracking. *)
Lemma localizing_to_tracking_without_acceptable_pose :
  ~ localizing_to_tracking_only_after_acceptable_pose (Example.e1 0).
Proof.
  intros H.
  specialize (H Example.before_second_frame
                (Example.after (Example.e1 0) Example.before_second_frame)).
  vm_compute in H. specialize (H eq_refl eq_refl eq_refl). discriminate H.
Qed.

(** ** The acceptance of the optimizer's pose *)





(** C9, as stated, fails in the Localizing branch: with no more inliers than
    [2 * _minimum_number_of_landmarks_to_track] the test of line 111 is not
    reached.  Here the odometry has moved by one unit, the optimizer reports
    2 inliers for a minimum of 1 and returns the pose of the previous frame,
    a motion of no magnitude; the frame keeps the pose the odometry
    predicted and the motion is not reset. *)
Lemma insignificant_motion_with_few_inliers_keeps_the_prior :
  ~ insignificant_motion_keeps_the_previous_pose (Drift.e 2).
Proof.
  intros H.
  destruct (H Drift.with_odometry
              (Example.after (Drift.e 2) Drift.with_odometry)
              1
              (Example.at_switch (Drift.e 2) Drift.with_odometry).2
              (Frame.mk [Some 3; Some 4; Some 5] Drift.step (Some 0) Localizing)
              0
              (Frame.mk [Some 0; Some 1; Some 2] Eigen.Identity None Localizing))
    as (f' & Hf' & Hpose & Hmotion); [vm_compute; reflexivity..|].
  vm_compute in Hmotion. discriminate Hmotion.
Qed.

(** ** The grid after [compute] *)

Lemma for_each_foldl {A B X : Type} (obs : B -> X) (step : X -> A -> X)
    (body : B -> A -> option B) (l : list A) (b b' : B) :
  (forall b x b', body b x = Some b' -> obs b' = step (obs b) x) ->
  for_each body l b = Some b' -> obs b' = foldl step (obs b) l.
Proof.
  intros Hbody. revert b. induction l as [|x l IH]; intros b H; [by simplify_eq/=|].
  rewrite for_each_cons in H. apply bind_Some in H as (b1 & H1 & H).
  simpl. rewrite <- (Hbody _ _ _ H1). by apply IH.
Qed.

Lemma set_cell_Some g row col p g' :
  set_cell g (Z.of_nat row) (Z.of_nat col) p = Some g' ->
  exists r, g !! row = Some r /\ col < length r /\
            g' = <[row := <[col := p]> r]> g.
Proof.
  unfold set_cell. rewrite !Nat2Z.id.
  destruct (_ && _); [|done]. intros H.
  apply bind_Some in H as (r & Hr & H). apply bind_Some in H as (r' & Hr' & H).
  apply vec_set_Some in Hr' as [? ->]. apply vec_set_Some in H as [_ ->].
  by exists r.
Qed.

Lemma cell_Some g row col p :
  cell g (Z.of_nat row) (Z.of_nat col) = Some p ->
  exists r, g !! row = Some r /\ r !! col = Some p.
Proof.
  unfold cell. rewrite !Nat2Z.id. destruct (_ && _); [|done]. intros H.
  apply bind_Some in H as (r & Hr & H). by exists r.
Qed.

Lemma take_cell_rows (g : list (list (option nat))) (row n : nat) (r : list (option nat)) :
  g !! row = Some r -> n <= length r ->
  foldl (fun g col => take_cell g row col) g (seq 0 n)
  = <[row := replicate n None ++ drop n r]> g.
Proof.
  intros Hr. induction n as [|n IH]; intros Hn.
  - simpl. rewrite drop_0. by rewrite list_insert_id.
  - rewrite seq_S, foldl_app, IH by lia. cbn [foldl Nat.add]. unfold take_cell.
    rewrite list_lookup_insert_eq by (by eapply lookup_lt_Some).
    rewrite list_insert_insert_eq. f_equal.
    destruct (lookup_lt_is_Some_2 r n) as [x Hx]; [lia|].
    rewrite (drop_S _ _ _ Hx).
    rewrite insert_app_r_alt by (rewrite length_replicate; lia).
    rewrite length_replicate, Nat.sub_diag. cbn [insert list_insert].
    rewrite replicate_S_end, <- app_assoc. done.
Qed.

Lemma take_cell_grid (g : list (list (option nat))) (rows cols : nat) :
  length <$> g = replicate rows cols ->
  foldl (fun g row => foldl (fun g col => take_cell g row col) g (seq 0 cols))
        g (seq 0 rows)
  = replicate rows (replicate cols None).
Proof.
  intros Hshape.
  assert (length g = rows) as Hlen
    by (apply (f_equal length) in Hshape;
        by rewrite length_fmap, length_replicate in Hshape).
  assert (forall i r, g !! i = Some r -> length r = cols) as Hrow.
  { intros i r Hr. apply (f_equal (fun l => l !! i)) in Hshape.
    rewrite list_lookup_fmap, Hr in Hshape. simpl in Hshape.
    symmetry in Hshape. by apply lookup_replicate in Hshape as [? _]. }
  assert (forall n, n <= rows ->
            foldl (fun g row =>
                     foldl (fun g col => take_cell g row col) g (seq 0 cols))
                  g (seq 0 n)
            = replicate n (replicate cols None) ++ drop n g) as H.
  { induction n as [|n IH]; intros Hn; [by rewrite drop_0|].
    rewrite seq_S, foldl_app, IH by lia. cbn [foldl Nat.add].
    destruct (lookup_lt_is_Some_2 g n) as [r Hr]; [lia|].
    rewrite (take_cell_rows _ n cols r).
    - rewrite (drop_S _ _ _ Hr).
      rewrite insert_app_r_alt by (rewrite length_replicate; lia).
      rewrite length_replicate, Nat.sub_diag. cbn [insert list_insert].
      rewrite drop_ge by (rewrite (Hrow _ _ Hr); lia).
      rewrite app_nil_r, replicate_S_end, <- app_assoc. done.
    - rewrite lookup_app_r by (rewrite length_replicate; lia).
      rewrite length_replicate, Nat.sub_diag, (drop_S _ _ _ Hr). done.
    - by rewrite (Hrow _ _ Hr). }
  rewrite H by lia. rewrite drop_ge by lia. apply app_nil_r.
Qed.

Lemma empty_grid_replicate rows cols :
  empty_grid (replicate rows (replicate cols None)).
Proof.
  apply Forall_forall. intros r [-> _]%elem_of_replicate.
  apply Forall_forall. by intros p [-> _]%elem_of_replicate.
Qed.

Section Grid.

Variable env : Environment.

Lemma grid_store_frame a f s : grid (store_frame a f s) = grid s.
Proof. done. Qed.

Lemma refresh_world_coordinates_grid frame_to_world s p s' :
  refresh_world_coordinates frame_to_world s p = Some s' -> grid s' = grid s.
Proof. unfold refresh_world_coordinates. intros H. by unpack. Qed.

(** The new-points phase takes the framepoint of an occupied cell and
    leaves the cell empty. *)
Lemma _addNewFramepoints_body_grid frame_ frame_to_world row s i col s' i' :
  _addNewFramepoints_body frame_ frame_to_world row (s, i) col = Some (s', i') ->
  grid s' = take_cell (grid s) row col.
Proof.
  unfold _addNewFramepoints_body. intros H.
  apply bind_Some in H as (p & Hp & H).
  apply cell_Some in Hp as (r & Hr & Hc). unfold take_cell.
  unfold grid in *.
  destruct p as [a|].
  - apply bind_Some in H as (f & Hf & H). apply bind_Some in H as (pts & Hpts & H).
    apply bind_Some in H as (s2 & H2 & H). apply bind_Some in H as (g & Hg & H).
    apply refresh_world_coordinates_grid in H2. unfold grid in H2.
    rewrite H2 in Hg. cbn in Hg.
    apply set_cell_Some in Hg as (r' & Hr' & _ & ->).
    rewrite Hr in Hr' |- *. by simplify_eq.
  - simplify_eq. rewrite Hr. by rewrite (list_insert_id r), list_insert_id.
Qed.

Lemma _addNewFramepoints_grid frame_ s s' :
  _addNewFramepoints env frame_ s = Some s' ->
  shape s = replicate (numberOfRowsImage env) (numberOfColsImage env) ->
  grid s' = replicate (numberOfRowsImage env)
                      (replicate (numberOfColsImage env) None).
Proof.
  unfold _addNewFramepoints. intros H Hshape.
  apply bind_Some in H as (f & Hf & H).
  apply bind_Some in H as ([s2 i2] & Hloop & H).
  apply bind_Some in H as (f2 & Hf2 & H). simplify_eq.
  apply (for_each_foldl (fun st => grid st.1)
           (fun g row => foldl (fun g col => take_cell g row col) g
                               (seq 0 (numberOfColsImage env)))) in Hloop.
  - cbn in Hloop. rewrite !grid_store_frame in *. rewrite Hloop.
    by apply take_cell_grid.
  - intros [sa ia] row [sb ib] Hrow. simpl.
    apply (for_each_foldl (fun st => grid st.1)
             (fun g col => take_cell g row col)) in Hrow; [done|].
    intros [] col []. apply _addNewFramepoints_body_grid.
Qed.

Lemma add_new_framepoints_grid current_frame s s' :
  add_new_framepoints env current_frame s = Some s' ->
  shape s = replicate (numberOfRowsImage env) (numberOfColsImage env) ->
  grid s' = replicate (numberOfRowsImage env)
                      (replicate (numberOfColsImage env) None).
Proof.
  unfold add_new_framepoints, frame_setStatus. intros H Hshape. unpack.
  match goal with H : _addNewFramepoints _ _ _ = Some _ |- _ =>
    apply _addNewFramepoints_grid in H; [|done] end.
  done.
Qed.

(** The association takes the framepoint it commits from its cell. *)
Lemma commit_empties_cell current_frame_ pp previous_point b s s' :
  commit current_frame_ pp previous_point b s = Some s' ->
  cell (grid s') (row_best b) (col_best b) = Some None.
Proof.
  unfold commit. intros H. unpack;
    match goal with H : set_cell _ _ _ _ = Some _ |- _ => revert H end;
    unfold set_cell, cell, grid; cbn; intros H;
    (destruct (_ && _); [|done]);
    apply bind_Some in H as (r & Hr & H); apply bind_Some in H as (r' & Hr' & H);
    apply vec_set_Some in Hr' as [? ->]; apply vec_set_Some in H as [? ->];
    rewrite list_lookup_insert_eq by done; simpl;
    by rewrite list_lookup_insert_eq.
Qed.

End Grid.

(** C7.  Every cell of the generator's grid is empty when [compute]
    returns, on every path: through the new-framepoint phase, which takes
    every cell of the grid, after the Localizing branch and after the
    Tracking branch that keeps the track, and through the clearing of the
    grid when the track is lost.  Before, the association empties the cell
    of every match it commits. *)
Theorem grid_is_empty_after_compute env s s' :
  compute env s = Some s' ->
  empty_grid (grid s') /\
  shape s' = replicate (numberOfRowsImage env) (numberOfColsImage env) /\
  (forall current_frame_ pp previous_point b t t',
     commit current_frame_ pp previous_point b t = Some t' ->
     cell (grid t') (row_best b) (col_best b) = Some None) /\
  (forall frame_ t t',
     shape t = replicate (numberOfRowsImage env) (numberOfColsImage env) ->
     _addNewFramepoints env frame_ t = Some t' -> empty_grid (grid t')) /\
  (forall current_frame previous_frame t t',
     lost_track current_frame previous_frame t = Some t' -> empty_grid (grid t')).
Proof.
  intros Hc.
  assert (forall g : list (list (option nat)),
            empty_grid (map (map (fun _ => None)) g)) as Hclear.
  { intros g. apply Forall_forall. intros r (r0 & -> & _)%list_elem_of_fmap.
    apply Forall_forall. by intros p (? & -> & _)%list_elem_of_fmap. }
  assert (grid s' = replicate (numberOfRowsImage env)
                              (replicate (numberOfColsImage env) None)) as Hg.
  { unfold compute in Hc.
    apply bind_Some in Hc as ([cf s1] & Hprior & Hc). simpl in Hc.
    destruct (compute_prior_Some env _ _ _ Hprior) as (_ & _ & Hshape & _).
    destruct (_status s1).
    - apply bind_Some in Hc as (s2 & Hl & Hadd).
      apply add_new_framepoints_grid in Hadd; [done|].
      apply compute_Localizing_Some in Hl as (sp & f & n & Hsp & _ & _ & Hl).
      apply localizing_pose_keeps in Hsp as (_ & _ & Hs & _).
      destruct (_ <? _)%N.
      + destruct Hl as (su & Hsu & ->).
        apply _updateLandmarks_fixed, fixed_eq in Hsu as (_ & _ & _ & Hs' & _).
        assert (shape su = replicate (numberOfRowsImage env)
                                     (numberOfColsImage env)) by congruence.
        done.
      + apply updatePoints_fixed, fixed_eq in Hl as (_ & _ & _ & Hs' & _).
        congruence.
    - apply compute_Tracking_Some in Hc as (cf' & pa & pf & _ & _ & _ & _ & Hc).
      destruct (_ <? _)%N.
      + apply lost_track_Some in Hc as (_ & _ & _ & -> & _).
        change (shape s1 = replicate (numberOfRowsImage env)
                                     (numberOfColsImage env)) in Hshape.
        revert Hshape. unfold shape. change (grid (resulting_motion _ _))
          with (grid s1). generalize (grid s1). clear.
        generalize (numberOfColsImage env) as cols.
        generalize (numberOfRowsImage env) as rows.
        intros rows cols g. revert rows.
        induction g as [|r g IH]; intros [|rows] Hs; try done.
        injection Hs as Hr Hs. cbn [map replicate]. f_equal; [|by apply IH].
        rewrite <- Hr. clear. induction r as [|p r IH]; [done|].
        simpl. by rewrite IH.
      + destruct Hc as (sk & Hk & Hadd).
        apply add_new_framepoints_grid in Hadd; [done|].
        apply keep_track_Some in Hk as (_ & _ & _ & _ & _ & -> & _). done. }
  split_and!.
  - rewrite Hg. apply empty_grid_replicate.
  - unfold shape. rewrite Hg. clear.
    induction (numberOfRowsImage env) as [|n IH]; [done|].
    cbn [replicate fmap list_fmap]. rewrite length_replicate. f_equal. apply IH.
  - intros. by eapply commit_empties_cell.
  - intros frame_ t t' Ht Ha. erewrite _addNewFramepoints_grid by done.
    apply empty_grid_replicate.
  - intros cf pf t t' Hl. apply lost_track_Some in Hl as (_ & _ & _ & -> & _).
    apply Hclear.
Qed.

Lemma grid_is_empty_after_compute_witness :
  empty_grid (grid (Example.after (Example.e1 5) Example.tracking)) /\
  empty_grid (grid (Example.after (Example.e1 0) Example.tracking)) /\
  empty_grid (grid (Example.after (Example.e1 5) Example.before_second_frame)).
Proof.
  split_and!.
  - apply (grid_is_empty_after_compute (Example.e1 5) Example.tracking).
    vm_compute. reflexivity.
  - apply (grid_is_empty_after_compute (Example.e1 0) Example.tracking).
    vm_compute. reflexivity.
  - apply (grid_is_empty_after_compute (Example.e1 5) Example.before_second_frame).
    vm_compute. reflexivity.
Defined.
(** ** The track lengths after [compute] *)

Lemma elem_of_resize {A} (n : nat) (d x : A) (v : list A) :
  x ∈ resize n d v -> x = d \/ x ∈ v.
Proof.
  unfold resize. rewrite elem_of_app. intros [H|H].
  - right. apply elem_of_take in H as (i & Hi & _). by eapply list_elem_of_lookup_2.
  - left. by apply elem_of_replicate in H as [-> _].
Qed.

Lemma elem_of_vec_set {A} (i : nat) (y x : A) (v v' : list A) :
  vec_set i y v = Some v' -> x ∈ v' -> x = y \/ x ∈ v.
Proof.
  intros [Hi ->]%vec_set_Some Hx.
  apply list_elem_of_lookup in Hx as [j Hj].
  destruct (decide (i = j)) as [->|Hne].
  - rewrite list_lookup_insert_eq in Hj by done. left. congruence.
  - rewrite list_lookup_insert_ne in Hj by done. right.
    by eapply list_elem_of_lookup_2.
Qed.

Lemma elem_of_concat {A} (x : A) (g : list (list A)) :
  x ∈ concat g <-> exists l, l ∈ g /\ x ∈ l.
Proof.
  induction g as [|r g IH]; simpl.
  - split; [by intros ?%elem_of_nil|]. by intros (l & ?%elem_of_nil & _).
  - rewrite elem_of_app, IH. split.
    + intros [H|(l & Hl & H)]; [exists r|exists l]; split; try done;
        [by left|by right].
    + intros (l & Hl & H). apply elem_of_cons in Hl as [->|Hl]; [by left|].
      right. by exists l.
Qed.

Lemma elem_of_cell g row col p : cell g row col = Some p -> p ∈ concat g.
Proof.
  unfold cell. destruct (_ && _); [|done]. intros H.
  apply bind_Some in H as (r & Hr & H). apply elem_of_concat. exists r.
  split; by eapply list_elem_of_lookup_2.
Qed.

Lemma elem_of_set_cell g row col p g' x :
  set_cell g row col p = Some g' -> x ∈ concat g' -> x = p \/ x ∈ concat g.
Proof.
  unfold set_cell. destruct (_ && _); [|done]. intros H.
  apply bind_Some in H as (r & Hr & H). apply bind_Some in H as (r' & Hr' & H).
  apply vec_set_Some in H as [Hi ->].
  rewrite !elem_of_concat. intros (l & Hl & Hx).
  apply list_elem_of_lookup in Hl as [j Hj].
  destruct (decide (Z.to_nat row = j)) as [<-|Hne].
  - rewrite list_lookup_insert_eq in Hj by done. injection Hj as <-.
    destruct (elem_of_vec_set _ _ x _ _ Hr' Hx) as [->|Hx']; [by left|].
    right. exists r. split; [by eapply list_elem_of_lookup_2|done].
  - rewrite list_lookup_insert_ne in Hj by done. right. exists l.
    split; [by eapply list_elem_of_lookup_2|done].
Qed.

Lemma chained_setWorldCoordinates n0 h0 w p :
  chained n0 h0 (FramePoint.setWorldCoordinates w p) <-> chained n0 h0 p.
Proof. done. Qed.

Lemma chained_setLandmark n0 h0 l p :
  chained n0 h0 (FramePoint.setLandmark l p) <-> chained n0 h0 p.
Proof. done. Qed.

Lemma chained_new_FramePoint n0 h0 robot_to_world c :
  chained n0 h0 (new_FramePoint robot_to_world c).
Proof. done. Qed.

(** Linking a framepoint to one created before chains it. *)
Lemma chained_setPrevious n0 h0 q previous_point p :
  q < n0 -> h0 !! q = Some previous_point ->
  chained n0 h0 (FramePoint.setPrevious (Some q) previous_point p).
Proof. intros Hq Hp. split; [done|]. by exists previous_point. Qed.

Lemma grown_insert n0 h0 h n n' a p :
  grown n0 h0 (h, n) -> n0 <= a < n' -> n <= n' -> chained n0 h0 p ->
  grown n0 h0 (<[a := p]> h, n').
Proof.
  intros (Hn & Hold & Hnew & Hdom) Ha Hn' Hp. unfold grown in *. cbn in *.
  split_and!.
  - lia.
  - intros q Hq. rewrite lookup_insert_ne by lia. by apply Hold.
  - intros b pb Hb. destruct (decide (a = b)) as [->|Hne].
    + rewrite lookup_insert_eq. by intros [= <-].
    + rewrite lookup_insert_ne by done. by apply Hnew.
  - intros b. destruct (decide (a = b)) as [->|Hne]; [lia|].
    rewrite lookup_insert_ne by done. intros Hb%Hdom. lia.
Qed.

Lemma grown_delete n0 h0 h n a :
  grown n0 h0 (h, n) -> n0 <= a -> grown n0 h0 (delete a h, n).
Proof.
  intros (Hn & Hold & Hnew & Hdom) Ha. unfold grown in *. cbn in *.
  split_and!.
  - done.
  - intros q Hq. rewrite lookup_delete_ne by lia. by apply Hold.
  - intros b pb Hb [Hne Hl]%lookup_delete_Some. by eapply Hnew.
  - intros b [pb [Hne Hl]%lookup_delete_Some]. by apply Hdom.
Qed.

(** The generator's framepoints are created after those in the store. *)
Lemma grown_allocate n0 h0 robot_to_world c m p m' :
  allocate robot_to_world c m = (p, m') -> grown n0 h0 m ->
  grown n0 h0 m' /\ m.2 <= m'.2 /\ forall a, p = Some a -> m.2 <= a < m'.2.
Proof.
  destruct m as [h n]. unfold allocate. destruct c as [c|]; intros [= <- <-] Hm.
  - cbn. split_and!; [|lia|intros a Ha; simplify_eq; lia].
    apply (grown_insert n0 h0 h n); [done| |lia|done].
    destruct Hm as (? & _). cbn in *. lia.
  - by split_and!.
Qed.

Lemma grown_populate_row n0 h0 robot_to_world image_row cols : forall m r m',
  populate_row robot_to_world image_row cols m = (r, m') -> grown n0 h0 m ->
  grown n0 h0 m' /\ m.2 <= m'.2 /\ forall a, Some a ∈ r -> m.2 <= a < m'.2.
Proof.
  induction cols as [|col cols IH]; intros m r m'; cbn [populate_row].
  - intros [= <- <-] Hm. split_and!; [done..|]. by intros a ?%elem_of_nil.
  - destruct (allocate _ _ m) as [p m1] eqn:Ha.
    destruct (populate_row _ _ cols m1) as [ps m2] eqn:Hr.
    intros [= <- <-] Hm.
    apply (grown_allocate n0 h0) in Ha as (Hm1 & Hle1 & Hp); [|done].
    apply IH in Hr as (Hm2 & Hle2 & Hps); [|done].
    split_and!; [done|lia|]. intros a [Ha|Ha]%elem_of_cons.
    + symmetry in Ha. apply Hp in Ha. lia.
    + apply Hps in Ha. lia.
Qed.

Lemma grown_populate n0 h0 robot_to_world image rows cols : forall m g m',
  populate robot_to_world image rows cols m = (g, m') -> grown n0 h0 m ->
  grown n0 h0 m' /\ m.2 <= m'.2 /\
  forall a, Some a ∈ concat g -> m.2 <= a < m'.2.
Proof.
  induction rows as [|row rows IH]; intros m g m'; cbn [populate].
  - intros [= <- <-] Hm. split_and!; [done..|]. by intros a ?%elem_of_nil.
  - destruct (populate_row _ _ cols m) as [r m1] eqn:Hr.
    destruct (populate _ _ rows cols m1) as [rs m2] eqn:Hrs.
    intros [= <- <-] Hm.
    apply (grown_populate_row n0 h0) in Hr as (Hm1 & Hle1 & Hp); [|done].
    apply IH in Hrs as (Hm2 & Hle2 & Hps); [|done].
    split_and!; [done|lia|]. cbn [concat]. intros a [Ha|Ha]%elem_of_app.
    + apply Hp in Ha. lia.
    + apply Hps in Ha. lia.
Qed.

Lemma tracks_step n0 h0 cf s s' :
  tracks n0 h0 cf s ->
  grown n0 h0 (framepoints s', next_framepoint s') ->
  next_framepoint s <= next_framepoint s' ->
  (forall a, is_Some (framepoints s !! a) -> is_Some (framepoints s' !! a)) ->
  (forall x, x ∈ concat (grid s') -> x = None \/ x ∈ concat (grid s)) ->
  (forall a, Some a ∈ points_of s' cf ->
     Some a ∈ points_of s cf \/
     (n0 <= a < next_framepoint s' /\ is_Some (framepoints s' !! a))) ->
  (forall q, Some q ∈ _lost_points s' -> Some q ∈ _lost_points s \/ q < n0) ->
  WorldMap.currentFrame (_context s') = WorldMap.currentFrame (_context s) ->
  WorldMap.next_frame (_context s') = WorldMap.next_frame (_context s) ->
  (is_Some (WorldMap.frames (_context s) !! cf) ->
   is_Some (WorldMap.frames (_context s') !! cf)) ->
  tracks n0 h0 cf s'.
Proof.
  intros (Hm & Hg & Hp & Hl & Hc & Hn & Hf) Hm' Hle Hdom Hg' Hp' Hl' Hc' Hn' Hf'.
  unfold tracks. split_and!; [done| | | |congruence|congruence|auto].
  - intros a [?|Ha]%Hg'; [done|]. apply Hg in Ha. lia.
  - intros a [Ha|Ha]%Hp'; [|done]. apply Hp in Ha as [Ha1 Ha2].
    split; [lia|auto].
  - intros q [Hq|Hq]%Hl'; auto.
Qed.

Lemma tracks_held n0 h0 cf s s' :
  held cf s' = held cf s -> tracks n0 h0 cf s -> tracks n0 h0 cf s'.
Proof.
  unfold held. intros [= Hh Hn Hg Hp Hl Hc Hf Hb] Ht.
  apply (tracks_step n0 h0 cf s s' Ht); rewrite ?Hh, ?Hn, ?Hg, ?Hp, ?Hl;
    try done; auto.
  - apply Ht.
  - intros Hs. apply (bool_decide_eq_true_1 _). rewrite Hb.
    by apply bool_decide_eq_true_2.
Qed.

Lemma points_of_store_frame a f s b :
  points_of (store_frame a f s) b
  = if decide (a = b) then Frame.points f else points_of s b.
Proof.
  unfold points_of, store_frame. cbn. case_decide as Hab.
  - subst. by rewrite lookup_insert_eq.
  - by rewrite lookup_insert_ne.
Qed.

Lemma points_of_set_grid g s b : points_of (set_grid g s) b = points_of s b.
Proof. done. Qed.

Lemma points_of_store_framepoint a p s b :
  points_of (store_framepoint a p s) b = points_of s b.
Proof. done. Qed.

Lemma points_of_Some s a f :
  WorldMap.frames (_context s) !! a = Some f -> points_of s a = Frame.points f.
Proof. unfold points_of. by intros ->. Qed.

Lemma is_Some_store_frame a f s b :
  is_Some (WorldMap.frames (_context s) !! b) ->
  is_Some (WorldMap.frames (_context (store_frame a f s)) !! b).
Proof.
  unfold store_frame. cbn. intros H. apply lookup_insert_is_Some'. by right.
Qed.

(** Writing anything but the vector of a frame keeps what [tracks] is
    about. *)
Lemma held_store_frame a f f' s cf :
  WorldMap.frames (_context s) !! a = Some f ->
  Frame.points f' = Frame.points f ->
  held cf (store_frame a f' s) = held cf s.
Proof.
  intros Hf Hp. unfold held. rewrite points_of_store_frame.
  replace (bool_decide (is_Some (WorldMap.frames
             (_context (store_frame a f' s)) !! cf)))
    with (bool_decide (is_Some (WorldMap.frames (_context s) !! cf))).
  - case_decide; [|done]. subst. by rewrite (points_of_Some _ _ _ Hf), Hp.
  - apply bool_decide_ext. unfold store_frame. cbn.
    rewrite lookup_insert_is_Some'. split; [auto|].
    intros [->|?]; [by rewrite Hf|done].
Qed.

(** Writing the vector of another frame too *)
Lemma held_store_frame_ne a f s cf :
  a <> cf -> held cf (store_frame a f s) = held cf s.
Proof.
  intros Hne. unfold held. rewrite points_of_store_frame.
  rewrite decide_False by done.
  unfold store_frame. cbn. by rewrite lookup_insert_ne.
Qed.

Section Tracks.

Variable env : Environment.
Variables (n0 : nat) (h0 : gmap nat FramePoint.t) (cf : nat).

Lemma reset_currently_tracked_held s s' :
  reset_currently_tracked s = Some s' -> held cf s' = held cf s.
Proof.
  unfold reset_currently_tracked. intros H. unpack.
  match goal with H : for_each _ _ _ = Some _ |- _ =>
    apply (for_each_preserves (held cf)) in H; [by rewrite <- H|] end.
  intros ? ? ? _ H'. by unpack.
Qed.

Lemma priors_held s : held cf (motion_model (odometry_prior s)) = held cf s.
Proof. unfold motion_model, odometry_prior. by repeat case_match. Qed.

Lemma optimize_held current_frame w s :
  held cf (optimize env current_frame w s) = held cf s.
Proof. done. Qed.

Lemma frame_setRobotToWorld_held a r s s' :
  frame_setRobotToWorld a r s = Some s' -> held cf s' = held cf s.
Proof.
  unfold frame_setRobotToWorld. intros H. unpack.
  by eapply held_store_frame.
Qed.

Lemma frame_setStatus_held a st s s' :
  frame_setStatus a st s = Some s' -> held cf s' = held cf s.
Proof.
  unfold frame_setStatus. intros H. unpack. by eapply held_store_frame.
Qed.

Lemma accept_or_keep_held current_frame previous_frame s s' :
  accept_or_keep env current_frame previous_frame s = Some s' ->
  held cf s' = held cf s.
Proof.
  unfold accept_or_keep. intros H. unpack.
  - by eapply frame_setRobotToWorld_held.
  - match goal with H : frame_setRobotToWorld _ _ _ = Some _ |- _ =>
      apply frame_setRobotToWorld_held in H end. by rewrite <- Hx.
Qed.

Lemma update_context_position_held current_frame s s' :
  update_context_position current_frame s = Some s' -> held cf s' = held cf s.
Proof. unfold update_context_position. intros H. by unpack. Qed.

Lemma tracks_chained s a p :
  tracks n0 h0 cf s -> n0 <= a -> framepoints s !! a = Some p ->
  chained n0 h0 p.
Proof. intros ((_ & _ & Hnew & _) & _) Ha Hp. by eapply Hnew. Qed.

Lemma tracks_point s a :
  tracks n0 h0 cf s -> Some a ∈ points_of s cf -> n0 <= a < next_framepoint s.
Proof. intros (_ & _ & Hp & _) Ha. by apply Hp. Qed.

Lemma tracks_cell s row col a :
  tracks n0 h0 cf s -> cell (grid s) row col = Some (Some a) ->
  n0 <= a < next_framepoint s.
Proof. intros (_ & Hg & _) Ha. by apply Hg, (elem_of_cell _ row col). Qed.

(** A framepoint in the buffer of lost points was created before, and is
    as it was. *)
Lemma tracks_lost s q p :
  tracks n0 h0 cf s -> Some q ∈ _lost_points s -> framepoints s !! q = Some p ->
  q < n0 /\ h0 !! q = Some p.
Proof.
  intros ((_ & Hold & _) & _ & _ & Hl & _) Hq Hp. specialize (Hl q Hq).
  split; [done|]. cbn in Hold. by rewrite <- Hold.
Qed.

(** Writing a chained framepoint at an address given out since [compute]
    was entered *)
Lemma tracks_store_framepoint s s' a p :
  held cf s' = held cf (store_framepoint a p s) ->
  tracks n0 h0 cf s -> n0 <= a < next_framepoint s -> chained n0 h0 p ->
  tracks n0 h0 cf s'.
Proof.
  intros Hs' Ht Ha Hp. apply (tracks_held _ _ _ _ _ Hs').
  apply (tracks_step n0 h0 cf s _ Ht); cbn; try by auto.
  - eapply grown_insert; [apply Ht|done|done|done].
  - intros b Hb. apply lookup_insert_is_Some'. by right.
Qed.

Lemma refresh_world_coordinates_tracks frame_to_world s a s' :
  refresh_world_coordinates frame_to_world s (Some a) = Some s' ->
  n0 <= a < next_framepoint s -> tracks n0 h0 cf s ->
  tracks n0 h0 cf s' /\ points_of s' cf = points_of s cf.
Proof.
  unfold refresh_world_coordinates. intros H Ha Ht. unpack. cbn in *.
  split; [|done]. eapply tracks_store_framepoint; [reflexivity|done|done|].
  apply chained_setWorldCoordinates. eapply tracks_chained; [done| |done]; lia.
Qed.

Lemma updatePoints_tracks s s' :
  updatePoints cf s = Some s' -> tracks n0 h0 cf s -> tracks n0 h0 cf s'.
Proof.
  unfold updatePoints. intros H Ht. unpack.
  match goal with H : for_each _ _ _ = Some _ |- _ =>
    apply (for_each_invariant
             (fun t => tracks n0 h0 cf t /\ points_of t cf = Frame.points x))
      in H as [? _]; [done| |] end.
  - intros t [a|] t' Ha [Htt Hpt] Hb; [|done].
    apply refresh_world_coordinates_tracks in Hb as [? Hpt']; [| |done].
    + split; [done|congruence].
    + eapply tracks_point; [done|]. by rewrite Hpt.
  - split; [done|]. by apply points_of_Some.
Qed.

Lemma _updateLandmarks_body_tracks frame_to_world s a s' :
  _updateLandmarks_body env frame_to_world s (Some a) = Some s' ->
  n0 <= a < next_framepoint s -> tracks n0 h0 cf s ->
  tracks n0 h0 cf s' /\ points_of s' cf = points_of s cf.
Proof.
  unfold _updateLandmarks_body, createLandmark. intros H Ha Ht. unpack; cbn in *.
  all: split; [|done].
  all: eapply (tracks_store_framepoint s _ x);
    [unfold held; cbn; rewrite ?insert_insert_eq; reflexivity|done|done|].
  all: rewrite ?chained_setLandmark, ?chained_setWorldCoordinates.
  all: eapply tracks_chained; [done| |done]; lia.
Qed.

Lemma _updateLandmarks_tracks s s' :
  _updateLandmarks env cf s = Some s' -> tracks n0 h0 cf s ->
  tracks n0 h0 cf s'.
Proof.
  unfold _updateLandmarks. intros H Ht. unpack.
  match goal with H : for_each _ _ _ = Some _ |- _ =>
    apply (for_each_invariant
             (fun t => tracks n0 h0 cf t /\ points_of t cf = Frame.points x))
      in H as [? _]; [done| |] end.
  - intros t [a|] t' Ha [Htt Hpt] Hb; [|done].
    apply _updateLandmarks_body_tracks in Hb as [? Hpt']; [| |done].
    + split; [done|congruence].
    + eapply tracks_point; [done|]. by rewrite Hpt.
  - split; [done|]. by apply points_of_Some.
Qed.

(** Replacing the current frame's vector by one with no new framepoint *)
Lemma tracks_set_points s s' f v :
  held cf s' = held cf (store_frame cf (Frame.set_points v f) s) ->
  tracks n0 h0 cf s ->
  (forall a, Some a ∈ v -> Some a ∈ points_of s cf) ->
  tracks n0 h0 cf s'.
Proof.
  intros Hs' Ht Hv. apply (tracks_held _ _ _ _ _ Hs').
  apply (tracks_step n0 h0 cf s _ Ht); cbn; try by auto.
  - apply Ht.
  - rewrite points_of_store_frame, decide_True by done. cbn. auto.
  - intros _. rewrite lookup_insert_eq. by eexists.
Qed.

Lemma _pruneFramepoints_tracks s s' :
  _pruneFramepoints cf s = Some s' -> tracks n0 h0 cf s -> tracks n0 h0 cf s'.
Proof.
  intros H Ht. apply _pruneFramepoints_Some in H as (f & Hf & ->).
  eapply tracks_set_points; [reflexivity|done|].
  intros a (i & Hi & _)%select_elem_of. rewrite (points_of_Some _ _ _ Hf).
  by eapply list_elem_of_lookup_2.
Qed.

(** A recovered point is a new framepoint linked to the lost point. *)
Lemma _recoverPoints_body_tracks s i pp s' i' :
  _recoverPoints_body env cf (s, i) pp = Some (s', i') ->
  pp ∈ _lost_points s -> tracks n0 h0 cf s ->
  tracks n0 h0 cf s' /\ _lost_points s' = _lost_points s.
Proof.
  unfold _recoverPoints_body. intros H Hpp Ht.
  apply bind_Some in H as (point_previous & Hp & H).
  destruct pp as [q|]; [|done]. cbn in Hp.
  destruct (tracks_lost _ _ _ Ht Hpp Hp) as [Hq Hq0].
  destruct (rematch env s point_previous) as [c|]; [|by simplify_eq].
  apply bind_Some in H as (f & Hf & H). apply bind_Some in H as (v & Hv & H).
  injection H as <- <-. cbn in Hf. split; [|done].
  pose proof Ht as ((Hn & _) & _). cbn in Hn.
  apply (tracks_step n0 h0 cf s _ Ht); cbn.
  - eapply grown_insert; [apply Ht|lia|lia|]. by apply chained_setPrevious.
  - lia.
  - intros b Hb. apply lookup_insert_is_Some'. by right.
  - auto.
  - intros a. rewrite points_of_store_frame, decide_True by done. cbn.
    intros [Ha|Ha]%(elem_of_vec_set _ _ _ _ _ Hv).
    + injection Ha as ->. right. split; [lia|]. by rewrite lookup_insert_eq.
    + left. by rewrite (points_of_Some _ _ _ Hf).
  - auto.
  - done.
  - done.
  - intros _. rewrite lookup_insert_eq. by eexists.
Qed.

Lemma _recoverPoints_tracks s s' :
  _recoverPoints env cf s = Some s' -> tracks n0 h0 cf s -> tracks n0 h0 cf s'.
Proof.
  unfold _recoverPoints. intros H Ht.
  apply bind_Some in H as (f & Hf & H).
  apply bind_Some in H as ([t k] & Hl & H).
  apply bind_Some in H as (f' & Hf' & H). injection H as <-.
  apply (for_each_invariant
           (fun st => tracks n0 h0 cf st.1 /\ _lost_points st.1 = _lost_points s))
    in Hl as [Htt _].
  - eapply (tracks_set_points t); [reflexivity|done|].
    intros a [?|Ha]%elem_of_resize; [done|].
    by rewrite (points_of_Some _ _ _ Hf').
  - intros [t1 k1] pp [t2 k2] Hpp [Ht1 Hl1] Hb. cbn [fst] in *.
    apply _recoverPoints_body_tracks in Hb as [? Hl2]; [| |done].
    + split; [done|congruence].
    + by rewrite Hl1.
  - cbn. split; [|done]. eapply (tracks_set_points s); [reflexivity|done|].
    intros a [?|Ha]%elem_of_resize; [done|].
    by rewrite (points_of_Some _ _ _ Hf).
Qed.

(** A framepoint left in the grid joins the current frame. *)
Lemma _addNewFramepoints_body_tracks frame_to_world row s i col s' i' :
  _addNewFramepoints_body cf frame_to_world row (s, i) col = Some (s', i') ->
  tracks n0 h0 cf s -> tracks n0 h0 cf s'.
Proof.
  unfold _addNewFramepoints_body, refresh_world_coordinates. intros H Ht.
  apply bind_Some in H as ([a|] & Hc & H); [|by simplify_eq].
  pose proof (tracks_cell _ _ _ _ Ht Hc) as Ha.
  apply bind_Some in H as (f & Hf & H). apply bind_Some in H as (v & Hv & H).
  apply bind_Some in H as (t & Hr & H). apply bind_Some in H as (g & Hg & H).
  injection H as <- <-. cbn in Hr.
  apply bind_Some in Hr as (fp & Hfp & Hr). injection Hr as <-. cbn in Hg.
  apply (tracks_step n0 h0 cf s _ Ht); cbn.
  - eapply grown_insert; [apply Ht|lia|lia|].
    apply chained_setWorldCoordinates. eapply tracks_chained; [done| |done]. lia.
  - lia.
  - intros b Hb. apply lookup_insert_is_Some'. by right.
  - intros x [->|Hx]%(elem_of_set_cell _ _ _ _ _ _ Hg); auto.
  - intros b. rewrite points_of_set_grid, points_of_store_framepoint.
    rewrite points_of_store_frame, decide_True by done. cbn.
    intros [Hb|Hb]%(elem_of_vec_set _ _ _ _ _ Hv).
    + injection Hb as ->. right. split; [lia|]. by rewrite lookup_insert_eq.
    + left. by rewrite (points_of_Some _ _ _ Hf).
  - auto.
  - done.
  - done.
  - intros _. rewrite lookup_insert_eq. by eexists.
Qed.

Lemma _addNewFramepoints_tracks s s' :
  _addNewFramepoints env cf s = Some s' -> tracks n0 h0 cf s ->
  tracks n0 h0 cf s'.
Proof.
  unfold _addNewFramepoints. intros H Ht.
  apply bind_Some in H as (f & Hf & H).
  apply bind_Some in H as ([t k] & Hl & H).
  apply bind_Some in H as (f' & Hf' & H). injection H as <-.
  apply (for_each_invariant (fun st => tracks n0 h0 cf st.1)) in Hl.
  - eapply (tracks_set_points t); [reflexivity|done|].
    intros a [?|Ha]%elem_of_resize; [done|].
    by rewrite (points_of_Some _ _ _ Hf').
  - intros st row st' _ Hst Hrow.
    apply (for_each_invariant (fun st => tracks n0 h0 cf st.1)) in Hrow;
      [done| |done].
    intros [t1 k1] col [t2 k2] _ Ht1 Hb. cbn [fst] in *.
    by eapply _addNewFramepoints_body_tracks.
  - cbn. eapply (tracks_set_points s); [reflexivity|done|].
    intros a [?|Ha]%elem_of_resize; [done|].
    by rewrite (points_of_Some _ _ _ Hf).
Qed.

Lemma add_new_framepoints_tracks s s' :
  add_new_framepoints env cf s = Some s' -> tracks n0 h0 cf s ->
  tracks n0 h0 cf s'.
Proof.
  unfold add_new_framepoints. intros H Ht.
  apply bind_Some in H as (s1 & H1 & H). apply bind_Some in H as (s2 & H2 & H).
  injection H as <-. apply _addNewFramepoints_tracks in H1; [|done].
  apply (frame_setStatus_held) in H2.
  apply (tracks_held n0 h0 cf s1); [|done]. by rewrite <- H2.
Qed.

Lemma grown_release (l : list Ptr) h n :
  (forall a, Some a ∈ l -> n0 <= a) -> grown n0 h0 (h, n) ->
  grown n0 h0
    (foldr (fun p m => match p with Some a => delete a m | None => m end) h l, n).
Proof.
  induction l as [|[a|] l IH]; intros Hl Hm; cbn [foldr]; [done| |].
  - apply grown_delete; [|apply Hl; by left]. apply IH; [|done].
    intros b Hb. apply Hl. by right.
  - apply IH; [|done]. intros b Hb. apply Hl. by right.
Qed.

(** The framepoints of the current frame are deleted: no framepoint
    created before is. *)
Lemma releasePoints_tracks s s' :
  releasePoints cf s = Some s' -> tracks n0 h0 cf s -> tracks n0 h0 cf s'.
Proof.
  unfold releasePoints. intros H Ht.
  apply bind_Some in H as (f & Hf & H). injection H as <-.
  destruct Ht as (Hm & Hg & Hp & Hl & Hc & Hn & Hfr).
  unfold tracks. cbn. split_and!; try done.
  - apply grown_release; [|done]. intros a Ha.
    rewrite <- (points_of_Some _ _ _ Hf) in Ha. apply Hp in Ha. lia.
  - rewrite points_of_store_frame, decide_True by done. cbn.
    by intros a ?%elem_of_nil.
  - rewrite lookup_insert_eq. by eexists.
Qed.

Lemma lost_track_tracks previous_frame s s' :
  lost_track cf previous_frame s = Some s' -> tracks n0 h0 cf s ->
  tracks n0 h0 cf s'.
Proof.
  unfold lost_track. intros H Ht.
  apply bind_Some in H as (s1 & H1 & H). apply bind_Some in H as (s2 & H2 & H).
  apply bind_Some in H as (s3 & H3 & H).
  apply frame_setStatus_held in H1. apply frame_setRobotToWorld_held in H3.
  apply update_context_position_held in H.
  apply (tracks_held _ _ _ _ _ H1) in Ht.
  apply releasePoints_tracks in H2; [|done].
  apply (tracks_held n0 h0 cf s3); [done|].
  apply (tracks_held n0 h0 cf _ _ H3).
  apply (tracks_step n0 h0 cf s2 _ H2); cbn; try by auto.
  - apply H2.
  - intros x (l & Hl & Hx)%elem_of_concat. left.
    apply list_elem_of_fmap in Hl as (r & -> & _).
    by apply list_elem_of_fmap in Hx as (? & -> & _).
Qed.

(** The commit of an association links the framepoint of the best cell to
    a framepoint created before. *)
Lemma commit_tracks pa q previous_point b s s' :
  commit cf (Some q) previous_point b s = Some s' ->
  q < n0 -> framepoints s !! q = Some previous_point ->
  tracks n0 h0 cf s ->
  tracks n0 h0 cf s' /\ (pa <> cf -> points_of s' pa = points_of s pa).
Proof.
  unfold commit. intros H Hq Hpq Ht.
  apply bind_Some in H as (pc & Hc & H). apply bind_Some in H as (a & -> & H).
  pose proof (tracks_cell _ _ _ _ Ht Hc) as Ha.
  apply bind_Some in H as (fp & Hfp & H). cbv zeta in H.
  apply bind_Some in H as (f & Hf & H). apply bind_Some in H as (v & Hv & H).
  assert (h0 !! q = Some previous_point) as Hq0.
  { destruct Ht as ((_ & Hold & _) & _). cbn in Hold. by rewrite <- Hold. }
  set (p := FramePoint.setPrevious (Some q) previous_point fp) in *.
  set (sa := store_framepoint a p s) in *.
  set (sb := store_frame cf (Frame.set_points v f) sa) in *.
  set (t := match FramePoint.landmark p with Some _ => _ | None => _ end) in *.
  assert (held cf t = held cf sb /\ points_of t pa = points_of sb pa)
    as [Hheld Hpoints] by (subst t; by repeat case_match).
  clearbody t.
  apply bind_Some in H as (g & Hg & H). injection H as <-.
  assert (sb = store_frame cf (Frame.set_points v f) sa) as Hsb by done.
  assert (sa = store_framepoint a p s) as Hsa by done.
  clearbody sb sa. subst sb sa.
  set (sa := store_framepoint a p s) in *.
  assert (tracks n0 h0 cf sa) as Hta.
  { eapply tracks_store_framepoint; [reflexivity|done|done|].
    by apply chained_setPrevious. }
  assert (tracks n0 h0 cf (store_frame cf (Frame.set_points v f) sa)) as Htb.
  { apply (tracks_step n0 h0 cf sa _ Hta); cbn; try by auto.
    - apply Hta.
    - intros c. rewrite points_of_store_frame, decide_True by done. cbn.
      intros [Hv'|Hv']%(elem_of_vec_set _ _ _ _ _ Hv).
      + injection Hv' as ->. right. split; [lia|]. by rewrite lookup_insert_eq.
      + left. by rewrite (points_of_Some _ _ _ Hf).
    - intros _. rewrite lookup_insert_eq. by eexists. }
  apply (tracks_held _ _ _ _ _ Hheld) in Htb.
  split.
  - apply (tracks_step n0 h0 cf t _ Htb); cbn; try by auto.
    + apply Htb.
    + intros x [->|Hx]%(elem_of_set_cell _ _ _ _ _ _ Hg); auto.
  - intros Hne. rewrite points_of_set_grid.
    change (points_of t pa = points_of s pa). rewrite Hpoints.
    rewrite points_of_store_frame, decide_False by done. done.
Qed.

Lemma no_match_found_tracks pa q previous_point s s' :
  no_match_found (Some q) previous_point s = Some s' -> q < n0 ->
  tracks n0 h0 cf s ->
  tracks n0 h0 cf s' /\ points_of s' pa = points_of s pa.
Proof.
  unfold no_match_found. intros H Hq Ht.
  destruct (FramePoint.landmark previous_point); [|by simplify_eq].
  apply bind_Some in H as (lost & Hl & H). injection H as <-.
  split; [|done].
  apply (tracks_step n0 h0 cf s _ Ht); cbn; try by auto.
  - apply Ht.
  - intros c [Hc|Hc]%(elem_of_vec_set _ _ _ _ _ Hl); [|by left].
    injection Hc as ->. by right.
Qed.

Lemma _trackFramepoints_body_tracks pa s i s' :
  pa <> cf ->
  _trackFramepoints_body env pa cf s i = Some s' ->
  tracks n0 h0 cf s -> predecessors n0 pa s ->
  tracks n0 h0 cf s' /\ predecessors n0 pa s'.
Proof.
  unfold _trackFramepoints_body, predecessors. intros Hne H Ht Hpa.
  apply bind_Some in H as (pf & Hpf & H).
  apply bind_Some in H as ([q|] & Hpp & H); [|done].
  apply bind_Some in H as (previous_point & Hq & H). cbn in Hq.
  apply bind_Some in H as (projection_left & _ & H).
  apply bind_Some in H as (r & _ & H).
  assert (q < n0) as Hq0.
  { apply Hpa. rewrite (points_of_Some _ _ _ Hpf).
    by eapply list_elem_of_lookup_2. }
  destruct r as [b|b|].
  - apply (commit_tracks pa) in H as [? Hp]; [|done..].
    split; [done|]. by rewrite Hp.
  - apply (commit_tracks pa) in H as [? Hp]; [|done..].
    split; [done|]. by rewrite Hp.
  - apply (no_match_found_tracks pa) in H as [? Hp]; [|done..].
    split; [done|]. by rewrite Hp.
Qed.

Lemma _getImageCoordinates_tracks pa s s' :
  pa <> cf ->
  _getImageCoordinates env pa cf s = Some s' ->
  tracks n0 h0 cf s -> predecessors n0 pa s ->
  tracks n0 h0 cf s' /\ predecessors n0 pa s'.
Proof.
  intros Hne H Ht Hpa.
  apply _getImageCoordinates_Some in H as (pf & f & Hpf & Hf & ->).
  split.
  - eapply tracks_held; [|done].
    by apply (held_store_frame_ne pa _ s cf).
  - intros q. unfold points_of. cbn. rewrite lookup_insert_eq. cbn.
    intros [_ Hq]%list_elem_of_filter. apply Hpa.
    by rewrite (points_of_Some _ _ _ Hpf).
Qed.

Lemma _trackFramepoints_tracks pa s s' :
  pa <> cf ->
  _trackFramepoints env pa cf s = Some s' ->
  tracks n0 h0 cf s -> predecessors n0 pa s -> tracks n0 h0 cf s'.
Proof.
  unfold _trackFramepoints. intros Hne H Ht Hpa.
  apply bind_Some in H as (f & Hf & H).
  apply bind_Some in H as (s1 & H1 & H).
  apply bind_Some in H as (pf & Hpf & H).
  apply bind_Some in H as (s2 & H2 & H).
  apply bind_Some in H as (f2 & Hf2 & H). injection H as <-.
  apply _getImageCoordinates_tracks in H1 as [Ht1 Hpa1]; [|done| |].
  - apply (for_each_invariant
             (fun t => tracks n0 h0 cf t /\ predecessors n0 pa t))
      in H2 as [Ht2 _].
    + apply (tracks_step n0 h0 cf s2 _ Ht2); cbn; try by auto.
      * apply Ht2.
      * intros a. unfold points_of. cbn. rewrite lookup_insert_eq. cbn.
        intros [?|Ha]%elem_of_resize; [done|]. left. by rewrite Hf2.
      * intros q [?|Hq]%elem_of_resize; [done|]. by left.
      * intros _. rewrite lookup_insert_eq. by eexists.
    + intros t i t' _ [Htt Hpt] Hb.
      by apply (_trackFramepoints_body_tracks pa) in Hb.
    + split; [|done].
      apply (tracks_step n0 h0 cf s1 _ Ht1); cbn; try by auto.
      * apply Ht1.
      * intros q [?|Hq]%elem_of_resize; [done|]. by left.
  - eapply (tracks_set_points s); [reflexivity|done|].
    intros a [?|Ha]%elem_of_resize; [done|].
    by rewrite (points_of_Some _ _ _ Hf).
  - intros q. unfold points_of. cbn. rewrite lookup_insert_ne by done.
    apply Hpa.
Qed.

End Tracks.

Section Chain.

Variable env : Environment.

Lemma grown_initial (h : gmap nat FramePoint.t) (n : nat) :
  (forall a, is_Some (h !! a) -> a < n) -> grown n h (h, n).
Proof.
  intros Hdom. unfold grown. cbn. split_and!; [done..| |done].
  intros a p Ha Hp. assert (a < n) by (apply Hdom; by eexists). lia.
Qed.

(** Up to the [switch]: the generator's framepoints are new, and the
    associations link them to framepoints of the previous frame. *)
Lemma compute_prior_tracks s current_frame s1 :
  allocated s -> compute_prior env s = Some (current_frame, s1) ->
  tracks (next_framepoint s) (framepoints s) current_frame s1.
Proof.
  unfold compute_prior. intros (Hdom & Hlost & Hcur) H.
  apply bind_Some in H as (s0 & H0 & H).
  set (x := default 0 (WorldMap.currentFrame (_context s))).
  assert (held x (motion_model (odometry_prior s0)) = held x s) as Hheld.
  { rewrite priors_held. by apply (reset_currently_tracked_held x) in H0. }
  set (sp := motion_model (odometry_prior s0)) in *. clearbody sp. clear H0 s0.
  unfold held in Hheld. injection Hheld as Hh Hn Hg Hp Hl Hc Hnf Hb.
  unfold _makeFrame in H. cbv zeta in H.
  apply bind_Some in H as (sg & Hgen & H).
  apply bind_Some in H as (f & Hf & H).
  apply bind_Some in H as (st & Ht & H). injection H as <- <-.
  unfold generator_compute in Hgen.
  apply bind_Some in Hgen as (f' & Hf' & Hgen).
  destruct (populate _ _ _ _ _) as [g m] eqn:Hpop. injection Hgen as <-.
  cbn in Hf, Hf', Hpop. rewrite lookup_insert_eq in Hf, Hf'.
  injection Hf as <-. injection Hf' as <-. cbn in Ht.
  apply (grown_populate (next_framepoint s) (framepoints s)) in Hpop
    as (Hm & Hle & Hgrid); [|rewrite Hh, Hn; by apply grown_initial].
  cbn in Hle, Hgrid. rewrite Hn in Hle, Hgrid.
  match type of Ht with
  | context [_trackFramepoints _ _ _ ?t] => set (sq := t) in *
  end.
  assert (tracks (next_framepoint s) (framepoints s)
                 (WorldMap.next_frame (_context sp)) sq) as Hsq.
  { unfold tracks. cbn. split_and!.
    - by destruct m.
    - done.
    - unfold points_of. cbn. rewrite lookup_insert_eq. cbn.
      by intros a ?%elem_of_nil.
    - rewrite Hl. intros q Hq. by apply Hlost.
    - done.
    - lia.
    - rewrite lookup_insert_eq. by eexists. }
  rewrite Hc in Ht.
  destruct (WorldMap.currentFrame (_context s)) as [pa|] eqn:Hpa;
    [|by injection Ht as <-].
  destruct (Hcur pa eq_refl) as [Hlt Hpts]. cbn in x. subst x.
  eapply (_trackFramepoints_tracks env); [| |done|]; [|done|].
  - rewrite Hnf. lia.
  - intros q. unfold points_of. cbn.
    rewrite lookup_insert_ne by (rewrite Hnf; lia).
    intros Hq. apply Hpts. unfold points_of in *. by rewrite <- Hp.
Qed.

Lemma localizing_pose_held cf current_frame s s' :
  localizing_pose env current_frame s = Some s' -> held cf s' = held cf s.
Proof.
  unfold localizing_pose. intros H.
  apply bind_Some in H as (f & Hf & H).
  destruct (Frame.previous f) as [pa|]; [|by simplify_eq].
  destruct (_ <? _)%N; [|by simplify_eq].
  apply bind_Some in H as (pf & Hpf & H). apply bind_Some in H as (s1 & H1 & H).
  apply (accept_or_keep_held env cf) in H1.
  apply (update_context_position_held cf) in H. by rewrite H, H1.
Qed.

Lemma compute_Localizing_tracks n0 h0 cf s s' :
  compute_Localizing env cf s = Some s' -> tracks n0 h0 cf s ->
  tracks n0 h0 cf s'.
Proof.
  unfold compute_Localizing. intros H Ht.
  apply bind_Some in H as (s1 & H1 & H). apply bind_Some in H as (f & Hf & H).
  apply bind_Some in H as (n & Hn & H).
  apply (localizing_pose_held cf) in H1.
  apply (tracks_held _ _ _ _ _ H1) in Ht.
  destruct (_ <? _)%N.
  - apply bind_Some in H as (s2 & H2 & H). injection H as <-.
    apply (_updateLandmarks_tracks env n0 h0) in H2; [|done].
    by apply (tracks_held n0 h0 cf s2).
  - by eapply updatePoints_tracks.
Qed.

Lemma keep_track_tracks n0 h0 cf previous_frame s s' :
  keep_track env cf previous_frame s = Some s' -> tracks n0 h0 cf s ->
  tracks n0 h0 cf s'.
Proof.
  unfold keep_track. intros H Ht.
  apply bind_Some in H as (s1 & H1 & H). apply bind_Some in H as (s2 & H2 & H).
  apply bind_Some in H as (s3 & H3 & H). apply bind_Some in H as (s4 & H4 & H).
  apply bind_Some in H as (s5 & H5 & H). injection H as <-.
  apply (accept_or_keep_held env cf) in H1.
  apply (tracks_held _ _ _ _ _ H1) in Ht.
  apply (_pruneFramepoints_tracks n0 h0) in H2; [|done].
  apply (_recoverPoints_tracks env n0 h0) in H3; [|done].
  apply (update_context_position_held cf) in H4.
  apply (tracks_held _ _ _ _ _ H4) in H3.
  apply (_updateLandmarks_tracks env n0 h0) in H5; [|done].
  by apply (tracks_held n0 h0 cf s5).
Qed.

Lemma compute_Tracking_tracks n0 h0 cf s s' :
  compute_Tracking env cf s = Some s' -> tracks n0 h0 cf s ->
  tracks n0 h0 cf s'.
Proof.
  unfold compute_Tracking. intros H Ht. cbv zeta in H.
  apply bind_Some in H as (f & Hf & H). apply bind_Some in H as (pf & Hpf & H).
  set (s1 := resulting_motion _ _) in *.
  assert (tracks n0 h0 cf s1) as Ht1 by by apply (tracks_held n0 h0 cf s).
  clearbody s1. destruct (_ <? _)%N.
  - by eapply lost_track_tracks.
  - apply bind_Some in H as (s2 & H2 & H).
    apply (keep_track_tracks n0 h0) in H2; [|done].
    by eapply add_new_framepoints_tracks.
Qed.

(** The state after [compute]: what was created in the call is chained to
    what was there before. *)
Lemma compute_tracks s s' :
  allocated s -> compute env s = Some s' ->
  exists cf, tracks (next_framepoint s) (framepoints s) cf s'.
Proof.
  unfold compute. intros Ha H.
  apply bind_Some in H as ([cf s1] & H1 & H). exists cf.
  apply compute_prior_tracks in H1; [|done].
  destruct (_status s1).
  - apply bind_Some in H as (s2 & H2 & H).
    apply (compute_Localizing_tracks _ _ _ _ _ H2) in H1.
    by eapply add_new_framepoints_tracks.
  - by eapply compute_Tracking_tracks.
Qed.

End Chain.

Lemma tracks_allocated n0 h0 cf s : tracks n0 h0 cf s -> allocated s.
Proof.
  intros ((Hn & _ & _ & Hdom) & _ & Hp & Hl & Hc & Hf & _). cbn in *.
  unfold allocated. split_and!; [done| |].
  - intros q Hq%Hl. lia.
  - intros current_frame. rewrite Hc. intros [= <-]. split; [done|].
    intros a Ha%Hp. lia.
Qed.

Lemma tracks_track_lengths_hold n0 h0 cf s :
  tracks n0 h0 cf s -> track_lengths_hold s.
Proof.
  intros ((_ & Hold & Hnew & _) & _ & Hp & _ & Hc & _ & Hf). cbn in *.
  exists cf. split_and!; [done..|].
  intros a [Ha [p Hpa]]%Hp. exists p. split; [done|].
  assert (chained n0 h0 p) as Hch by (eapply Hnew; [|done]; lia).
  unfold chained, track_length_invariant in *.
  destruct (FramePoint.previous p) as [q|]; [|done].
  destruct Hch as (Hq & pq & Hpq & Hlen). exists pq. by rewrite Hold.
Qed.

Lemma allocated_fresh_tracker : allocated fresh_tracker.
Proof.
  unfold allocated. cbn. split_and!; [|by intros a ?%elem_of_nil|done].
  intros a [p Hp]. by rewrite lookup_empty in Hp.
Qed.

Lemma compute_allocated env s s' :
  allocated s -> compute env s = Some s' -> allocated s'.
Proof.
  intros Ha H. destruct (compute_tracks env s s' Ha H) as [cf Ht].
  by eapply tracks_allocated.
Qed.

(** A tracker that started fresh is [allocated] whenever [compute] is
    entered. *)
Lemma run_allocated env images : forall s s',
  allocated s -> Example.run env images s = Some s' -> allocated s'.
Proof.
  unfold Example.run.
  induction images as [|image images IH] using rev_ind; intros s s' Ha H.
  - by injection H as <-.
  - rewrite foldl_app in H. cbn [foldl] in H.
    apply bind_Some in H as (s1 & H1 & H).
    apply (compute_allocated env _ _ (IH _ _ Ha H1 : allocated
             (set_intensity_image_left image s1)) H).
Qed.

(** What the commit of an association does to the framepoint of the best
    cell *)
Lemma commit_links current_frame_ q previous_point b t t' a :
  framepoints t !! q = Some previous_point ->
  cell (grid t) (row_best b) (col_best b) = Some (Some a) -> a <> q ->
  commit current_frame_ (Some q) previous_point b t = Some t' ->
  Some a ∈ points_of t' current_frame_ /\
  exists p, framepoints t' !! a = Some p /\
            FramePoint.previous p = Some q /\ track_length_invariant t' p.
Proof.
  unfold commit. intros Hq Hc Hne H. rewrite Hc in H. cbn in H.
  apply bind_Some in H as (fp & Hfp & H). apply bind_Some in H as (f & Hf & H).
  apply bind_Some in H as (v & Hv & H). apply bind_Some in H as (g & Hg & H).
  injection H as <-. apply vec_set_Some in Hv as [Hi ->].
  split.
  - rewrite points_of_set_grid.
    repeat case_match; unfold points_of; cbn; rewrite lookup_insert_eq; cbn;
      by apply list_elem_of_insert.
  - exists (FramePoint.setPrevious (Some q) previous_point fp).
    split_and!; [by repeat case_match; cbn; rewrite lookup_insert_eq|done|].
    exists previous_point. split; [|done].
    by repeat case_match; cbn; rewrite lookup_insert_ne.
Qed.

(** C6.  After every [compute], every framepoint of the current frame
    exists in the store and satisfies the track-length invariant: with a
    predecessor its track length is the predecessor's plus one, without it
    is 1.  The commit of an association establishes it: the framepoint of
    the best cell joins the current frame with the previous framepoint as
    its predecessor and one more than that framepoint's track length.  The
    tracker is [allocated] when [compute] is entered, as a fresh tracker is,
    and is again when [compute] returns. *)
Theorem track_lengths_hold_after_compute env s s' :
  allocated s -> compute env s = Some s' ->
  track_lengths_hold s' /\ allocated s' /\
  allocated fresh_tracker /\
  forall current_frame_ q previous_point b t t' a,
    framepoints t !! q = Some previous_point ->
    cell (grid t) (row_best b) (col_best b) = Some (Some a) -> a <> q ->
    commit current_frame_ (Some q) previous_point b t = Some t' ->
    Some a ∈ points_of t' current_frame_ /\
    exists p, framepoints t' !! a = Some p /\
              FramePoint.previous p = Some q /\ track_length_invariant t' p.
Proof.
  intros Ha H. destruct (compute_tracks env s s' Ha H) as [cf Ht].
  split_and!.
  - by eapply tracks_track_lengths_hold.
  - by eapply tracks_allocated.
  - apply allocated_fresh_tracker.
  - apply commit_links.
Qed.

Lemma track_lengths_hold_after_compute_witness :
  track_lengths_hold (Example.after (Example.e1 5) Example.tracking) /\
  track_lengths_hold (Example.after (Example.e1 5) Example.before_second_frame).
Proof.
  split.
  - apply (track_lengths_hold_after_compute (Example.e1 5) Example.tracking).
    + apply (run_allocated (Example.e1 5)
               [Example.three_features; Example.three_features] fresh_tracker);
        [apply allocated_fresh_tracker|vm_compute; reflexivity].
    + vm_compute. reflexivity.
  - apply (track_lengths_hold_after_compute (Example.e1 5)
             Example.before_second_frame).
    + apply (run_allocated (Example.e1 0) [Example.three_features] fresh_tracker);
        [apply allocated_fresh_tracker|vm_compute; reflexivity].
    + vm_compute. reflexivity.
Defined.

(** ** The counters of [_trackFramepoints] *)

#[local] Arguments resize : simpl never.

(** The vectors of the frames of a tracker built by the setters *)
Ltac points_by_computation :=
  unfold points_of; cbn;
  repeat first [rewrite lookup_insert_eq | rewrite lookup_insert_ne by done];
  cbn.

Lemma length_resize' {A} (n : nat) (d : A) (v : list A) :
  length (resize n d v) = n.
Proof.
  unfold resize. rewrite length_app, length_take, length_replicate. lia.
Qed.

(** Emptying an occupied cell takes its framepoint, and nothing else, from
    the cells of the grid. *)
Lemma set_cell_occupied g row col a g' :
  cell g row col = Some (Some a) -> set_cell g row col None = Some g' ->
  exists o1 o2, occupied g = o1 ++ a :: o2 /\ occupied g' = o1 ++ o2.
Proof.
  unfold cell, set_cell. destruct (_ && _); [|done]. intros Hc Hs.
  apply bind_Some in Hc as (r & Hr & Hc). rewrite Hr in Hs. cbn in Hs.
  apply bind_Some in Hs as (r' & Hr' & Hs).
  apply vec_set_Some in Hr' as [Hlc ->]. apply vec_set_Some in Hs as [Hlr ->].
  exists (omap id (concat (take (Z.to_nat row) g) ++ take (Z.to_nat col) r)),
         (omap id (drop (S (Z.to_nat col)) r
                   ++ concat (drop (S (Z.to_nat row)) g))).
  unfold occupied. split.
  - rewrite <- (take_drop_middle g _ r Hr) at 1.
    rewrite concat_app, concat_cons.
    rewrite <- (take_drop_middle r _ (Some a) Hc) at 1.
    by rewrite !omap_app, <- !app_assoc.
  - rewrite insert_take_drop by done. rewrite concat_app, concat_cons.
    rewrite insert_take_drop by done.
    by rewrite !omap_app, <- !app_assoc.
Qed.

(** Lines 318-338 and 383-403, field by field *)
Lemma commit_Some cf pp previous_point b s s' :
  commit cf pp previous_point b s = Some s' ->
  exists a fp f g,
    cell (grid s) (row_best b) (col_best b) = Some (Some a) /\
    framepoints s !! a = Some fp /\
    WorldMap.frames (_context s) !! cf = Some f /\
    N.to_nat (_number_of_tracked_points s) < length (Frame.points f) /\
    set_cell (grid s) (row_best b) (col_best b) None = Some g /\
    grid s' = g /\
    framepoints s'
    = <[a := FramePoint.setPrevious pp previous_point fp]> (framepoints s) /\
    points_of s' cf
    = <[N.to_nat (_number_of_tracked_points s) := Some a]> (Frame.points f) /\
    (forall pa, pa <> cf -> points_of s' pa = points_of s pa) /\
    _number_of_tracked_points s' = (_number_of_tracked_points s + 1)%N /\
    _number_of_tracked_landmarks_close s'
    = (if bool_decide (is_Some (FramePoint.landmark previous_point))
          && FramePoint.isNear fp
       then _number_of_tracked_landmarks_close s + 1
       else _number_of_tracked_landmarks_close s)%N /\
    _number_of_tracked_landmarks_far s'
    = (if bool_decide (is_Some (FramePoint.landmark previous_point))
          && negb (FramePoint.isNear fp)
       then _number_of_tracked_landmarks_far s + 1
       else _number_of_tracked_landmarks_far s)%N.
Proof.
  unfold commit. intros H.
  apply bind_Some in H as (pc & Hc & H). apply bind_Some in H as (a & -> & H).
  apply bind_Some in H as (fp & Hfp & H). cbv zeta in H.
  apply bind_Some in H as (f & Hf & H). apply bind_Some in H as (v & Hv & H).
  apply bind_Some in H as (g & Hg & H). injection H as <-.
  apply vec_set_Some in Hv as [Hlen ->]. cbn in Hf, Hlen.
  exists a, fp, f, g. split_and!; try done.
  - rewrite <- Hg. by repeat case_match.
  - by repeat case_match.
  - rewrite points_of_set_grid.
    repeat case_match; unfold points_of; cbn; by rewrite lookup_insert_eq.
  - intros pa Hne. rewrite points_of_set_grid.
    repeat case_match; unfold points_of; cbn; by rewrite lookup_insert_ne.
  - by repeat case_match.
  - cbn. destruct (FramePoint.landmark previous_point), (FramePoint.isNear fp);
      by cbn.
  - cbn. destruct (FramePoint.landmark previous_point), (FramePoint.isNear fp);
      by cbn.
Qed.

Lemma no_match_found_Some pp previous_point s s' :
  no_match_found pp previous_point s = Some s' ->
  (s' = s /\ FramePoint.landmark previous_point = None) \/
  (is_Some (FramePoint.landmark previous_point) /\
   N.to_nat (_number_of_lost_points s) < length (_lost_points s) /\
   s' = set_number_of_lost_points (_number_of_lost_points s + 1)%N
          (set_lost_points
             (<[N.to_nat (_number_of_lost_points s) := pp]> (_lost_points s)) s)).
Proof.
  unfold no_match_found. intros H.
  destruct (FramePoint.landmark previous_point); [|left; by simplify_eq].
  apply bind_Some in H as (lost & [Hl ->]%vec_set_Some & H). injection H as <-.
  right. split; [by eexists|done].
Qed.

Lemma count_app test (l1 l2 : list Ptr) :
  count test (l1 ++ l2) = (count test l1 + count test l2)%N.
Proof. unfold count. rewrite filter_app, length_app. lia. Qed.

Lemma count_ext test test' (l : list Ptr) :
  (forall p, p ∈ l -> test p = test' p) -> count test l = count test' l.
Proof.
  intros H. unfold count. f_equal. f_equal.
  induction l as [|p l IH]; [done|].
  rewrite !filter_cons, (H p) by (by left).
  case_decide; rewrite IH; try done; intros q Hq; apply H; by right.
Qed.

Lemma count_singleton test (p : Ptr) :
  count test [p] = if test p then 1%N else 0%N.
Proof.
  unfold count. rewrite filter_cons, filter_nil.
  destruct (test p); by case_decide.
Qed.

(** The generator's framepoints are at consecutive addresses. *)
Lemma populate_row_occupied robot_to_world image_row cols : forall m r m',
  populate_row robot_to_world image_row cols m = (r, m') ->
  m.2 <= m'.2 /\ omap id r = seq m.2 (m'.2 - m.2).
Proof.
  induction cols as [|col cols IH]; intros m r m'; cbn [populate_row].
  - intros [= <- <-]. by rewrite Nat.sub_diag.
  - destruct (allocate _ _ m) as [p m1] eqn:Ha.
    destruct (populate_row _ _ cols m1) as [ps m2] eqn:Hr.
    intros [= <- <-]. apply IH in Hr as [Hle Hps].
    unfold allocate in Ha. destruct (image_row col); injection Ha as <- <-.
    + cbn in *. rewrite Hps. split; [lia|].
      replace (m2.2 - m.2) with (S (m2.2 - S m.2)) by lia. done.
    + cbn. by rewrite Hps.
Qed.

Lemma populate_occupied robot_to_world image rows cols : forall m g m',
  populate robot_to_world image rows cols m = (g, m') ->
  m.2 <= m'.2 /\ occupied g = seq m.2 (m'.2 - m.2).
Proof.
  unfold occupied.
  induction rows as [|row rows IH]; intros m g m'; cbn [populate].
  - intros [= <- <-]. by rewrite Nat.sub_diag.
  - destruct (populate_row _ _ cols m) as [r m1] eqn:Hr.
    destruct (populate _ _ rows cols m1) as [rs m2] eqn:Hrs.
    intros [= <- <-]. apply populate_row_occupied in Hr as [Hle1 Hr].
    apply IH in Hrs as [Hle2 Hrs]. split; [lia|].
    cbn [concat]. rewrite omap_app, Hr, Hrs.
    replace (m2.2 - m.2) with ((m1.2 - m.2) + (m2.2 - m1.2)) by lia.
    rewrite seq_app. do 2 f_equal. lia.
Qed.

Section Counters.

Variable env : Environment.
Variables pa cf : nat.

(** What an iteration of the loop over the points of the previous frame
    maintains: the first [_number_of_tracked_points] entries of the current
    frame's vector are distinct framepoints that are no longer in the grid,
    each linked to a point of the previous frame, and the two landmark
    counters count those that carry a near and a far landmark. *)
Lemma _trackFramepoints_body_counters (previous : list Ptr) s i s' :
  _trackFramepoints_body env pa cf s i = Some s' ->
  (exists l,
     N.to_nat (_number_of_tracked_points s) <= length (points_of s cf) /\
     take (N.to_nat (_number_of_tracked_points s)) (points_of s cf)
     = Some <$> l /\
     NoDup (l ++ occupied (grid s)) /\
     _number_of_tracked_landmarks_close s
     = count (carries_landmark true s) (Some <$> l) /\
     _number_of_tracked_landmarks_far s
     = count (carries_landmark false s) (Some <$> l) /\
     (pa <> cf ->
      points_of s pa = previous /\
      Forall (tracked_from previous s) (Some <$> l))) ->
  exists l,
    N.to_nat (_number_of_tracked_points s') <= length (points_of s' cf) /\
    take (N.to_nat (_number_of_tracked_points s')) (points_of s' cf)
    = Some <$> l /\
    NoDup (l ++ occupied (grid s')) /\
    _number_of_tracked_landmarks_close s'
    = count (carries_landmark true s') (Some <$> l) /\
    _number_of_tracked_landmarks_far s'
    = count (carries_landmark false s') (Some <$> l) /\
    (pa <> cf ->
     points_of s' pa = previous /\
     Forall (tracked_from previous s') (Some <$> l)).
Proof.
  unfold _trackFramepoints_body.
  intros H (l & Hk & Hl & Hnd & Hclose & Hfar & Hprev).
  apply bind_Some in H as (pf & Hpf & H). apply bind_Some in H as (pp & Hpp & H).
  apply bind_Some in H as (previous_point & Hq & H).
  apply bind_Some in H as (projection_left & _ & H).
  apply bind_Some in H as (r & _ & H).
  assert (forall b, commit cf pp previous_point b s = Some s' ->
            exists l,
              N.to_nat (_number_of_tracked_points s') <= length (points_of s' cf) /\
              take (N.to_nat (_number_of_tracked_points s')) (points_of s' cf)
              = Some <$> l /\
              NoDup (l ++ occupied (grid s')) /\
              _number_of_tracked_landmarks_close s'
              = count (carries_landmark true s') (Some <$> l) /\
              _number_of_tracked_landmarks_far s'
              = count (carries_landmark false s') (Some <$> l) /\
              (pa <> cf ->
               points_of s' pa = previous /\
               Forall (tracked_from previous s') (Some <$> l))) as Hcommit.
  { intros b (a & fp & f & g & Hc & Hfp & Hfr & Hlt & Hg & -> & Hheap & Hpts
              & Hother & Htr & Hcl & Hfa)%commit_Some.
    rewrite (points_of_Some _ _ _ Hfr) in Hl.
    destruct (set_cell_occupied _ _ _ _ _ Hc Hg) as (o1 & o2 & Ho & ->).
    assert (NoDup ((l ++ [a]) ++ o1 ++ o2)) as Hnd'.
    { assert ((l ++ [a]) ++ o1 ++ o2 ≡ₚ l ++ occupied (grid s)) as ->; [|done].
      rewrite Ho, <- app_assoc. f_equiv. cbn. apply Permutation_middle. }
    assert (a ∉ l) as Hal.
    { rewrite Ho in Hnd. apply NoDup_app in Hnd as (_ & Hd & _).
      intros Ha. apply (Hd a Ha). apply elem_of_app. right. by left. }
    assert (forall x, x ∈ l ->
              framepoint s' (Some x) = framepoint s (Some x)) as Hsame.
    { intros x Hx. cbn. rewrite Hheap, lookup_insert_ne; [done|].
      intros ->. done. }
    assert (forall near,
              carries_landmark near s' (Some a)
              = bool_decide (is_Some (FramePoint.landmark previous_point))
                && Bool.eqb (FramePoint.isNear fp) near) as Hnew.
    { intros near. unfold carries_landmark. cbn.
      by rewrite Hheap, lookup_insert_eq. }
    assert (forall near,
              count (carries_landmark near s') (Some <$> l)
              = count (carries_landmark near s) (Some <$> l)) as Hcount.
    { intros near. apply count_ext.
      intros p (x & -> & Hx)%list_elem_of_fmap.
      unfold carries_landmark. by rewrite (Hsame x Hx). }
    exists (l ++ [a]).
    replace (N.to_nat (_number_of_tracked_points s'))
      with (S (N.to_nat (_number_of_tracked_points s))) by lia.
    rewrite Hpts, length_insert, take_S_insert, Hl by done.
    rewrite !fmap_app. change (Some <$> [a]) with [Some a].
    rewrite !count_app, !count_singleton, !Hnew, !Hcount, Hcl, Hfa.
    split_and!; [lia|done|done| | |].
    - rewrite <- Hclose.
      destruct (bool_decide _), (FramePoint.isNear fp); cbn; lia.
    - rewrite <- Hfar.
      destruct (bool_decide _), (FramePoint.isNear fp); cbn; lia.
    - intros Hne. destruct (Hprev Hne) as [Hp Hall].
      rewrite Hother by done. split; [done|].
      apply Forall_app. split.
      + apply Forall_forall. intros p Hp'.
        rewrite Forall_forall in Hall. specialize (Hall p Hp').
        apply list_elem_of_fmap in Hp' as (x & -> & Hx).
        unfold tracked_from in *. by rewrite (Hsame x Hx).
      + apply Forall_singleton. destruct pp as [q|]; [|done].
        exists (FramePoint.setPrevious (Some q) previous_point fp), q.
        cbn. rewrite Hheap, lookup_insert_eq. split_and!; [done..|].
        rewrite <- Hp, (points_of_Some _ _ _ Hpf).
        by eapply list_elem_of_lookup_2. }
  destruct r as [b|b|]; [by eapply Hcommit..|].
  apply no_match_found_Some in H as [[-> _]|(_ & _ & ->)]; by exists l.
Qed.

(** Lines 251-422.  When [_trackFramepoints] returns, if the grid held no
    framepoint twice, [_number_of_tracked_points] is the number of
    framepoints of the current frame, [_number_of_tracked_landmarks_close]
    and [_number_of_tracked_landmarks_far] are the numbers of those that
    carry a near and a far landmark, and each of them is linked to a
    framepoint of the previous frame. *)
Lemma _trackFramepoints_counters s s' :
  NoDup (occupied (grid s)) ->
  _trackFramepoints env pa cf s = Some s' ->
  _number_of_tracked_points s' = N.of_nat (length (points_of s' cf)) /\
  _number_of_tracked_landmarks_close s'
  = count (carries_landmark true s') (points_of s' cf) /\
  _number_of_tracked_landmarks_far s'
  = count (carries_landmark false s') (points_of s' cf) /\
  (pa <> cf ->
   Forall (tracked_from (points_of s' pa) s') (points_of s' cf)).
Proof.
  unfold _trackFramepoints. intros Hnd H.
  apply bind_Some in H as (f & Hf & H). apply bind_Some in H as (s1 & H1 & H).
  apply bind_Some in H as (pf & Hpf & H). apply bind_Some in H as (s2 & H2 & H).
  apply bind_Some in H as (f2 & Hf2 & H). injection H as <-.
  apply _getImageCoordinates_Some in H1 as (pf0 & f0 & Hpf0 & Hf0 & ->).
  set (visible := filter _ (Frame.points pf0)) in *.
  cbn in Hpf. rewrite lookup_insert_eq in Hpf. injection Hpf as <-.
  apply (for_each_invariant
           (fun t =>
              exists l,
                N.to_nat (_number_of_tracked_points t) <= length (points_of t cf) /\
                take (N.to_nat (_number_of_tracked_points t)) (points_of t cf)
                = Some <$> l /\
                NoDup (l ++ occupied (grid t)) /\
                _number_of_tracked_landmarks_close t
                = count (carries_landmark true t) (Some <$> l) /\
                _number_of_tracked_landmarks_far t
                = count (carries_landmark false t) (Some <$> l) /\
                (pa <> cf ->
                 points_of t pa = visible /\
                 Forall (tracked_from visible t) (Some <$> l))))
    in H2 as (l & Hk & Hl & _ & Hclose & Hfar & Hprev).
  - rewrite (points_of_Some _ _ _ Hf2) in Hk, Hl.
    assert (length l = N.to_nat (_number_of_tracked_points s2)) as Hlen.
    { apply (f_equal length) in Hl.
      rewrite length_fmap, length_take in Hl. lia. }
    match goal with
    | |- _ /\ _ = count _ (points_of ?t _) /\ _ => set (s' := t)
    end.
    assert (points_of s' cf = Some <$> l) as Hpoints.
    { unfold s'. points_by_computation. by rewrite resize_le. }
    assert (forall near p,
              carries_landmark near s' p = carries_landmark near s2 p) as Hc
      by done.
    rewrite Hpoints, length_fmap.
    rewrite (count_ext _ _ _ (fun p _ => Hc true p)).
    rewrite (count_ext _ _ _ (fun p _ => Hc false p)).
    split_and!; [cbn; lia|done|done|].
    intros Hne. destruct (Hprev Hne) as [Hp Hall].
    assert (points_of s' pa = visible) as ->.
    { rewrite <- Hp. unfold s'. points_by_computation. done. }
    done.
  - intros t i t' _ Ht Hb. by eapply _trackFramepoints_body_counters.
  - exists []. cbn. split_and!; [lia|done|done|done|done|].
    intros Hne. split; [|done]. points_by_computation. done.
Qed.

End Counters.

Section Switch.

Variable env : Environment.

Lemma reset_currently_tracked_counter s s' :
  reset_currently_tracked s = Some s' ->
  _number_of_tracked_points s' = _number_of_tracked_points s /\
  WorldMap.next_frame (_context s') = WorldMap.next_frame (_context s).
Proof.
  unfold reset_currently_tracked. intros H. unpack.
  match goal with H : for_each _ _ _ = Some _ |- _ =>
    apply (for_each_preserves
             (fun t => (_number_of_tracked_points t,
                        WorldMap.next_frame (_context t)))) in H;
    [injection H as H1 H2; cbn; by rewrite H1, H2|] end.
  intros ? ? ? _ H'. by unpack.
Qed.

(** At the [switch] of [compute], if points are tracked: the frame that
    was current is the previous frame, [_number_of_tracked_points] is the
    number of framepoints of the new frame, and
    [_number_of_tracked_landmarks_close] and
    [_number_of_tracked_landmarks_far] are the numbers of those that carry a
    near and a far landmark; each of them is linked to a framepoint of the
    previous frame (if the previous frame is not at the address of the new
    one). *)
Lemma compute_prior_counters s cf s1 :
  compute_prior env s = Some (cf, s1) ->
  (0 < _number_of_tracked_points s1)%N ->
  cf = WorldMap.next_frame (_context s) /\
  _number_of_tracked_points s1 = N.of_nat (length (points_of s1 cf)) /\
  _number_of_tracked_landmarks_close s1
  = count (carries_landmark true s1) (points_of s1 cf) /\
  _number_of_tracked_landmarks_far s1
  = count (carries_landmark false s1) (points_of s1 cf) /\
  exists pa,
    WorldMap.currentFrame (_context s) = Some pa /\
    (pa <> cf ->
     Forall (tracked_from (points_of s1 pa) s1) (points_of s1 cf)).
Proof.
  unfold compute_prior. intros H Ht.
  apply bind_Some in H as (s0 & H0 & H).
  pose proof (reset_currently_tracked_counter _ _ H0) as [Hz Hn0].
  cbn in Hz, Hn0.
  apply reset_currently_tracked_fixed, fixed_eq in H0
    as (_ & _ & _ & _ & _ & _ & _ & Hc0).
  destruct (priors_fixed s0) as (_ & _ & Hc & _ & Hn).
  assert (_number_of_tracked_points (motion_model (odometry_prior s0)) = 0%N)
    as Hz'.
  { rewrite <- Hz. unfold motion_model, odometry_prior. by repeat case_match. }
  rewrite Hn0 in Hn.
  set (sp := motion_model (odometry_prior s0)) in *. clearbody sp.
  unfold _makeFrame in H. cbv zeta in H.
  apply bind_Some in H as (sg & Hgen & H).
  apply bind_Some in H as (f & Hf & H).
  apply bind_Some in H as (st & Htr & H). injection H as <- <-.
  unfold generator_compute in Hgen.
  apply bind_Some in Hgen as (f' & Hf' & Hgen).
  destruct (populate _ _ _ _ _) as [g m] eqn:Hpop. injection Hgen as <-.
  cbn in Hf, Hf'. rewrite lookup_insert_eq in Hf, Hf'.
  injection Hf as <-. injection Hf' as <-. cbn in Htr.
  apply populate_occupied in Hpop as [_ Hocc].
  rewrite Hc in Htr. cbn in Hc0. rewrite Hc0 in Htr.
  destruct (WorldMap.currentFrame (_context s)) as [pa|] eqn:Hpa.
  - apply _trackFramepoints_counters in Htr as (H1 & H2 & H3 & H4).
    + split_and!; [by rewrite Hn|done..|]. exists pa. split; [done|by rewrite Hn in * ].
    + change (NoDup (occupied g)). rewrite Hocc. apply NoDup_seq.
  - injection Htr as <-. cbn in Ht. lia.
Qed.

End Switch.

Lemma count_all test (l : list Ptr) :
  (forall p, p ∈ l -> test p = true) -> count test l = N.of_nat (length l).
Proof.
  intros H. unfold count. f_equal. f_equal.
  induction l as [|p l IH]; [done|].
  rewrite filter_cons, decide_True by (apply H; by left).
  rewrite IH; [done|]. intros q Hq. apply H. by right.
Qed.

(** C5 (as amended).  On every entry to the Tracking branch with at least
    one tracked point, [_number_of_tracked_points] is the number [n_tracked]
    of framepoints of the current frame, each tracked from (linked to) a
    framepoint of the previous frame, with or without landmark, and
    [_number_of_tracked_landmarks_close] and
    [_number_of_tracked_landmarks_far] are the numbers [n_close] and [n_far]
    of those that carry a near and a far landmark.  The framepoint weight is
    [1 - (n_far + 7 n_close) / n_tracked], the asserted bound [w <= 1]
    holds, the value given to the optimizer is the maximum of [w] and [0.1],
    which is [0.1] exactly when [9 n_tracked <= 10 (n_far + 7 n_close)]; in
    particular it is [0.1] when every tracked point carries a far landmark. *)
Theorem weight_framepoint_is_clamped env s current_frame s1 :
  compute_prior env s = Some (current_frame, s1) ->
  _status s1 = Tracking ->
  (0 < _number_of_tracked_points s1)%N ->
  let tracked := points_of s1 current_frame in
  let n_tracked := N.of_nat (length tracked) in
  let n_close := count (carries_landmark true s1) tracked in
  let n_far := count (carries_landmark false s1) tracked in
  let w := weight_framepoint s1 in
  let passed := Real.std_max w (Fin (1 # 10)) in
  _number_of_tracked_points s1 = n_tracked /\
  _number_of_tracked_landmarks_close s1 = n_close /\
  _number_of_tracked_landmarks_far s1 = n_far /\
  (exists previous_frame,
     WorldMap.currentFrame (_context s) = Some previous_frame /\
     (previous_frame <> current_frame ->
      Forall (tracked_from (points_of s1 previous_frame) s1) tracked)) /\
  (exists q,
     w = Fin (Qred q) /\
     (q == 1 - inject_Z (Z.of_N (n_far + 7 * n_close))
               / inject_Z (Z.of_N n_tracked))%Q) /\
  Real.leb w (Fin 1) = true /\
  (forall s', compute env s = Some s' ->
              PoseOptimizer.weightFramepoint (_pose_optimizer s') = passed) /\
  (passed = Fin (1 # 10) <->
   (9 * n_tracked <= 10 * (n_far + 7 * n_close))%N) /\
  ((forall p, p ∈ tracked -> carries_landmark false s1 p = true) ->
   passed = Fin (1 # 10)).
Proof.
  intros Hprior Hstatus Ht tracked n_tracked n_close n_far w passed.
  destruct (compute_prior_counters env s current_frame s1 Hprior Ht)
    as (_ & Hn & Hc & Hf & Hprev).
  fold tracked in Hn, Hc, Hf, Hprev.
  fold n_tracked in Hn. fold n_close in Hc. fold n_far in Hf.
  destruct (weight_framepoint_finite s1 Ht) as (q & Hw & Hq).
  pose proof (landmark_ratio_nonneg s1 Ht) as Hr.
  pose proof (landmark_ratio_ge s1 9 10 Ht ltac:(lia)) as Hge.
  change (9 # Z.to_pos 10) with (9 # 10) in Hge.
  assert (passed = Fin (1 # 10) <-> (9 # 10 <= landmark_ratio s1)%Q) as Hp.
  { unfold passed, w, Real.std_max. rewrite Hw. simpl.
    destruct (Qle_bool (1 # 10) (Qred q)) eqn:Hle; simpl.
    - apply Qle_bool_iff in Hle. rewrite Qred_correct, Hq in Hle. split.
      + intros [= Hx].
        assert (Qred q == 1 # 10)%Q as Hx' by (by rewrite Hx).
        rewrite Qred_correct, Hq in Hx'. lra.
      + intros Hx. f_equal. change (1 # 10) with (Qred (1 # 10)).
        apply Qred_complete. rewrite Hq. lra.
    - split; [intros _|done].
      assert (~ (1 # 10 <= Qred q)%Q) as Hn'
        by (intros Hx%Qle_bool_iff; congruence).
      rewrite Qred_correct, Hq in Hn'. lra. }
  assert (passed = Fin (1 # 10) <->
          (9 * n_tracked <= 10 * (n_far + 7 * n_close))%N) as Hp'.
  { rewrite Hp, Hge, Hn, Hc, Hf. lia. }
  split_and!; try done.
  - exists q. split; [done|]. rewrite Hq. unfold landmark_ratio.
    by rewrite Hn, Hc, Hf.
  - unfold w. rewrite Hw. simpl. apply Qle_bool_iff.
    rewrite Qred_correct, Hq. lra.
  - intros s' Hcomp. unfold compute in Hcomp. rewrite Hprior in Hcomp.
    simpl in Hcomp. rewrite Hstatus in Hcomp.
    apply compute_Tracking_Some in Hcomp as (cf & pa & pf & _ & _ & _ & -> & _).
    done.
  - intros Hall. apply Hp'. unfold n_far. rewrite (count_all _ _ Hall).
    fold n_tracked. lia.
Qed.

Lemma weight_framepoint_is_clamped_witness :
  PoseOptimizer.weightFramepoint
    (_pose_optimizer (Example.after (Example.e1 5) Example.tracking))
  = Fin (1 # 10).
Proof.
  destruct (weight_framepoint_is_clamped (Example.e1 5) Example.tracking
              (Example.at_switch (Example.e1 5) Example.tracking).1
              (Example.at_switch (Example.e1 5) Example.tracking).2)
    as (_ & _ & _ & _ & _ & _ & H & _ & _).
  - vm_compute. reflexivity.
  - vm_compute. reflexivity.
  - vm_compute. reflexivity.
  - rewrite (H (Example.after (Example.e1 5) Example.tracking));
      vm_compute; reflexivity.
Defined.

(** C5, as stated, fails on the weight given when all tracked landmarks are
    far: at the fourth frame two points are tracked, the first with a far
    landmark and the second, seen once before, with none; the weight is
    [1 - 1/2] and the optimizer is given [0.5]. *)
Lemma weight_not_clamped_with_a_point_without_landmark :
  ~ weight_is_clamped_when_all_tracked_landmarks_are_far Example.e0.
Proof.
  intros H.
  specialize (H Example.before_fourth_frame
                (Example.at_switch Example.e0 Example.before_fourth_frame).1
                (Example.at_switch Example.e0 Example.before_fourth_frame).2
                (Example.after Example.e0 Example.before_fourth_frame)).
  vm_compute in H.
  specialize (H eq_refl eq_refl eq_refl eq_refl eq_refl). discriminate H.
Qed.

(** The branch is entered without tracked points when a tracking tracker is
    given a blank image: the weight is [0/0], not a number, the asserted
    bound [w <= 1] is false and the optimizer is given a NaN. *)
Lemma weight_framepoint_without_tracked_points :
  let s1 := (Example.at_switch (Example.e1 5) Example.before_blank_frame).2 in
  compute_prior (Example.e1 5) Example.before_blank_frame
  = Some (Example.at_switch (Example.e1 5) Example.before_blank_frame) /\
  _status s1 = Tracking /\ _number_of_tracked_points s1 = 0%N /\
  weight_framepoint s1 = NaN /\ Real.leb (weight_framepoint s1) (Fin 1) = false /\
  PoseOptimizer.weightFramepoint
    (_pose_optimizer (Example.after (Example.e1 5) Example.before_blank_frame))
  = NaN.
Proof. vm_compute. repeat split; reflexivity. Qed.
